(** * Fairy-Tale Diary: a shallow embedding of the response parser, the
    prompt builders, the style toggles, the workspace entry builder and the
    entry store, with the properties of the specification checked on it.

    Source files embedded here:
    - [src/services/geminiService.ts]: the three service operations and
      the types of the application,
    - [src/components/StoryForm.tsx]: the style toggles,
    - [src/components/StoryWorkspace.tsx]: getCurrentEntry and the save at
      the end of handleDownloadImage,
    - the application component: handleSaveEntry, handleDeleteEntry and
      the two local-storage effects,
    - the story card: the default fonts.

    The first part holds the embedding, the second part the facts. *)

From Stdlib Require Import Ascii String List NArith ZArith Bool Lia.
From Stdlib Require Import DecimalString.
Import ListNotations.

Set Implicit Arguments.

(* ================================================================== *)
(** * JavaScript strings *)
(* ================================================================== *)

(** A JavaScript string is a sequence of UTF-16 code units: [length], the
    regular-expression classes and [trim] all work on code units. *)
Module JsString.

Definition jsstring : Type := list N.

(** Reading of the UTF-8 bytes of a source literal as UTF-16 code units,
    which is what the compiler does with the text of a string literal. *)
Fixpoint utf16_of_utf8 (bs : list N) : jsstring :=
  match bs with
  | [] => []
  | b0 :: r0 =>
    if (b0 <? 128)%N then b0 :: utf16_of_utf8 r0
    else if (b0 <? 224)%N then
      match r0 with
      | b1 :: r1 =>
        N.lor (N.shiftl (N.land b0 31) 6) (N.land b1 63) :: utf16_of_utf8 r1
      | [] => [65533%N]
      end
    else if (b0 <? 240)%N then
      match r0 with
      | b1 :: b2 :: r2 =>
        N.lor (N.shiftl (N.land b0 15) 12)
              (N.lor (N.shiftl (N.land b1 63) 6) (N.land b2 63))
        :: utf16_of_utf8 r2
      | _ => [65533%N]
      end
    else
      match r0 with
      | b1 :: b2 :: b3 :: r3 =>
        let cp := N.lor (N.shiftl (N.land b0 7) 18)
                  (N.lor (N.shiftl (N.land b1 63) 12)
                  (N.lor (N.shiftl (N.land b2 63) 6) (N.land b3 63))) in
        let v := (cp - 65536)%N in
        (55296 + N.shiftr v 10)%N :: (56320 + N.land v 1023)%N
        :: utf16_of_utf8 r3
      | _ => [65533%N]
      end
  end.

Definition js (s : string) : jsstring :=
  utf16_of_utf8 (map N_of_ascii (list_ascii_of_string s)).

(** The double quote character, which the templates of the service embed. *)
Definition dquote : jsstring := [34%N].

(** Strict equality of two strings. *)
Fixpoint str_eqb (a b : jsstring) : bool :=
  match a, b with
  | [], [] => true
  | x :: a', y :: b' => (x =? y)%N && str_eqb a' b'
  | _, _ => false
  end.

(** Truthiness of a string: every string but the empty one. *)
Definition truthy (s : jsstring) : bool :=
  match s with [] => false | _ :: _ => true end.

(** [a || b] on strings. *)
Definition or_else (a b : jsstring) : jsstring :=
  if truthy a then a else b.

(** Truthiness of a value that is a string, [null] or [undefined]. *)
Definition truthy_opt (o : option jsstring) : bool :=
  match o with Some s => truthy s | None => false end.

(** [o || b] where [o] may be [null] or [undefined]. *)
Definition opt_or_else (o : option jsstring) (b : jsstring) : jsstring :=
  match o with Some s => or_else s b | None => b end.

(** LineTerminator code points of ECMAScript. *)
Definition is_line_terminator (c : N) : bool :=
  ((c =? 10) || (c =? 13) || (c =? 8232) || (c =? 8233))%N.

(** The class [\s]: WhiteSpace and LineTerminator code points. *)
Definition is_space (c : N) : bool :=
  ((c =? 9) || (c =? 10) || (c =? 11) || (c =? 12) || (c =? 13) || (c =? 32)
   || (c =? 160) || (c =? 5760) || ((8192 <=? c) && (c <=? 8202))
   || (c =? 8232) || (c =? 8233) || (c =? 8239) || (c =? 8287)
   || (c =? 12288) || (c =? 65279))%N.

(** The class [.] (no [s] flag): anything but a line terminator. *)
Definition is_dot (c : N) : bool := negb (is_line_terminator c).

(** The class [[\s\S]]: every code unit. *)
Definition is_any (c : N) : bool := is_space c || negb (is_space c).

Fixpoint drop_while (p : N -> bool) (s : jsstring) : jsstring :=
  match s with
  | x :: s' => if p x then drop_while p s' else s
  | [] => []
  end.

Fixpoint take_while (p : N -> bool) (s : jsstring) : jsstring :=
  match s with
  | x :: s' => if p x then x :: take_while p s' else []
  | [] => []
  end.

(** [String.prototype.trim]: white space and line terminators are removed
    from both ends. *)
Definition trim (s : jsstring) : jsstring :=
  rev (drop_while is_space (rev (drop_while is_space s))).

(** [s.startsWith(p)], returning what follows the prefix. *)
Fixpoint strip_prefix (p s : jsstring) : option jsstring :=
  match p, s with
  | [], _ => Some s
  | x :: p', y :: s' => if (x =? y)%N then strip_prefix p' s' else None
  | _ :: _, [] => None
  end.

(** Decimal rendering of an integer number, as template interpolation and
    [String(n)] produce it for integers. *)
Definition of_Z (z : Z) : jsstring :=
  js (NilZero.string_of_int (Z.to_int z)).

(** [x] occurs in [s] as a contiguous piece. *)
Definition contains (x s : jsstring) : Prop :=
  exists pre post, s = pre ++ x ++ post.

(** [s.endsWith(x)]. *)
Definition ends_with (x s : jsstring) : bool :=
  match strip_prefix (rev x) (rev s) with
  | Some _ => true
  | None => false
  end.

(** [s.includes(x)]. *)
Fixpoint includes (x s : jsstring) : bool :=
  match strip_prefix x s with
  | Some _ => true
  | None =>
    match s with
    | [] => false
    | _ :: s' => includes x s'
    end
  end.

(** No proper non-empty beginning of [x] ends [s]: an occurrence of [x]
    cannot start inside [s] and run past its end. *)
Definition no_border (s x : jsstring) : bool :=
  forallb (fun k => negb (ends_with (firstn k x) s))
          (seq 1 (length x - 1)).

End JsString.
Import JsString.

(* ================================================================== *)
(** * Regular expressions of the response parser *)
(* ================================================================== *)

(** A backtracking matcher for the fragment of ECMAScript regular
    expressions that the parser uses: literal text, a quantified character
    class (greedy [*], greedy [+], lazy [*?]), one capture group, sequence,
    alternation, positive lookahead and the end-of-input assertion [$]
    (no [m] flag).  The matcher is written with continuations, as the
    ECMAScript specification writes it. *)
Module Regex.

Inductive regex : Type :=
| Lit (s : jsstring)
| Star (c : N -> bool)
| Plus (c : N -> bool)
| LazyStar (c : N -> bool)
| Group (r : regex)
| Seq (r1 r2 : regex)
| Alt (r1 r2 : regex)
| Lookahead (r : regex)
| EndOfInput.

(** Capture 1: [None] while the group has not taken part in the match. *)
Definition capture : Type := option jsstring.

(** A continuation receives the rest of the input and the capture. *)
Definition cont : Type := jsstring -> capture -> option capture.

Definition accept : cont := fun _ cap => Some cap.

(** [c*]: as many characters as possible first, one fewer on failure. *)
Fixpoint star_greedy (c : N -> bool) (k : cont) (s : jsstring)
    (cap : capture) : option capture :=
  match s with
  | x :: s' =>
    if c x then
      match star_greedy c k s' cap with
      | Some r => Some r
      | None => k s cap
      end
    else k s cap
  | [] => k s cap
  end.

(** [c*?]: as few characters as possible first, one more on failure. *)
Fixpoint star_lazy (c : N -> bool) (k : cont) (s : jsstring)
    (cap : capture) : option capture :=
  match k s cap with
  | Some r => Some r
  | None =>
    match s with
    | x :: s' => if c x then star_lazy c k s' cap else None
    | [] => None
    end
  end.

Fixpoint run (r : regex) (k : cont) (s : jsstring) (cap : capture)
    : option capture :=
  match r with
  | Lit l =>
    match strip_prefix l s with
    | Some s' => k s' cap
    | None => None
    end
  | Star c => star_greedy c k s cap
  | Plus c =>
    match s with
    | x :: s' => if c x then star_greedy c k s' cap else None
    | [] => None
    end
  | LazyStar c => star_lazy c k s cap
  | Group r1 =>
    run r1 (fun s' _ => k s' (Some (firstn (length s - length s') s))) s cap
  | Seq r1 r2 => run r1 (run r2 k) s cap
  | Alt r1 r2 =>
    match run r1 k s cap with
    | Some res => Some res
    | None => run r2 k s cap
    end
  | Lookahead r1 =>
    match run r1 accept s cap with
    | Some cap' => k s cap'
    | None => None
    end
  | EndOfInput =>
    match s with
    | [] => k s cap
    | _ :: _ => None
    end
  end.

(** [text.match(r)] for a regular expression without the [g] flag: the
    match is tried at every start position from the left; the result is
    [None] for [null] and otherwise the capture of group 1. *)
Fixpoint js_match (r : regex) (s : jsstring) : option capture :=
  match run r accept s None with
  | Some cap => Some cap
  | None =>
    match s with
    | [] => None
    | _ :: s' => js_match r s'
    end
  end.

(** [m && m[1]]: the match succeeded and group 1 is a non-empty string. *)
Definition group1 (m : option capture) : option jsstring :=
  match m with
  | Some (Some g) => if truthy g then Some g else None
  | _ => None
  end.

End Regex.
Import Regex.

(* ================================================================== *)
(** * The types of the application *)
(* ================================================================== *)

Module FontFamily.
Inductive t : Type := basic | cute | hand | dongle | gamja | poor.
Definition eqb (a b : t) : bool :=
  match a, b with
  | basic, basic | cute, cute | hand, hand
  | dongle, dongle | gamja, gamja | poor, poor => true
  | _, _ => false
  end.
End FontFamily.

Module FontSize.
Inductive t : Type := x_small | small | medium | large | x_large.
Definition eqb (a b : t) : bool :=
  match a, b with
  | x_small, x_small | small, small | medium, medium
  | large, large | x_large, x_large => true
  | _, _ => false
  end.
End FontSize.

Module DrawingLevel.
Inductive t : Type := low | medium | high.
Definition eqb (a b : t) : bool :=
  match a, b with
  | low, low | medium, medium | high, high => true
  | _, _ => false
  end.
(** The string a level is at run time. *)
Definition name (l : t) : jsstring :=
  match l with
  | low => js "low"
  | medium => js "medium"
  | high => js "high"
  end.
End DrawingLevel.

(** [WritingGrade] is the numeric union [1 | 2 | 3 | 4 | 5 | 6]: a number at
    run time. *)
Module WritingGrade.
Definition t : Type := Z.
Definition valid (g : t) : Prop := (1 <= g <= 6)%Z.
End WritingGrade.

(** The decimal digits as code units: ['0'] is 48. *)
Module Digit.
Definition digit (z : Z) : jsstring := [Z.to_N (48 + z)].
End Digit.

Module StoryStyleConfig.
Record t : Type := mk {
  fontFamily : FontFamily.t;
  fontSize : FontSize.t;
  drawingLevel : option DrawingLevel.t;
  writingGrade : option WritingGrade.t
}.
End StoryStyleConfig.

Module StoryEntry.
Record t : Type := mk {
  id : jsstring;
  videoUrl : jsstring;
  videoId : jsstring;
  title : jsstring;
  summary : jsstring;
  favoriteScene : jsstring;
  thoughts : jsstring;
  generatedImageUrl : option jsstring;
  styleConfig : option StoryStyleConfig.t;
  createdAt : Z
}.
End StoryEntry.

Module YouTubeAnalysisResult.
Record t : Type := mk {
  title : jsstring;
  summary : jsstring;
  recommendedScene : jsstring;
  recommendedThoughts : jsstring
}.
End YouTubeAnalysisResult.

(* ================================================================== *)
(** * The service operations (geminiService.ts) *)
(* ================================================================== *)

Module GeminiService.

(** ** Promises and exceptions *)

Inductive exn : Type :=
| Error (message : jsstring)
| TypeError.

(** An operation either resolves with a value or rejects with what was
    thrown. *)
Inductive outcome (A : Type) : Type :=
| Resolved (a : A)
| Rejected (e : exn).
Arguments Resolved {A} a.
Arguments Rejected {A} e.

Definition bind {A B : Type} (m : outcome A) (f : A -> outcome B)
    : outcome B :=
  match m with
  | Resolved a => f a
  | Rejected e => Rejected e
  end.

(** [try { body } catch (error) { throw new Error(msg) }]. *)
Definition try_catch_throw {A : Type} (body : outcome A) (msg : jsstring)
    : outcome A :=
  match body with
  | Resolved a => Resolved a
  | Rejected _ => Rejected (Error msg)
  end.

(** ** The generative-AI client, as the operations see it *)

Record Blob : Type := {
  data : option jsstring;
  mimeType : option jsstring
}.
Record Part : Type := { inlineData : option Blob }.
Record Content : Type := { parts : option (list Part) }.
Record Candidate : Type := { content : option Content }.
Record GenerateContentResponse : Type := {
  candidates : option (list Candidate);
  text : option jsstring
}.

Inductive RequestConfig : Type :=
| GoogleSearchTool
| SquareImage
| AudioKore.

Record Request : Type := {
  model : jsstring;
  contents : jsstring;
  config : RequestConfig
}.

(** What the operations read from their surroundings: the API key of the
    process environment, the generative-AI endpoint, and [extractYouTubeId]
    of the utilities module. *)
Record Env : Type := {
  API_KEY : option jsstring;
  generateContent : Request -> outcome GenerateContentResponse;
  extractYouTubeId : jsstring -> option jsstring
}.

Definition getClient (env : Env)
    : outcome (Request -> outcome GenerateContentResponse) :=
  if negb (truthy_opt (API_KEY env))
  then Rejected (Error (js "API Key not found"))
  else Resolved (generateContent env).

(** ** analyzeStoryLink *)

Definition searchQueryOf (url : jsstring) (videoId manualTitle : option jsstring)
    : jsstring :=
  let searchQuery :=
    if truthy_opt videoId
    then js "site:youtube.com " ++ dquote ++ opt_or_else videoId [] ++ dquote
    else url in
  if truthy_opt manualTitle
  then searchQuery ++ js " " ++ dquote ++ opt_or_else manualTitle [] ++ dquote
  else searchQuery.

Definition analysisPrompt (url : jsstring) (videoId manualTitle : option jsstring)
    (searchQuery : jsstring) (summaryLength thoughtsLength writingGrade : Z)
    : jsstring :=
  js "
    You are an AI assistant helper for a children's book report app.

    **TASK**: Analyze the specific YouTube video provided and extract its content to help a child write a report.

    **TARGET**:
    - URL: " ++
  url ++
  js "
    - Video ID: " ++
  opt_or_else videoId (js "Unknown") ++
  js "
    - User Provided Title Hint: " ++
  opt_or_else manualTitle (js "None") ++
  js "
    - Search Query to use: " ++
  searchQuery ++
  js "
    - Target Audience Level: Elementary School Grade " ++
  of_Z writingGrade ++
  js " (Korean Education System)

    **CRITICAL INSTRUCTIONS (DO NOT IGNORE)**:
    1. **MANDATORY SEARCH**: You MUST use the 'googleSearch' tool. execute the search query provided above to find the *exact* video title and description/content.
    2. **IDENTIFY SPECIFIC VERSION**: 
       - If the user provided a " ++
  dquote ++
  js "User Provided Title Hint" ++
  dquote ++
  js ", prioritize checking if the video matches this title.
       - Do NOT assume the story is the classic original version just by the title. 
       - If the video is " ++
  dquote ++
  js "Pinkfong Three Little Pigs" ++
  dquote ++
  js ", summarize the specific Pinkfong musical version.
       - If it is a parody or a specific cartoon episode (e.g., Pororo, Hello Carbot), summarize THAT specific plot.
       - If the link content does not match the classic fairy tale, follow the link's content.
    3. **NO GUESSING**: If you absolutely cannot find the video details via search, state that you couldn't find the specific video content instead of hallucinating a generic story.
    4. **WRITING STYLE & LEVEL (Grade " ++
  of_Z writingGrade ++
  js ")**:
       - **Grade 1-2**: Use very simple sentences, basic vocabulary, friendly and soft tone (해요-che). Avoid difficult words.
       - **Grade 3-4**: Use structured sentences, slightly more descriptive vocabulary.
       - **Grade 5-6**: Use more complex sentences, critical thinking, and mature expressions.
       - **Summary**: Approximately " ++
  of_Z summaryLength ++
  js " sentences.
       - **Thoughts/Feelings**: Approximately " ++
  of_Z thoughtsLength ++
  js " sentences.

    **OUTPUT FORMAT (Korean)**:
    Provide the result in the following format:

    제목: [Exact Video Title found via search, or use the User Provided Title if it matches]
    줄거리: [A " ++
  of_Z summaryLength ++
  js "-sentence summary of the ACTUAL video content, written for Grade " ++
  of_Z writingGrade ++
  js " level]
    장면: [Visual description of a specific scene unique to this video version]
    느낀점: [Educational or emotional thought based on this specific video, approx " ++
  of_Z thoughtsLength ++
  js " sentences, written for Grade " ++
  of_Z writingGrade ++
  js " level]
  ".

Definition titleRe : regex :=
  Seq (Lit (js "제목:")) (Seq (Star is_space) (Group (Plus is_dot))).

Definition summaryRe : regex :=
  Seq (Lit (js "줄거리:"))
      (Seq (Star is_space)
           (Seq (Group (LazyStar is_any))
                (Lookahead (Alt (Lit (js "장면:")) EndOfInput)))).

Definition sceneRe : regex :=
  Seq (Lit (js "장면:"))
      (Seq (Star is_space)
           (Seq (Group (LazyStar is_any))
                (Lookahead (Alt (Lit (js "느낀점:")) EndOfInput)))).

Definition thoughtsRe : regex :=
  Seq (Lit (js "느낀점:"))
      (Seq (Star is_space) (Seq (Group (LazyStar is_any)) EndOfInput)).

Definition titleFallback : jsstring := js "동화 제목을 찾을 수 없어요".
Definition summaryFallback : jsstring :=
  js "줄거리를 가져오는데 실패했어요. 링크가 올바른지 확인해주세요.".

Definition is_null {A : Type} (m : option A) : bool :=
  match m with None => true | Some _ => false end.

(** The parsing step of [analyzeStoryLink]: from the text of the response
    to the returned record. *)
Definition parseResponse (text : jsstring) (manualTitle : option jsstring)
    : YouTubeAnalysisResult.t :=
  let titleMatch := js_match titleRe text in
  let summaryMatch := js_match summaryRe text in
  let sceneMatch := js_match sceneRe text in
  let thoughtsMatch := js_match thoughtsRe text in
  let title := opt_or_else manualTitle [] in
  let title :=
    match group1 titleMatch with
    | Some g => trim g
    | None => title
    end in
  let summary :=
    match group1 summaryMatch with
    | Some g => trim g
    | None =>
      if is_null titleMatch && (10 <? length text)%nat then text else []
    end in
  let recommendedScene :=
    match group1 sceneMatch with
    | Some g => trim g
    | None => []
    end in
  let recommendedThoughts :=
    match group1 thoughtsMatch with
    | Some g => trim g
    | None => []
    end in
  let title := if negb (truthy title) then titleFallback else title in
  let summary := if negb (truthy summary) then summaryFallback else summary in
  YouTubeAnalysisResult.mk title summary recommendedScene recommendedThoughts.

Definition analyzeError : jsstring :=
  js "AI가 동화를 분석하는 중에 문제가 발생했어요. 잠시 후 다시 시도해주세요.".

Definition default {A : Type} (d : A) (o : option A) : A :=
  match o with Some a => a | None => d end.

(** The request of [analyzeStoryLink]: model, prompt and the search tool. *)
Definition analyzeRequest (env : Env) (url : jsstring)
    (summaryLength thoughtsLength writingGrade : Z)
    (manualTitle : option jsstring) : Request :=
  let modelId := js "gemini-2.5-flash" in
  let videoId := extractYouTubeId env url in
  let searchQuery := searchQueryOf url videoId manualTitle in
  let prompt := analysisPrompt url videoId manualTitle searchQuery
                  summaryLength thoughtsLength writingGrade in
  {| model := modelId; contents := prompt; config := GoogleSearchTool |}.

Definition analyzeStoryLink (env : Env) (url : jsstring)
    (summaryLength thoughtsLength writingGrade : option Z)
    (manualTitle : option jsstring) : outcome YouTubeAnalysisResult.t :=
  let summaryLength := default 3%Z summaryLength in
  let thoughtsLength := default 3%Z thoughtsLength in
  let writingGrade := default 1%Z writingGrade in
  bind (getClient env) (fun ai =>
    try_catch_throw
      (bind (ai (analyzeRequest env url summaryLength thoughtsLength
                   writingGrade manualTitle))
         (fun response =>
            let text := opt_or_else (text response) [] in
            Resolved (parseResponse text manualTitle)))
      analyzeError).

(** ** generateSceneImage *)

Definition effectiveDescription (sceneDescription summary : jsstring)
    : jsstring :=
  if truthy (trim sceneDescription)
  then sceneDescription
  else js "The most representative and heartwarming scene from the story summary: " ++ summary.

Definition styleGuideLow : jsstring :=
  js "Style: Simple and cute art. Thick lines, bright primary colors, simple shapes, crayon or marker style, whimsical. Easy to understand for young children.".
Definition styleGuideMedium : jsstring :=
  js "Style: Standard children's book illustration. Colored pencils or soft watercolor. Warm atmosphere, balanced details, friendly characters.".
Definition styleGuideHigh : jsstring :=
  js "Style: High-quality, artistic illustration. Refined details, sophisticated composition, expressive lighting, beautiful digital art or detailed watercolor.".

Definition styleGuide (level : DrawingLevel.t) : jsstring :=
  if str_eqb (DrawingLevel.name level) (js "low") then styleGuideLow
  else if str_eqb (DrawingLevel.name level) (js "medium") then styleGuideMedium
  else styleGuideHigh.

Definition imagePrompt (sceneDescription title summary : jsstring)
    (level : DrawingLevel.t) : jsstring :=
  js "
    Context:
    Story Title: " ++
  title ++
  js "
    Story Summary: " ++
  summary ++
  js "
    Target Style Level: " ++
  DrawingLevel.name level ++
  js "
    
    Request:
    Draw a SINGLE illustration for: " ++
  dquote ++
  effectiveDescription sceneDescription summary ++
  dquote ++
  js "
    
    " ++
  styleGuide level ++
  js "
    
    CRITICAL RESTRICTIONS:
    1. DO NOT include any text, words, letters, or Hangul in the image. The image must be completely text-free.
    2. Draw EXACTLY ONE scene. Do not create a comic strip, multiple panels, or split screens.
    3. Focus on the main characters and action.
  ".

Definition imageMissing : jsstring := js "이미지가 생성되지 않았습니다.".
Definition imageError : jsstring := js "그림을 그리는 중 오류가 발생했어요.".

(** [`${x}`] for a string that may be [undefined]. *)
Definition interpolate (o : option jsstring) : jsstring :=
  match o with Some s => s | None => js "undefined" end.

Definition dataUrl (b : Blob) : jsstring :=
  let base64Data := data b in
  let mimeType := opt_or_else (mimeType b) (js "image/png") in
  js "data:" ++ mimeType ++ js ";base64," ++ interpolate base64Data.

(** The loop over the parts: the first part that has inline data. *)
Fixpoint firstInlineData (ps : list Part) : option Blob :=
  match ps with
  | [] => None
  | p :: ps' =>
    match inlineData p with
    | Some b => Some b
    | None => firstInlineData ps'
    end
  end.

(** The body of the [try] after the call has returned [response]. *)
Definition extractImage (response : GenerateContentResponse)
    : outcome jsstring :=
  match candidates response with
  | None => Rejected (Error imageMissing)
  | Some cs =>
    match cs with
    | [] => Rejected TypeError
    | c0 :: _ =>
      match content c0 with
      | None => Rejected (Error imageMissing)
      | Some ct =>
        match parts ct with
        | None => Rejected (Error imageMissing)
        | Some ps =>
          match firstInlineData ps with
          | Some b => Resolved (dataUrl b)
          | None => Rejected (Error imageMissing)
          end
        end
      end
    end
  end.

(** The request of [generateSceneImage]. *)
Definition imageRequest (sceneDescription title summary : jsstring)
    (level : DrawingLevel.t) : Request :=
  let modelId := js "gemini-2.5-flash-image" in
  let prompt := imagePrompt sceneDescription title summary level in
  {| model := modelId; contents := prompt; config := SquareImage |}.

Definition generateSceneImage (env : Env)
    (sceneDescription title summary : jsstring)
    (level : option DrawingLevel.t) : outcome jsstring :=
  let level := default DrawingLevel.low level in
  bind (getClient env) (fun ai =>
    try_catch_throw
      (bind (ai (imageRequest sceneDescription title summary level))
         extractImage)
      imageError).

(** ** generateStorySpeech *)

Definition speechMissing : jsstring := js "No audio data returned".
Definition speechError : jsstring := js "음성을 생성하는 중 오류가 발생했어요.".

(** [response.candidates?.[0]?.content?.parts?.[0]?.inlineData?.data]. *)
Definition firstAudioData (response : GenerateContentResponse)
    : option jsstring :=
  match candidates response with
  | Some (c0 :: _) =>
    match content c0 with
    | Some ct =>
      match parts ct with
      | Some (p0 :: _) =>
        match inlineData p0 with
        | Some b => data b
        | None => None
        end
      | _ => None
      end
    | None => None
    end
  | _ => None
  end.

Definition extractSpeech (response : GenerateContentResponse)
    : outcome jsstring :=
  let base64Audio := firstAudioData response in
  if negb (truthy_opt base64Audio)
  then Rejected (Error speechMissing)
  else Resolved (opt_or_else base64Audio []).

(** The request of [generateStorySpeech]. *)
Definition speechRequest (text : jsstring) : Request :=
  let modelId := js "gemini-2.5-flash-preview-tts" in
  {| model := modelId; contents := text; config := AudioKore |}.

Definition generateStorySpeech (env : Env) (text : jsstring)
    : outcome jsstring :=
  bind (getClient env) (fun ai =>
    try_catch_throw (bind (ai (speechRequest text)) extractSpeech)
      speechError).

End GeminiService.
Import GeminiService.

(* ================================================================== *)
(** * The style toggles (StoryForm.tsx) *)
(* ================================================================== *)

Module StoryForm.

(** [Array.prototype.indexOf] with strict equality: [-1] when absent. *)
Fixpoint indexOf {A : Type} (eqb : A -> A -> bool) (l : list A) (x : A) : Z :=
  match l with
  | [] => (-1)%Z
  | y :: l' =>
    if eqb y x then 0%Z
    else let i := indexOf eqb l' x in
         if (i <? 0)%Z then (-1)%Z else (i + 1)%Z
  end.

(** [l[i]]: [undefined] outside of the array. *)
Definition item {A : Type} (l : list A) (i : Z) : option A :=
  if (i <? 0)%Z then None else nth_error l (Z.to_nat i).

Definition fonts : list FontFamily.t :=
  [FontFamily.basic; FontFamily.cute; FontFamily.hand;
   FontFamily.dongle; FontFamily.gamja; FontFamily.poor].

Definition toggleFontFamily (fontFamily : FontFamily.t)
    : option FontFamily.t :=
  let nextIndex :=
    Z.rem (indexOf FontFamily.eqb fonts fontFamily + 1)
          (Z.of_nat (length fonts)) in
  item fonts nextIndex.

Definition sizes : list FontSize.t :=
  [FontSize.x_small; FontSize.small; FontSize.medium;
   FontSize.large; FontSize.x_large].

Definition toggleFontSize (fontSize : FontSize.t) : option FontSize.t :=
  let nextIndex :=
    Z.rem (indexOf FontSize.eqb sizes fontSize + 1)
          (Z.of_nat (length sizes)) in
  item sizes nextIndex.

Definition levels : list DrawingLevel.t :=
  [DrawingLevel.low; DrawingLevel.medium; DrawingLevel.high].

Definition toggleDrawingLevel (drawingLevel : DrawingLevel.t)
    : option DrawingLevel.t :=
  let currentIndex := indexOf DrawingLevel.eqb levels drawingLevel in
  let nextIndex := Z.rem (currentIndex + 1) (Z.of_nat (length levels)) in
  item levels nextIndex.

Definition toggleWritingGrade (writingGrade : WritingGrade.t)
    : WritingGrade.t :=
  let nextGrade := (Z.rem writingGrade 6 + 1)%Z in
  nextGrade.

(** A toggle pressed [n] times; the state setter receives what the array
    access returned. *)
Fixpoint press {A : Type} (n : nat) (toggle : A -> option A) (a : A)
    : option A :=
  match n with
  | O => Some a
  | S n' =>
    match toggle a with
    | Some a' => press n' toggle a'
    | None => None
    end
  end.

End StoryForm.

(* ================================================================== *)
(** * The entry store (application component) *)
(* ================================================================== *)

Module App.

(** [prev.find(pred)]. *)
Fixpoint find {A : Type} (pred : A -> bool) (prev : list A) : option A :=
  match prev with
  | [] => None
  | e :: rest => if pred e then Some e else find pred rest
  end.

(** The state update of [handleSaveEntry]. *)
Definition handleSaveEntry (entry : StoryEntry.t) (prev : list StoryEntry.t)
    : list StoryEntry.t :=
  let exists_ :=
    find (fun e => str_eqb (StoryEntry.id e) (StoryEntry.id entry)) prev in
  match exists_ with
  | Some _ =>
    map (fun e =>
           if str_eqb (StoryEntry.id e) (StoryEntry.id entry)
           then entry else e) prev
  | None => entry :: prev
  end.

(** The state update of [handleDeleteEntry]; [confirmed] is the answer of
    [window.confirm]. *)
Definition handleDeleteEntry (confirmed : bool) (id : jsstring)
    (prev : list StoryEntry.t) : list StoryEntry.t :=
  if confirmed
  then filter (fun entry => negb (str_eqb (StoryEntry.id entry) id)) prev
  else prev.

(** The test of [find] and of [map] in [handleSaveEntry]. *)
Definition same_id (entry e : StoryEntry.t) : bool :=
  str_eqb (StoryEntry.id e) (StoryEntry.id entry).

(** The list of entries of the component together with the copy that the
    two effects keep under the key [fairyTaleEntries] of the local storage
    ([None]: nothing stored yet).  The serialization of a list and the
    parsing of what was serialized are taken to give back the list. *)
Record store : Type := {
  entries : list StoryEntry.t;
  fairyTaleEntries : option (list StoryEntry.t)
}.

(** What happens to the store: the component is mounted (the list starts
    empty and the stored copy, when there is one, is loaded), the list is
    written to the local storage, an entry is saved, an entry is deleted. *)
Inductive action : Type :=
| Mount
| Persist
| SaveEntry (entry : StoryEntry.t)
| DeleteEntry (confirmed : bool) (id : jsstring).

Definition step (a : action) (s : store) : store :=
  match a with
  | Mount =>
    {| entries := match fairyTaleEntries s with
                  | Some savedEntries => savedEntries
                  | None => []
                  end;
       fairyTaleEntries := fairyTaleEntries s |}
  | Persist =>
    {| entries := entries s; fairyTaleEntries := Some (entries s) |}
  | SaveEntry entry =>
    {| entries := handleSaveEntry entry (entries s);
       fairyTaleEntries := fairyTaleEntries s |}
  | DeleteEntry confirmed id =>
    {| entries := handleDeleteEntry confirmed id (entries s);
       fairyTaleEntries := fairyTaleEntries s |}
  end.

Definition initial : store := {| entries := []; fairyTaleEntries := None |}.

Inductive reachable : store -> Prop :=
| reachable_init : reachable initial
| reachable_step : forall a s, reachable s -> reachable (step a s).

(** The invariant of the store: a property of the list that the stored
    copy has as well. *)
Definition store_inv (P : list StoryEntry.t -> Prop) (s : store) : Prop :=
  P (entries s) /\ forall l, fairyTaleEntries s = Some l -> P l.

Definition ids (entries : list StoryEntry.t) : list jsstring :=
  map StoryEntry.id entries.

End App.

(* ================================================================== *)
(** * The workspace editor (StoryWorkspace.tsx) *)
(* ================================================================== *)

Module StoryWorkspace.

(** The state and the properties of the component that [getCurrentEntry]
    reads. *)
Record state : Type := {
  title : jsstring;
  summary : jsstring;
  favoriteScene : jsstring;
  thoughts : jsstring;
  generatedImage : option jsstring;
  loadedId : option jsstring;
  loadedVideoUrl : jsstring;
  loadedVideoId : jsstring;
  fontFamily : FontFamily.t;
  fontSize : FontSize.t;
  drawingLevel : DrawingLevel.t;
  writingGrade : WritingGrade.t
}.

(** The string literals of [getCurrentEntry], as the source file holds
    them. *)
Definition sceneCaption : jsstring := js "AIê°€ ì¤„ê±°ë¦¬ë¥¼ ë°”íƒ•ìœ¼ë¡œ ìƒìƒí•˜ì—¬ ê·¸ë¦° ì¥ë©´ì…ë‹ˆë‹¤.".
Definition titlePlaceholder : jsstring := js "ì œëª© ì—†ìŒ".
Definition summaryPlaceholder : jsstring := js "ì¤„ê±°ë¦¬ ì—†ìŒ".
Definition textPlaceholder : jsstring := js "ë‚´ìš© ì—†ìŒ".

(** [generatedImage || undefined]. *)
Definition or_undefined (o : option jsstring) : option jsstring :=
  if truthy_opt o then o else None.

(** [generateId] belongs to the utilities module and [Date.now] to the
    platform: the identifier and the time they return are arguments. *)
Definition getCurrentEntry (w : state) (generateId : jsstring) (now : Z)
    : StoryEntry.t :=
  let finalSceneText := favoriteScene w in
  let finalSceneText :=
    if negb (truthy finalSceneText) && truthy_opt (generatedImage w)
    then sceneCaption
    else finalSceneText in
  {| StoryEntry.id := opt_or_else (loadedId w) generateId;
     StoryEntry.videoUrl := loadedVideoUrl w;
     StoryEntry.videoId := loadedVideoId w;
     StoryEntry.title := or_else (title w) titlePlaceholder;
     StoryEntry.summary := or_else (summary w) summaryPlaceholder;
     StoryEntry.favoriteScene := or_else finalSceneText textPlaceholder;
     StoryEntry.thoughts := or_else (thoughts w) textPlaceholder;
     StoryEntry.generatedImageUrl := or_undefined (generatedImage w);
     StoryEntry.styleConfig :=
       Some {| StoryStyleConfig.fontFamily := fontFamily w;
               StoryStyleConfig.fontSize := fontSize w;
               StoryStyleConfig.drawingLevel := Some (drawingLevel w);
               StoryStyleConfig.writingGrade := Some (writingGrade w) |};
     StoryEntry.createdAt := now |}.

(** An entry with everything the card shows: four texts that are not
    empty and a style configuration with its four components. *)
Definition complete (e : StoryEntry.t) : Prop :=
  truthy (StoryEntry.title e) = true
  /\ truthy (StoryEntry.summary e) = true
  /\ truthy (StoryEntry.favoriteScene e) = true
  /\ truthy (StoryEntry.thoughts e) = true
  /\ exists cfg level grade,
       StoryEntry.styleConfig e = Some cfg
       /\ StoryStyleConfig.drawingLevel cfg = Some level
       /\ StoryStyleConfig.writingGrade cfg = Some grade.

(** The save at the end of [handleDownloadImage]: reached when the card
    was rendered to a canvas, skipped when that failed. *)
Definition handleDownloadImage (canvasOk : bool) (w : state)
    (generateId : jsstring) (now : Z) (entries : list StoryEntry.t)
    : list StoryEntry.t :=
  if canvasOk
  then App.handleSaveEntry (getCurrentEntry w generateId now) entries
  else entries.

(** The stores the application reaches: the only caller of the save
    handler is [handleDownloadImage]. *)
Inductive app_action : Type :=
| AppMount
| AppPersist
| AppDownload (canvasOk : bool) (w : state) (generateId : jsstring) (now : Z)
| AppDelete (confirmed : bool) (id : jsstring).

Definition app_step (a : app_action) (s : App.store) : App.store :=
  match a with
  | AppMount => App.step App.Mount s
  | AppPersist => App.step App.Persist s
  | AppDownload canvasOk w generateId now =>
    {| App.entries :=
         handleDownloadImage canvasOk w generateId now (App.entries s);
       App.fairyTaleEntries := App.fairyTaleEntries s |}
  | AppDelete confirmed id => App.step (App.DeleteEntry confirmed id) s
  end.

Inductive app_reachable : App.store -> Prop :=
| app_init : app_reachable App.initial
| app_next : forall a s, app_reachable s -> app_reachable (app_step a s).

End StoryWorkspace.

(* ================================================================== *)
(** * The story card (StoryCard.tsx) *)
(* ================================================================== *)

Module StoryCard.

(** The fonts of a card: [entry.styleConfig?.fontFamily || 'basic'] and
    [entry.styleConfig?.fontSize || 'medium'], the default values for an
    entry whose style configuration is missing. *)
Definition fontFamily (entry : StoryEntry.t) : FontFamily.t :=
  match StoryEntry.styleConfig entry with
  | Some c => StoryStyleConfig.fontFamily c
  | None => FontFamily.basic
  end.

Definition fontSize (entry : StoryEntry.t) : FontSize.t :=
  match StoryEntry.styleConfig entry with
  | Some c => StoryStyleConfig.fontSize c
  | None => FontSize.medium
  end.

End StoryCard.

(* ================================================================== *)
(** * The parsing step in the words of the specification *)
(* ================================================================== *)

(** Ordered extraction by label, written without regular expressions: the
    text that follows the first occurrence of a label, up to the next label
    or the end of the text.  It is compared with [parseResponse] below. *)
Module ParserSpec.

(** What follows the first occurrence of [label] in [s]. *)
Fixpoint after_first (label s : jsstring) : option jsstring :=
  match strip_prefix label s with
  | Some r => Some r
  | None =>
    match s with
    | [] => None
    | _ :: s' => after_first label s'
    end
  end.

(** What precedes the first occurrence of [label] in [s]; all of [s] when
    there is none. *)
Fixpoint before_first (label s : jsstring) : jsstring :=
  match strip_prefix label s with
  | Some _ => []
  | None =>
    match s with
    | [] => []
    | x :: s' => x :: before_first label s'
    end
  end.

Definition titleLabel : jsstring := js "제목:".
Definition summaryLabel : jsstring := js "줄거리:".
Definition sceneLabel : jsstring := js "장면:".
Definition thoughtsLabel : jsstring := js "느낀점:".

(** A body field: after the label and the white space that follows it, up
    to the label [next] (to the end of the text when [next] is [None] or
    does not occur), trimmed; empty when the label does not occur. *)
Definition body_field (label : jsstring) (next : option jsstring)
    (text : jsstring) : jsstring :=
  match after_first label text with
  | None => []
  | Some r =>
    let v := drop_while is_space r in
    trim (match next with
          | Some n => before_first n v
          | None => v
          end)
  end.

(** The title pattern is found when the first title label is followed by
    at least one character that is not a line terminator. *)
Definition title_found (text : jsstring) : bool :=
  match after_first titleLabel text with
  | Some r => existsb is_dot r
  | None => false
  end.

(** The title: after the label and the white space that follows it, up to
    the end of the line, trimmed. *)
Definition title_field (text : jsstring) : jsstring :=
  match after_first titleLabel text with
  | Some r => trim (take_while is_dot (drop_while is_space r))
  | None => []
  end.

Definition parse_spec (text : jsstring) (manualTitle : option jsstring)
    : YouTubeAnalysisResult.t :=
  let title :=
    if title_found text then title_field text
    else opt_or_else manualTitle [] in
  let summary := body_field summaryLabel (Some sceneLabel) text in
  let summary :=
    if truthy summary then summary
    else if negb (title_found text) && (10 <? length text)%nat then text
    else [] in
  {| YouTubeAnalysisResult.title :=
       if truthy title then title else titleFallback;
     YouTubeAnalysisResult.summary :=
       if truthy summary then summary else summaryFallback;
     YouTubeAnalysisResult.recommendedScene :=
       body_field sceneLabel (Some thoughtsLabel) text;
     YouTubeAnalysisResult.recommendedThoughts :=
       body_field thoughtsLabel None text |}.

(** The lookahead [(?=next|$)] of the summary and scene patterns. *)
Definition at_boundary (next s : jsstring) : bool :=
  match strip_prefix next s with
  | Some _ => true
  | None => match s with [] => true | _ :: _ => false end
  end.

(** A text that does not start with white space. *)
Definition starts_clean (s : jsstring) : Prop :=
  match s with x :: _ => is_space x = false | [] => True end.

End ParserSpec.

(* ================================================================== *)
(** * Sample data *)
(* ================================================================== *)

Module Samples.
Import StoryWorkspace.

(** An entry as the record type admits it: no image, no style
    configuration. *)
Definition sample_entry (id title : string) : StoryEntry.t :=
  {| StoryEntry.id := js id;
     StoryEntry.videoUrl := js "https://youtu.be/abc";
     StoryEntry.videoId := js "abc";
     StoryEntry.title := js title;
     StoryEntry.summary := js "summary";
     StoryEntry.favoriteScene := js "scene";
     StoryEntry.thoughts := js "thoughts";
     StoryEntry.generatedImageUrl := None;
     StoryEntry.styleConfig := None;
     StoryEntry.createdAt := 0%Z |}.

(** An endpoint that is out of service. *)
Definition failing_env : Env :=
  {| API_KEY := Some (js "key");
     generateContent := fun _ => Rejected (Error (js "503 UNAVAILABLE"));
     extractYouTubeId := fun _ => Some (js "dQw4w9WgXcQ") |}.

(** An endpoint that answers without any candidate. *)
Definition empty_response_env : Env :=
  {| API_KEY := Some (js "key");
     generateContent :=
       fun _ => Resolved {| candidates := Some []; text := None |};
     extractYouTubeId := fun _ => Some (js "dQw4w9WgXcQ") |}.

(** A workspace with nothing typed and nothing drawn. *)
Definition blank_workspace : state :=
  {| title := []; summary := []; favoriteScene := []; thoughts := [];
     generatedImage := None; loadedId := None;
     loadedVideoUrl := js "https://youtu.be/abc"; loadedVideoId := js "abc";
     fontFamily := FontFamily.hand; fontSize := FontSize.large;
     drawingLevel := DrawingLevel.high; writingGrade := 3%Z |}.

(** A workspace with an image and no scene text. *)
Definition illustrated_workspace : state :=
  {| title := js "Three pigs"; summary := js "Three pigs build houses.";
     favoriteScene := []; thoughts := js "Bricks are best.";
     generatedImage := Some (js "data:image/png;base64,QUJD");
     loadedId := None;
     loadedVideoUrl := js "https://youtu.be/abc"; loadedVideoId := js "abc";
     fontFamily := FontFamily.cute; fontSize := FontSize.small;
     drawingLevel := DrawingLevel.low; writingGrade := 1%Z |}.

End Samples.
Import Samples.

(* ================================================================== *)
(** * The font and size classes of the editor and of the card *)
(* ================================================================== *)

(** [Record<string, Record<FontSize, string>>]: the rows of a size table
    under their keys. *)
Module SizeTable.

Definition t : Type := list (jsstring * (FontSize.t -> jsstring)).

(** [table[key]]: [None] for a key the table does not have. *)
Fixpoint row (key : jsstring) (table : t) : option (FontSize.t -> jsstring) :=
  match table with
  | [] => None
  | (k, r) :: table' => if str_eqb k key then Some r else row key table'
  end.

(** [table[key]?.[fontSize]]. *)
Definition cell (key : jsstring) (fontSize : FontSize.t) (table : t)
    : option jsstring :=
  match row key table with
  | Some r => Some (r fontSize)
  | None => None
  end.

End SizeTable.

(** The helpers of StoryWorkspace.tsx that style the text areas. *)
Module WorkspaceClasses.

Definition getHeaderFontClass (fontFamily : FontFamily.t) : jsstring :=
  match fontFamily with
  | FontFamily.cute => js "font-['Jua']"
  | FontFamily.hand => js "font-['Nanum_Pen_Script']"
  | FontFamily.dongle => js "font-['Dongle']"
  | FontFamily.gamja => js "font-['Gamja_Flower']"
  | FontFamily.poor => js "font-['Poor_Story']"
  | _ => js "font-handwritten"
  end.

Definition getBodyFontClass (fontFamily : FontFamily.t) : jsstring :=
  match fontFamily with
  | FontFamily.cute => js "font-['Jua']"
  | FontFamily.hand => js "font-['Nanum_Pen_Script']"
  | FontFamily.dongle => js "font-['Dongle']"
  | FontFamily.gamja => js "font-['Gamja_Flower']"
  | FontFamily.poor => js "font-['Poor_Story']"
  | _ => js "font-sans"
  end.



Definition sizeMap : SizeTable.t :=
  [
    (js "sm",
     fun fontSize =>
     match fontSize with
     | FontSize.x_small => js "text-[10px]"
     | FontSize.small => js "text-xs"
     | FontSize.medium => js "text-sm"
     | FontSize.large => js "text-base"
     | FontSize.x_large => js "text-lg"
     end);
    (js "base",
     fun fontSize =>
     match fontSize with
     | FontSize.x_small => js "text-xs"
     | FontSize.small => js "text-sm"
     | FontSize.medium => js "text-base"
     | FontSize.large => js "text-lg"
     | FontSize.x_large => js "text-xl"
     end);
    (js "lg",
     fun fontSize =>
     match fontSize with
     | FontSize.x_small => js "text-sm"
     | FontSize.small => js "text-base"
     | FontSize.medium => js "text-lg"
     | FontSize.large => js "text-xl"
     | FontSize.x_large => js "text-2xl"
     end);
    (js "xl",
     fun fontSize =>
     match fontSize with
     | FontSize.x_small => js "text-base"
     | FontSize.small => js "text-lg"
     | FontSize.medium => js "text-xl"
     | FontSize.large => js "text-2xl"
     | FontSize.x_large => js "text-3xl"
     end);
    (js "2xl",
     fun fontSize =>
     match fontSize with
     | FontSize.x_small => js "text-lg"
     | FontSize.small => js "text-xl"
     | FontSize.medium => js "text-2xl"
     | FontSize.large => js "text-3xl"
     | FontSize.x_large => js "text-4xl"
     end);
    (js "3xl",
     fun fontSize =>
     match fontSize with
     | FontSize.x_small => js "text-xl"
     | FontSize.small => js "text-2xl"
     | FontSize.medium => js "text-3xl"
     | FontSize.large => js "text-4xl"
     | FontSize.x_large => js "text-5xl"
     end);
    (js "4xl",
     fun fontSize =>
     match fontSize with
     | FontSize.x_small => js "text-2xl"
     | FontSize.small => js "text-3xl"
     | FontSize.medium => js "text-4xl"
     | FontSize.large => js "text-5xl"
     | FontSize.x_large => js "text-6xl"
     end)
  ].


End WorkspaceClasses.

(** The helpers of the story card; its fonts are [StoryCard.fontFamily]
    and [StoryCard.fontSize] of the entry. *)
Module CardClasses.

Definition getHeaderFontClass (fontFamily : FontFamily.t) : jsstring :=
  match fontFamily with
  | FontFamily.cute => js "font-['Jua']"
  | FontFamily.hand => js "font-['Nanum_Pen_Script']"
  | FontFamily.dongle => js "font-['Dongle']"
  | FontFamily.gamja => js "font-['Gamja_Flower']"
  | FontFamily.poor => js "font-['Poor_Story']"
  | _ => js "font-handwritten"
  end.

Definition getBodyFontClass (fontFamily : FontFamily.t) : jsstring :=
  match fontFamily with
  | FontFamily.cute => js "font-['Jua']"
  | FontFamily.hand => js "font-['Nanum_Pen_Script']"
  | FontFamily.dongle => js "font-['Dongle']"
  | FontFamily.gamja => js "font-['Gamja_Flower']"
  | FontFamily.poor => js "font-['Poor_Story']"
  | _ => js "font-sans"
  end.

Definition sizeMap : SizeTable.t :=
  [
    (js "text-xs",
     fun fontSize =>
     match fontSize with
     | FontSize.x_small => js "text-[8px]"
     | FontSize.small => js "text-[10px]"
     | FontSize.medium => js "text-xs"
     | FontSize.large => js "text-sm"
     | FontSize.x_large => js "text-base"
     end);
    (js "text-sm",
     fun fontSize =>
     match fontSize with
     | FontSize.x_small => js "text-[10px]"
     | FontSize.small => js "text-xs"
     | FontSize.medium => js "text-sm"
     | FontSize.large => js "text-base"
     | FontSize.x_large => js "text-lg"
     end);
    (js "text-base",
     fun fontSize =>
     match fontSize with
     | FontSize.x_small => js "text-xs"
     | FontSize.small => js "text-sm"
     | FontSize.medium => js "text-base"
     | FontSize.large => js "text-lg"
     | FontSize.x_large => js "text-xl"
     end);
    (js "text-lg",
     fun fontSize =>
     match fontSize with
     | FontSize.x_small => js "text-sm"
     | FontSize.small => js "text-base"
     | FontSize.medium => js "text-lg"
     | FontSize.large => js "text-xl"
     | FontSize.x_large => js "text-2xl"
     end);
    (js "text-xl",
     fun fontSize =>
     match fontSize with
     | FontSize.x_small => js "text-base"
     | FontSize.small => js "text-lg"
     | FontSize.medium => js "text-xl"
     | FontSize.large => js "text-2xl"
     | FontSize.x_large => js "text-3xl"
     end);
    (js "text-2xl",
     fun fontSize =>
     match fontSize with
     | FontSize.x_small => js "text-lg"
     | FontSize.small => js "text-xl"
     | FontSize.medium => js "text-2xl"
     | FontSize.large => js "text-3xl"
     | FontSize.x_large => js "text-4xl"
     end);
    (js "text-3xl",
     fun fontSize =>
     match fontSize with
     | FontSize.x_small => js "text-xl"
     | FontSize.small => js "text-2xl"
     | FontSize.medium => js "text-3xl"
     | FontSize.large => js "text-4xl"
     | FontSize.x_large => js "text-5xl"
     end);
    (js "text-4xl",
     fun fontSize =>
     match fontSize with
     | FontSize.x_small => js "text-2xl"
     | FontSize.small => js "text-3xl"
     | FontSize.medium => js "text-4xl"
     | FontSize.large => js "text-5xl"
     | FontSize.x_large => js "text-6xl"
     end)
  ].

Definition getSizeClass (fontSize : FontSize.t) (baseClass : jsstring)
    : jsstring :=
  opt_or_else (SizeTable.cell baseClass fontSize sizeMap) baseClass.

(** The size of the icons: [fontSize === 'x-large' ? 28 :
    (fontSize === 'large' ? 24 : 20)]. *)
Definition iconSize (fontSize : FontSize.t) : Z :=
  if FontSize.eqb fontSize FontSize.x_large then 28%Z
  else if FontSize.eqb fontSize FontSize.large then 24%Z
  else 20%Z.

End CardClasses.

(** The places where the editor (StoryWorkspace.tsx, lines 356 to 497) and
    the card (lines 277 to 367 of the card) style a text: which font
    helper and which base size each of them passes. *)
Module Styling.

Inductive element : Type :=
| Heading | DateChip | TitleText | VideoLink
| SceneHeading | SceneText | SummaryHeading | SummaryText
| ThoughtsHeading | ThoughtsText.

Definition elements : list element :=
  [Heading; DateChip; TitleText; VideoLink; SceneHeading; SceneText;
   SummaryHeading; SummaryText; ThoughtsHeading; ThoughtsText].






End Styling.

(* ================================================================== *)
(** * The form: labels, search and analysis (StoryForm.tsx) *)
(* ================================================================== *)

Module FormLabels.

Definition getFontFamilyName (fontFamily : FontFamily.t) : jsstring :=
  match fontFamily with
  | FontFamily.basic => js "기본"
  | FontFamily.cute => js "주아"
  | FontFamily.hand => js "손글씨"
  | FontFamily.dongle => js "동글"
  | FontFamily.gamja => js "감자꽃"
  | FontFamily.poor => js "서툰"
  end.

Definition getFontSizeName (fontSize : FontSize.t) : jsstring :=
  match fontSize with
  | FontSize.x_small => js "아주 작게"
  | FontSize.small => js "작게"
  | FontSize.medium => js "보통"
  | FontSize.large => js "크게"
  | FontSize.x_large => js "아주 크게"
  end.

Definition getDrawingLevelName (drawingLevel : DrawingLevel.t) : jsstring :=
  match drawingLevel with
  | DrawingLevel.low => js "그림: 하"
  | DrawingLevel.medium => js "그림: 중"
  | DrawingLevel.high => js "그림: 상"
  end.

Definition getWritingGradeName (writingGrade : WritingGrade.t) : jsstring :=
  of_Z writingGrade ++ js "학년".

End FormLabels.

Module FormActions.

(** The state of the form that the two handlers read and write. *)
Record form : Type := {
  url : jsstring;
  searchQuery : jsstring;
  summaryLength : Z;
  thoughtsLength : Z;
  isAnalyzing : bool;
  error : option jsstring
}.

Definition enterLinkError : jsstring := js "유튜브 링크를 입력해주세요!".
Definition badLinkError : jsstring := js "올바른 유튜브 링크가 아니에요.".

(** [(err as Error).message]; the text of a [TypeError] is chosen by the
    engine. *)
Definition message (engineText : jsstring) (e : exn) : jsstring :=
  match e with
  | Error m => m
  | TypeError => engineText
  end.

(** What [onAnalyzeComplete] is called with. *)
Record completion : Type := {
  doneVideoId : jsstring;
  doneUrl : jsstring;
  doneResult : YouTubeAnalysisResult.t
}.

(** [handleAnalyze], from the click to the end of the [finally] block: the
    form afterwards, and the call of [onAnalyzeComplete] if there was
    one. *)
Definition handleAnalyze (env : Env) (engineText : jsstring)
    (writingGrade : WritingGrade.t) (f : form) : form * option completion :=
  if negb (truthy (url f)) then
    ({| url := url f; searchQuery := searchQuery f;
        summaryLength := summaryLength f; thoughtsLength := thoughtsLength f;
        isAnalyzing := isAnalyzing f; error := Some enterLinkError |}, None)
  else
    let videoId := extractYouTubeId env (url f) in
    if negb (truthy_opt videoId) then
      ({| url := url f; searchQuery := searchQuery f;
          summaryLength := summaryLength f;
          thoughtsLength := thoughtsLength f;
          isAnalyzing := isAnalyzing f; error := Some badLinkError |}, None)
    else
      match analyzeStoryLink env (url f) (Some (summaryLength f))
              (Some (thoughtsLength f)) (Some writingGrade) None with
      | Resolved result =>
        ({| url := url f; searchQuery := searchQuery f;
            summaryLength := summaryLength f;
            thoughtsLength := thoughtsLength f;
            isAnalyzing := false; error := None |},
         Some {| doneVideoId := opt_or_else videoId [];
                 doneUrl := url f; doneResult := result |})
      | Rejected err =>
        ({| url := url f; searchQuery := searchQuery f;
            summaryLength := summaryLength f;
            thoughtsLength := thoughtsLength f;
            isAnalyzing := false; error := Some (message engineText err) |},
         None)
      end.

(** [handleSearchYouTube]: the address that is opened in a new tab.
    [encodeURIComponent] is the function of the platform. *)
Definition handleSearchYouTube (encodeURIComponent : jsstring -> jsstring)
    (f : form) : jsstring :=
  let query := trim (searchQuery f) in
  if truthy query
  then js "https://www.youtube.com/results?search_query="
       ++ encodeURIComponent (js "어린이 동화 " ++ query)
  else js "https://www.youtube.com/results?search_query=어린이+동화".

End FormActions.

(* ================================================================== *)
(** * The application state and the life of the workspace *)
(* ================================================================== *)

Module AppFlow.

(** [currentDraft]. *)
Record draft : Type := {
  draftVideoId : jsstring;
  draftUrl : jsstring;
  analysis : YouTubeAnalysisResult.t
}.

(** The state of the application component next to the entries. *)
Record app : Type := {
  currentDraft : option draft;
  fontFamily : FontFamily.t;
  fontSize : FontSize.t;
  drawingLevel : DrawingLevel.t;
  writingGrade : WritingGrade.t;
  isFocusMode : bool
}.

(** The state at the first render. *)
Definition initialApp : app :=
  {| currentDraft := None; fontFamily := FontFamily.basic;
     fontSize := FontSize.medium; drawingLevel := DrawingLevel.low;
     writingGrade := 1%Z; isFocusMode := false |}.

Definition handleAnalysisComplete (videoId url : jsstring)
    (result : YouTubeAnalysisResult.t) (a : app) : app :=
  {| currentDraft := Some {| draftVideoId := videoId; draftUrl := url;
                             analysis := result |};
     fontFamily := FontFamily.basic;
     fontSize := FontSize.medium;
     drawingLevel := DrawingLevel.low;
     writingGrade := writingGrade a;
     isFocusMode := isFocusMode a |}.

Definition toggleFocusMode (a : app) : app :=
  {| currentDraft := currentDraft a; fontFamily := fontFamily a;
     fontSize := fontSize a; drawingLevel := drawingLevel a;
     writingGrade := writingGrade a; isFocusMode := negb (isFocusMode a) |}.

End AppFlow.

Module WorkspaceSession.
Import StoryWorkspace.

(** The workspace: the state that [getCurrentEntry] reads, the error line
    and the preview switch. *)
Record view : Type := {
  fields : state;
  error : option jsstring;
  isPreviewMode : bool
}.

(** The state of the component at its first render, under the properties
    the application hands down. *)
Definition mounted (a : AppFlow.app) : view :=
  {| fields :=
       {| title := []; summary := []; favoriteScene := []; thoughts := [];
          generatedImage := None; loadedId := None;
          loadedVideoUrl := []; loadedVideoId := [];
          fontFamily := AppFlow.fontFamily a;
          fontSize := AppFlow.fontSize a;
          drawingLevel := AppFlow.drawingLevel a;
          writingGrade := AppFlow.writingGrade a |};
     error := None; isPreviewMode := false |}.

(** The effect on [initialData]: a new draft resets the workspace. *)
Definition loadDraft (initialData : option AppFlow.draft) (v : view) : view :=
  match initialData with
  | Some d =>
    {| fields :=
         {| title := YouTubeAnalysisResult.title (AppFlow.analysis d);
            summary := YouTubeAnalysisResult.summary (AppFlow.analysis d);
            favoriteScene :=
              YouTubeAnalysisResult.recommendedScene (AppFlow.analysis d);
            thoughts :=
              YouTubeAnalysisResult.recommendedThoughts (AppFlow.analysis d);
            generatedImage := None;
            loadedId := None;
            loadedVideoUrl := AppFlow.draftUrl d;
            loadedVideoId := AppFlow.draftVideoId d;
            fontFamily := fontFamily (fields v);
            fontSize := fontSize (fields v);
            drawingLevel := drawingLevel (fields v);
            writingGrade := writingGrade (fields v) |};
       error := None; isPreviewMode := false |}
  | None => v
  end.

(** A new render with the style properties of the application. *)
Definition withProps (a : AppFlow.app) (v : view) : view :=
  {| fields :=
       {| title := title (fields v); summary := summary (fields v);
          favoriteScene := favoriteScene (fields v);
          thoughts := thoughts (fields v);
          generatedImage := generatedImage (fields v);
          loadedId := loadedId (fields v);
          loadedVideoUrl := loadedVideoUrl (fields v);
          loadedVideoId := loadedVideoId (fields v);
          fontFamily := AppFlow.fontFamily a;
          fontSize := AppFlow.fontSize a;
          drawingLevel := AppFlow.drawingLevel a;
          writingGrade := AppFlow.writingGrade a |};
     error := error v; isPreviewMode := isPreviewMode v |}.

Definition setImage (img : option jsstring) (err : option jsstring)
    (v : view) : view :=
  {| fields :=
       {| title := title (fields v); summary := summary (fields v);
          favoriteScene := favoriteScene (fields v);
          thoughts := thoughts (fields v);
          generatedImage := img;
          loadedId := loadedId (fields v);
          loadedVideoUrl := loadedVideoUrl (fields v);
          loadedVideoId := loadedVideoId (fields v);
          fontFamily := fontFamily (fields v);
          fontSize := fontSize (fields v);
          drawingLevel := drawingLevel (fields v);
          writingGrade := writingGrade (fields v) |};
     error := err; isPreviewMode := isPreviewMode v |}.

(** The four text inputs. *)
Inductive input : Type := TitleInput | SceneInput | SummaryInput | ThoughtsInput.

Definition setText (i : input) (s : jsstring) (v : view) : view :=
  let w := fields v in
  {| fields :=
       {| title := match i with TitleInput => s | _ => title w end;
          summary := match i with SummaryInput => s | _ => summary w end;
          favoriteScene :=
            match i with SceneInput => s | _ => favoriteScene w end;
          thoughts := match i with ThoughtsInput => s | _ => thoughts w end;
          generatedImage := generatedImage w;
          loadedId := loadedId w;
          loadedVideoUrl := loadedVideoUrl w;
          loadedVideoId := loadedVideoId w;
          fontFamily := fontFamily w;
          fontSize := fontSize w;
          drawingLevel := drawingLevel w;
          writingGrade := writingGrade w |};
     error := error v; isPreviewMode := isPreviewMode v |}.

(** The literal of the guard of [handleDrawScene], as the source file
    holds it. *)
Definition nothingToDrawError : jsstring := js "ì¥ë©´ì„ ì„¤ëª…í•˜ê±°ë‚˜ ë‚´ìš©ì´ ìˆì–´ì•¼ ê·¸ë¦¼ì„ ê·¸ë¦´ ìˆ˜ ìˆì–´ìš”!".

(** [handleDrawScene], from the click to the end of the [finally] block,
    with the texts and the drawing level of the render of the click. *)
Definition handleDrawScene (env : Env) (engineText : jsstring) (v : view)
    : view :=
  let w := fields v in
  if negb (truthy (favoriteScene w)) && negb (truthy (summary w)) then
    {| fields := w; error := Some nothingToDrawError;
       isPreviewMode := isPreviewMode v |}
  else
    match generateSceneImage env (favoriteScene w) (title w) (summary w)
            (Some (drawingLevel w)) with
    | Resolved imageBase64 => setImage (Some imageBase64) None v
    | Rejected err =>
      setImage (generatedImage w)
        (Some (FormActions.message engineText err)) v
    end.

(** What happens in the workspace between two saves.  [ShowError] is the
    error line as [handlePlaySummary] and [handleDownloadImage] write it;
    what else they do (the audio, the file that is downloaded) is not part
    of this state. *)
Inductive event : Type :=
| NewDraft (d : AppFlow.draft)
| Render (a : AppFlow.app)
| Type_ (i : input) (s : jsstring)
| ClearImage
| DrawScene (env : Env) (engineText : jsstring)
| SetPreview (on : bool)
| ShowError (err : option jsstring).

Definition handle (e : event) (v : view) : view :=
  match e with
  | NewDraft d => loadDraft (Some d) v
  | Render a => withProps a v
  | Type_ i s => setText i s v
  | ClearImage => setImage None (error v) v
  | DrawScene env engineText => handleDrawScene env engineText v
  | SetPreview on =>
    {| fields := fields v; error := error v; isPreviewMode := on |}
  | ShowError err =>
    {| fields := fields v; error := err; isPreviewMode := isPreviewMode v |}
  end.

Inductive reachable : view -> Prop :=
| reachable_mounted : forall a, reachable (mounted a)
| reachable_event : forall e v, reachable v -> reachable (handle e v).

End WorkspaceSession.

(* ================================================================== *)
(** * More sample data *)
(* ================================================================== *)

Module Scenarios.

(** A response that follows the format of the prompt. *)
Definition good_text : jsstring :=
  js "제목: 아기 돼지 삼형제
줄거리: 돼지 삼형제가 집을 지었어요.
장면: 벽돌집 앞의 늑대
느낀점: 튼튼한 집이 좋아요.".

(** An endpoint that answers every request with [good_text], an image
    part and no media type. *)
Definition answering_env : Env :=
  {| API_KEY := Some (js "key");
     generateContent :=
       fun _ =>
         Resolved
           {| candidates :=
                Some [ {| content := Some {| parts := Some
                  [ {| inlineData := None |};
                    {| inlineData :=
                         Some {| data := Some (js "QUJD");
                                 mimeType := None |} |} ] |} |} ];
              text := Some good_text |};
     extractYouTubeId := fun _ => Some (js "dQw4w9WgXcQ") |}.

(** An endpoint whose first part carries audio. *)
Definition speaking_env : Env :=
  {| API_KEY := Some (js "key");
     generateContent :=
       fun _ =>
         Resolved
           {| candidates :=
                Some [ {| content := Some {| parts := Some
                  [ {| inlineData :=
                         Some {| data := Some (js "UklGRg==");
                                 mimeType := Some (js "audio/wav") |} |} ]
                  |} |} ];
              text := None |};
     extractYouTubeId := fun _ => None |}.

Definition empty_form : FormActions.form :=
  {| FormActions.url := []; FormActions.searchQuery := js "  ";
     FormActions.summaryLength := 2%Z; FormActions.thoughtsLength := 2%Z;
     FormActions.isAnalyzing := false; FormActions.error := None |}.

Definition linked_form : FormActions.form :=
  {| FormActions.url := js "https://youtu.be/dQw4w9WgXcQ";
     FormActions.searchQuery := js " 아기 돼지 ";
     FormActions.summaryLength := 3%Z; FormActions.thoughtsLength := 2%Z;
     FormActions.isAnalyzing := false; FormActions.error := None |}.

End Scenarios.
Import Scenarios.

(* ================================================================== *)
(** * Responses that follow the output format of the prompt *)
(* ================================================================== *)

Module ResponseFormat.
Import ParserSpec.

(** What stands around the four fields of a response: a preamble and the
    white space after each label and after each field. *)
Record layout : Type := {
  preamble : jsstring;
  gap1 : jsstring;
  gap2 : jsstring;
  gap3 : jsstring;
  gap4 : jsstring;
  gap5 : jsstring;
  gap6 : jsstring;
  gap7 : jsstring;
  gap8 : jsstring
}.

(** The four fields under their labels, in the order of the prompt. *)
Definition render (l : layout) (r : YouTubeAnalysisResult.t) : jsstring :=
  preamble l
  ++ titleLabel ++ gap1 l ++ YouTubeAnalysisResult.title r ++ gap2 l
  ++ summaryLabel ++ gap3 l ++ YouTubeAnalysisResult.summary r ++ gap4 l
  ++ sceneLabel ++ gap5 l ++ YouTubeAnalysisResult.recommendedScene r
  ++ gap6 l
  ++ thoughtsLabel ++ gap7 l ++ YouTubeAnalysisResult.recommendedThoughts r
  ++ gap8 l.

(** A text without white space at either end. *)
Definition trimmed (s : jsstring) : Prop :=
  starts_clean s /\ starts_clean (rev s).

(** None of the labels occurs in the text. *)
Definition free_of (labels : list jsstring) (s : jsstring) : Prop :=
  forall label, In label labels -> ~ contains label s.

Definition blank (s : jsstring) : Prop := forallb is_space s = true.

(** The gaps are white space, the title line is ended by a line
    terminator, and the preamble names no label. *)
Definition well_spaced (l : layout) : Prop :=
  blank (gap1 l) /\ blank (gap2 l) /\ blank (gap3 l) /\ blank (gap4 l)
  /\ blank (gap5 l) /\ blank (gap6 l) /\ blank (gap7 l) /\ blank (gap8 l)
  /\ match gap2 l with
     | c :: _ => is_line_terminator c = true
     | [] => False
     end
  /\ free_of [titleLabel; summaryLabel; sceneLabel; thoughtsLabel]
       (preamble l).

(** The fields are trimmed, the title is one line, title and summary are
    not empty, and no field names the label of a later field. *)
Definition well_formed (r : YouTubeAnalysisResult.t) : Prop :=
  YouTubeAnalysisResult.title r <> []
  /\ forallb is_dot (YouTubeAnalysisResult.title r) = true
  /\ trimmed (YouTubeAnalysisResult.title r)
  /\ free_of [summaryLabel; sceneLabel; thoughtsLabel]
       (YouTubeAnalysisResult.title r)
  /\ YouTubeAnalysisResult.summary r <> []
  /\ trimmed (YouTubeAnalysisResult.summary r)
  /\ free_of [sceneLabel; thoughtsLabel] (YouTubeAnalysisResult.summary r)
  /\ trimmed (YouTubeAnalysisResult.recommendedScene r)
  /\ free_of [thoughtsLabel] (YouTubeAnalysisResult.recommendedScene r)
  /\ trimmed (YouTubeAnalysisResult.recommendedThoughts r).

(** A response with one field on each line, and its fields. *)
Definition line_gaps : layout :=
  {| preamble := js "알겠습니다." ++ [10]%N;
     gap1 := [32]%N; gap2 := [13; 10]%N;
     gap3 := [32]%N; gap4 := [10; 10]%N;
     gap5 := []; gap6 := [32; 10]%N;
     gap7 := [9]%N; gap8 := [10]%N |}.

Definition three_pigs : YouTubeAnalysisResult.t :=
  {| YouTubeAnalysisResult.title := js "아기 돼지 삼형제";
     YouTubeAnalysisResult.summary :=
       js "돼지 삼형제가 집을 지었어요. 늑대가 찾아왔어요.";
     YouTubeAnalysisResult.recommendedScene := js "늑대가 벽돌집을 불어요.";
     YouTubeAnalysisResult.recommendedThoughts := js "튼튼한 집이 좋아요." |}.

End ResponseFormat.

Module SessionFacts.
Import StoryWorkspace WorkspaceSession.

(** What every state of the workspace satisfies: no loaded identifier, and
    an image, if there is one, that is not the empty string. *)
Definition session_inv (v : view) : Prop :=
  loadedId (fields v) = None
  /\ forall img, generatedImage (fields v) = Some img -> truthy img = true.

End SessionFacts.
Import SessionFacts.

(* ================================================================== *)
(** * src/components/StoryWorkspace.tsx: reading the summary aloud *)
(* ================================================================== *)

Module WorkspaceAudio.

(** The Web Audio calls of [handlePlaySummary] in the order of the code;
    each of them may throw or reject.  [newContext] tells whether the
    state of the new context is ['suspended']; [base64ToArrayBuffer] is
    the function of the utilities; [createSource] stands for
    [createBufferSource] and [connect]. *)
Record Device : Type := {
  closeContext : outcome unit;
  newContext : outcome bool;
  resume : outcome unit;
  base64ToArrayBuffer : jsstring -> outcome unit;
  decodeAudioData : jsstring -> outcome unit;
  createSource : outcome unit;
  start : outcome unit
}.

(** The audio state of the workspace and its error line; of the two refs,
    whether [current] holds an object. *)
Record audio : Type := {
  isSpeakingSummary : bool;
  isGeneratingSummarySpeech : bool;
  error : option jsstring;
  audioContextRef : bool;
  sourceNodeRef : bool
}.

(** The state at the first render. *)
Definition silent : audio :=
  {| isSpeakingSummary := false; isGeneratingSummarySpeech := false;
     error := None; audioContextRef := false; sourceNodeRef := false |}.

Definition stopAudio (a : audio) : audio :=
  {| isSpeakingSummary := false;
     isGeneratingSummarySpeech := isGeneratingSummarySpeech a;
     error := error a; audioContextRef := false; sourceNodeRef := false |}.

(** [source.onended]. *)
Definition onended (a : audio) : audio :=
  {| isSpeakingSummary := false;
     isGeneratingSummarySpeech := isGeneratingSummarySpeech a;
     error := error a; audioContextRef := audioContextRef a;
     sourceNodeRef := false |}.

Definition setError (err : option jsstring) (a : audio) : audio :=
  {| isSpeakingSummary := isSpeakingSummary a;
     isGeneratingSummarySpeech := isGeneratingSummarySpeech a;
     error := err; audioContextRef := audioContextRef a;
     sourceNodeRef := sourceNodeRef a |}.

Definition setIsGeneratingSummarySpeech (b : bool) (a : audio) : audio :=
  {| isSpeakingSummary := isSpeakingSummary a;
     isGeneratingSummarySpeech := b;
     error := error a; audioContextRef := audioContextRef a;
     sourceNodeRef := sourceNodeRef a |}.

Definition setRefs (context source : bool) (a : audio) : audio :=
  {| isSpeakingSummary := isSpeakingSummary a;
     isGeneratingSummarySpeech := isGeneratingSummarySpeech a;
     error := error a; audioContextRef := context; sourceNodeRef := source |}.

Definition setIsSpeakingSummary (b : bool) (a : audio) : audio :=
  {| isSpeakingSummary := b;
     isGeneratingSummarySpeech := isGeneratingSummarySpeech a;
     error := error a; audioContextRef := audioContextRef a;
     sourceNodeRef := sourceNodeRef a |}.

(** The two literals of [handlePlaySummary], as the source file holds
    them. *)
Definition nothingToReadError : jsstring := js "ì½ì–´ì¤„ ì¤„ê±°ë¦¬ ë‚´ìš©ì´ ì—†ì–´ìš”.".
Definition playbackError : jsstring := js "ìŒì„±ì„ ë“¤ë ¤ì£¼ëŠ”ë° ì‹¤íŒ¨í–ˆì–´ìš”. ë‹¤ì‹œ ì‹œë„í•´ì£¼ì„¸ìš”.".

(** Where a call of [handlePlaySummary] is suspended: at none of its
    [await]s, at the one of [generateStorySpeech] (with what the promise
    settles to), of [close], of [resume] or of [decodeAudioData] (with the
    audio that was returned). *)
Inductive pending : Type :=
| Idle
| AwaitSpeech (r : outcome jsstring)
| AwaitClose (base64Audio : jsstring)
| AwaitResume (base64Audio : jsstring)
| AwaitDecode (base64Audio : jsstring).

(** The audio state together with the suspended call. *)
Record player : Type := {
  state : audio;
  awaiting : pending
}.

Definition mounted : player := {| state := silent; awaiting := Idle |}.

(** The [catch] and [finally] blocks, which end the call. *)
Definition caught (a : audio) : player :=
  {| state := setIsGeneratingSummarySpeech false
                (stopAudio (setError (Some playbackError) a));
     awaiting := Idle |}.

(** From [createBufferSource] to the end of the call, once the audio is
    decoded. *)
Definition play (dev : Device) (a : audio) : player :=
  match createSource dev with
  | Rejected _ => caught a
  | Resolved _ =>
    let a := setRefs (audioContextRef a) true a in
    match start dev with
    | Rejected _ => caught a
    | Resolved _ =>
      {| state := setIsGeneratingSummarySpeech false
                    (setIsSpeakingSummary true a);
         awaiting := Idle |}
    end
  end.

(** The call of [decodeAudioData(base64ToArrayBuffer(base64Audio))], up
    to its [await]. *)
Definition decode (dev : Device) (base64Audio : jsstring) (a : audio)
    : player :=
  match base64ToArrayBuffer dev base64Audio with
  | Rejected _ => caught a
  | Resolved _ => {| state := a; awaiting := AwaitDecode base64Audio |}
  end.

(** From [new AudioContext()] up to the next [await]. *)
Definition makeContext (dev : Device) (base64Audio : jsstring) (a : audio)
    : player :=
  match newContext dev with
  | Rejected _ => caught a
  | Resolved suspended =>
    let a := setRefs true (sourceNodeRef a) a in
    if suspended
    then {| state := a; awaiting := AwaitResume base64Audio |}
    else decode dev base64Audio a
  end.

(** The awaited promise settles and the call runs on to its next [await]
    or to its end; the refs are read as they are then. *)
Definition settle (dev : Device) (m : player) : player :=
  let a := state m in
  match awaiting m with
  | Idle => m
  | AwaitSpeech (Rejected _) => caught a
  | AwaitSpeech (Resolved base64Audio) =>
    if audioContextRef a
    then {| state := a; awaiting := AwaitClose base64Audio |}
    else makeContext dev base64Audio a
  | AwaitClose base64Audio =>
    match closeContext dev with
    | Rejected _ => caught a
    | Resolved _ => makeContext dev base64Audio a
    end
  | AwaitResume base64Audio =>
    match resume dev with
    | Rejected _ => caught a
    | Resolved _ => decode dev base64Audio a
    end
  | AwaitDecode base64Audio =>
    match decodeAudioData dev base64Audio with
    | Rejected _ => caught a
    | Resolved _ => play dev a
    end
  end.

(** A click on the button, which is disabled while
    [isGeneratingSummarySpeech] holds: [handlePlaySummary] up to its
    first [await], with the summary of the render of the click. *)
Definition handlePlaySummary (env : Env) (summary : jsstring) (m : player)
    : player :=
  let a := state m in
  if isGeneratingSummarySpeech a then m
  else if isSpeakingSummary a
  then {| state := stopAudio a; awaiting := awaiting m |}
  else if negb (truthy summary)
  then {| state := setError (Some nothingToReadError) a;
          awaiting := awaiting m |}
  else {| state := setError None (setIsGeneratingSummarySpeech true a);
          awaiting := AwaitSpeech (generateStorySpeech env summary) |}.

(** What happens to the audio state: a click on the button, the awaited
    promise of the suspended call settling, [stopAudio] from the effect on
    a new draft, the end of a sound, and the error line written by the
    effect or by another handler.  They come in any order. *)
Inductive event : Type :=
| Click (env : Env) (summary : jsstring)
| Settle (dev : Device)
| Stop
| Ended
| WriteError (err : option jsstring).

Definition handle (e : event) (m : player) : player :=
  match e with
  | Click env summary => handlePlaySummary env summary m
  | Settle dev => settle dev m
  | Stop => {| state := stopAudio (state m); awaiting := awaiting m |}
  | Ended => {| state := onended (state m); awaiting := awaiting m |}
  | WriteError err =>
    {| state := setError err (state m); awaiting := awaiting m |}
  end.

(** The events of a list, the first one first. *)
Definition run (es : list event) (m : player) : player :=
  fold_left (fun m e => handle e m) es m.

Inductive reachable : player -> Prop :=
| reachable_mounted : reachable mounted
| reachable_event : forall e m, reachable m -> reachable (handle e m).

(** How many promises a suspended call may still await. *)
Definition remaining (p : pending) : nat :=
  match p with
  | Idle => 0
  | AwaitDecode _ => 1
  | AwaitResume _ => 2
  | AwaitClose _ => 3
  | AwaitSpeech _ => 4
  end.

Definition is_click (e : event) : bool :=
  match e with Click _ _ => true | _ => false end.

Definition is_settle (e : event) : bool :=
  match e with Settle _ => true | _ => false end.

(** The button is enabled exactly when no call is suspended, nothing is
    read while a call is suspended, and a summary that is being read has
    its source. *)
Definition audio_inv (m : player) : Prop :=
  (awaiting m = Idle <-> isGeneratingSummarySpeech (state m) = false)
  /\ (awaiting m <> Idle -> isSpeakingSummary (state m) = false)
  /\ (isSpeakingSummary (state m) = true -> sourceNodeRef (state m) = true).

(** What a step of a suspended call has touched when the call is still
    suspended after it: at most the context ref. *)
Definition continued (m m' : player) : Prop :=
  awaiting m' <> Idle
  /\ remaining (awaiting m') < remaining (awaiting m)
  /\ isGeneratingSummarySpeech (state m')
     = isGeneratingSummarySpeech (state m)
  /\ isSpeakingSummary (state m') = isSpeakingSummary (state m)
  /\ sourceNodeRef (state m') = sourceNodeRef (state m)
  /\ error (state m') = error (state m).

(** The end of a call that has played the audio. *)
Definition played (dev : Device) (m m' : player) : Prop :=
  exists b,
    awaiting m = AwaitDecode b
    /\ decodeAudioData dev b = Resolved tt
    /\ createSource dev = Resolved tt
    /\ start dev = Resolved tt
    /\ m' = {| state :=
                 {| isSpeakingSummary := true;
                    isGeneratingSummarySpeech := false;
                    error := error (state m);
                    audioContextRef := audioContextRef (state m);
                    sourceNodeRef := true |};
               awaiting := Idle |}.

(** A device on which every call succeeds, and one that cannot decode. *)
Definition working_device : Device :=
  {| closeContext := Resolved tt; newContext := Resolved true;
     resume := Resolved tt; base64ToArrayBuffer := fun _ => Resolved tt;
     decodeAudioData := fun _ => Resolved tt;
     createSource := Resolved tt; start := Resolved tt |}.

Definition deaf_device : Device :=
  {| closeContext := Resolved tt; newContext := Resolved false;
     resume := Resolved tt; base64ToArrayBuffer := fun _ => Resolved tt;
     decodeAudioData := fun _ => Rejected (Error (js "EncodingError"));
     createSource := Resolved tt; start := Resolved tt |}.

End WorkspaceAudio.


(* ================================================================== *)
(** * Facts about strings *)
(* ================================================================== *)

Section StringFacts.

Lemma str_eqb_refl (a : jsstring) : str_eqb a a = true.
Proof.
  induction a as [|x a IH]; simpl; [reflexivity|].
  now rewrite N.eqb_refl, IH.
Qed.

Lemma str_eqb_eq (a b : jsstring) : str_eqb a b = true <-> a = b.
Proof.
  split.
  - revert b; induction a as [|x a IH]; destruct b as [|y b]; simpl;
      try discriminate; [reflexivity|].
    intros H; apply andb_true_iff in H; destruct H as [Hx Hr].
    apply N.eqb_eq in Hx; subst; f_equal; auto.
  - intros ->; apply str_eqb_refl.
Qed.

Lemma str_eqb_neq (a b : jsstring) : str_eqb a b = false <-> a <> b.
Proof.
  split.
  - intros H E; apply str_eqb_eq in E; congruence.
  - intros H; destruct (str_eqb a b) eqn:E; [|reflexivity].
    apply str_eqb_eq in E; contradiction.
Qed.

Lemma line_terminator_is_space (c : N) :
  is_line_terminator c = true -> is_space c = true.
Proof.
  unfold is_line_terminator, is_space; intros H.
  repeat (apply orb_true_iff in H; destruct H as [H|H]);
    apply N.eqb_eq in H; subst; reflexivity.
Qed.

Lemma not_space_is_dot (c : N) : is_space c = false -> is_dot c = true.
Proof.
  unfold is_dot; intros H.
  destruct (is_line_terminator c) eqn:E; [|reflexivity].
  apply line_terminator_is_space in E; congruence.
Qed.

Lemma is_any_true (c : N) : is_any c = true.
Proof. unfold is_any; destruct (is_space c); reflexivity. Qed.

Lemma strip_prefix_app (p s : jsstring) : strip_prefix p (p ++ s) = Some s.
Proof.
  induction p as [|x p IH]; simpl; [reflexivity|].
  now rewrite N.eqb_refl.
Qed.

Lemma strip_prefix_some (p s r : jsstring) :
  strip_prefix p s = Some r -> s = p ++ r.
Proof.
  revert s; induction p as [|x p IH]; intros s; simpl.
  - now intros [= ->].
  - destruct s as [|y s]; [discriminate|].
    destruct (x =? y)%N eqn:E; [|discriminate].
    apply N.eqb_eq in E; subst; intros H; f_equal; auto.
Qed.

Lemma drop_while_all (p : N -> bool) (s : jsstring) :
  forallb p s = true -> drop_while p s = [].
Proof.
  induction s as [|x s IH]; simpl; [reflexivity|].
  intros H; apply andb_true_iff in H; destruct H as [-> H]; auto.
Qed.

Lemma drop_while_head (p : N -> bool) (s : jsstring) :
  match drop_while p s with
  | x :: _ => p x = false
  | [] => True
  end.
Proof.
  induction s as [|x s IH]; simpl; [exact I|].
  destruct (p x) eqn:E; [exact IH|exact E].
Qed.

Lemma drop_while_nonempty (p : N -> bool) (s : jsstring) :
  existsb (fun c => negb (p c)) s = true -> drop_while p s <> [].
Proof.
  induction s as [|x s IH]; simpl; [discriminate|].
  destruct (p x) eqn:E; simpl; [exact IH|discriminate].
Qed.

Lemma trim_all_space (s : jsstring) : forallb is_space s = true -> trim s = [].
Proof. intros H; unfold trim; now rewrite (drop_while_all _ _ H). Qed.

Lemma trim_nil : trim [] = [].
Proof. reflexivity. Qed.

(** A string that starts with a character that is not white space keeps
    that character through [trim]. *)
Lemma trim_truthy (s : jsstring) :
  match s with x :: _ => is_space x = false | [] => True end ->
  truthy (trim s) = truthy s.
Proof.
  destruct s as [|x s]; [reflexivity|]; intros Hx.
  assert (Hd : drop_while is_space (x :: s) = x :: s) by (simpl; now rewrite Hx).
  unfold trim; rewrite Hd.
  assert (Hne : drop_while is_space (rev (x :: s)) <> []).
  { apply drop_while_nonempty; apply existsb_exists; exists x; split.
    - apply in_rev; rewrite rev_involutive; left; reflexivity.
    - now rewrite Hx. }
  destruct (drop_while is_space (rev (x :: s))) as [|y l]; [contradiction|].
  simpl; now destruct (rev l).
Qed.

End StringFacts.

(* ================================================================== *)
(** * Facts about the matcher and the four patterns *)
(* ================================================================== *)

Module ParserFacts.
Import ParserSpec.

(** A greedy star followed by something that cannot fail never gives a
    character back. *)
Lemma star_greedy_total (c : N -> bool) (k : cont) (cap : capture) :
  (forall s, k s cap <> None) ->
  forall s, star_greedy c k s cap = k (drop_while c s) cap.
Proof.
  intros Hk; induction s as [|x s IH]; simpl; [reflexivity|].
  destruct (c x); [|reflexivity].
  rewrite IH; destruct (k (drop_while c s) cap) eqn:E; [reflexivity|].
  now apply Hk in E.
Qed.

Lemma run_lookahead (next s : jsstring) (cap : capture) :
  run (Lookahead (Alt (Lit next) EndOfInput)) accept s cap
  = if at_boundary next s then Some cap else None.
Proof.
  unfold at_boundary; simpl.
  destruct (strip_prefix next s); [reflexivity|].
  destruct s; reflexivity.
Qed.

(** The lazy group in front of [(?=next|$)] stops at the first occurrence
    of [next], or at the end of the text. *)
Lemma lazy_until (next : jsstring) (cap : capture) :
  next <> [] ->
  forall s pre,
    star_lazy is_any
      (fun s' _ =>
         run (Lookahead (Alt (Lit next) EndOfInput)) accept s'
           (Some (firstn (length (pre ++ s) - length s') (pre ++ s))))
      s cap
    = Some (Some (pre ++ before_first next s)).
Proof.
  intros Hne; induction s as [|x s IH]; intros pre.
  - cbn [star_lazy]; rewrite run_lookahead.
    unfold at_boundary; destruct next as [|n next]; [contradiction|].
    simpl; rewrite app_nil_r, Nat.sub_0_r, firstn_all; reflexivity.
  - cbn [star_lazy]; rewrite run_lookahead.
    assert (Hpre : firstn (length (pre ++ x :: s) - length (x :: s))
                     (pre ++ x :: s) = pre).
    { rewrite length_app, Nat.add_sub, firstn_app, Nat.sub_diag, firstn_all.
      simpl; apply app_nil_r. }
    unfold at_boundary; simpl before_first.
    destruct (strip_prefix next (x :: s)) eqn:E.
    + now rewrite Hpre, app_nil_r.
    + rewrite is_any_true.
      replace (pre ++ x :: s) with ((pre ++ [x]) ++ s)
        by (rewrite <- app_assoc; reflexivity).
      rewrite IH, <- app_assoc; reflexivity.
Qed.

(** The lazy group in front of [$] runs to the end of the text. *)
Lemma lazy_to_end (cap : capture) :
  forall s pre,
    star_lazy is_any
      (fun s' _ =>
         run EndOfInput accept s'
           (Some (firstn (length (pre ++ s) - length s') (pre ++ s))))
      s cap
    = Some (Some (pre ++ s)).
Proof.
  induction s as [|x s IH]; intros pre.
  - simpl; rewrite app_nil_r, Nat.sub_0_r, firstn_all; reflexivity.
  - cbn [star_lazy run accept]; rewrite is_any_true.
    replace (pre ++ x :: s) with ((pre ++ [x]) ++ s)
      by (rewrite <- app_assoc; reflexivity).
    apply IH.
Qed.

(** What the body patterns do once their label has been read. *)
Lemma run_body_until (next r : jsstring) :
  next <> [] ->
  run (Seq (Star is_space)
         (Seq (Group (LazyStar is_any))
              (Lookahead (Alt (Lit next) EndOfInput)))) accept r None
  = Some (Some (before_first next (drop_while is_space r))).
Proof.
  intros Hne.
  assert (Hk : forall s,
    run (Seq (Group (LazyStar is_any))
             (Lookahead (Alt (Lit next) EndOfInput))) accept s None
    = Some (Some (before_first next s))).
  { intros s; exact (lazy_until None Hne s []). }
  change (star_greedy is_space
            (run (Seq (Group (LazyStar is_any))
                      (Lookahead (Alt (Lit next) EndOfInput))) accept) r None
          = Some (Some (before_first next (drop_while is_space r)))).
  rewrite star_greedy_total; [apply Hk|].
  intros s; rewrite Hk; discriminate.
Qed.

Lemma run_body_to_end (r : jsstring) :
  run (Seq (Star is_space) (Seq (Group (LazyStar is_any)) EndOfInput))
      accept r None
  = Some (Some (drop_while is_space r)).
Proof.
  assert (Hk : forall s,
    run (Seq (Group (LazyStar is_any)) EndOfInput) accept s None
    = Some (Some s)).
  { intros s; exact (lazy_to_end None s []). }
  change (star_greedy is_space
            (run (Seq (Group (LazyStar is_any)) EndOfInput) accept) r None
          = Some (Some (drop_while is_space r))).
  rewrite star_greedy_total; [apply Hk|].
  intros s; rewrite Hk; discriminate.
Qed.

(** A pattern that starts with a label and cannot fail after it matches at
    the first occurrence of the label. *)
Lemma js_match_label (label : jsstring) (rest : regex)
    (f : jsstring -> capture) :
  (forall r, run rest accept r None = Some (f r)) ->
  forall s,
    js_match (Seq (Lit label) rest) s = option_map f (after_first label s).
Proof.
  intros Hrest; induction s as [|x s IH].
  - simpl; destruct (strip_prefix label []) eqn:E; simpl;
      [now rewrite Hrest|reflexivity].
  - simpl js_match; simpl run; simpl after_first.
    destruct (strip_prefix label (x :: s)) eqn:E; simpl.
    + now rewrite Hrest.
    + exact IH.
Qed.

(** ** The title pattern *)

Lemma titleLabel_val : titleLabel = [51228; 47785; 58]%N.
Proof. reflexivity. Qed.

Lemma take_while_length (p : N -> bool) (s : jsstring) :
  firstn (length s - length (drop_while p s)) s = take_while p s
  /\ length (drop_while p s) <= length s.
Proof.
  induction s as [|x s [IH1 IH2]]; [split; [reflexivity|simpl; lia]|].
  cbn [drop_while take_while]; destruct (p x).
  - split; [|simpl; lia].
    replace (length (x :: s) - length (drop_while p s))
      with (S (length s - length (drop_while p s))) by (cbn [length]; lia).
    cbn [firstn]; now rewrite IH1.
  - split; [|lia].
    now rewrite Nat.sub_diag.
Qed.

Lemma take_while_none (p : N -> bool) (s : jsstring) :
  existsb p s = false -> take_while p s = [].
Proof.
  destruct s as [|x s]; simpl; [reflexivity|].
  now destruct (p x).
Qed.

Lemma no_dot_all_space (s : jsstring) :
  existsb is_dot s = false -> forallb is_space s = true.
Proof.
  induction s as [|x s IH]; simpl; [reflexivity|].
  intros H; apply orb_false_iff in H; destruct H as [Hx Hs].
  rewrite (IH Hs), andb_true_r.
  destruct (is_space x) eqn:E; [reflexivity|].
  apply not_space_is_dot in E; congruence.
Qed.

(** The group [(.+)]: the rest of the line, which must not be empty. *)
Lemma run_line (s : jsstring) :
  run (Group (Plus is_dot)) accept s None
  = match s with
    | x :: _ => if is_dot x then Some (Some (take_while is_dot s)) else None
    | [] => None
    end.
Proof.
  destruct s as [|x s]; [reflexivity|].
  cbn [run]; destruct (is_dot x) eqn:E; [|reflexivity].
  rewrite star_greedy_total by (intros; unfold accept; discriminate).
  unfold accept; do 2 f_equal.
  destruct (take_while_length is_dot s) as [H1 H2].
  replace (length (x :: s) - length (drop_while is_dot s))
    with (S (length s - length (drop_while is_dot s)))
    by (cbn [length]; lia).
  simpl; now rewrite E, H1.
Qed.

(** White space, then the line, with the white space given back one
    character at a time when no line follows it. *)
Lemma run_title_tail (r : jsstring) :
  match star_greedy is_space (run (Group (Plus is_dot)) accept) r None with
  | Some (Some g) =>
    existsb is_dot r = true /\ g <> [] /\
    trim g = trim (take_while is_dot (drop_while is_space r))
  | Some None => False
  | None => existsb is_dot r = false
  end.
Proof.
  induction r as [|x r IH]; [reflexivity|].
  cbn [star_greedy]; destruct (is_space x) eqn:Hs.
  - destruct (star_greedy is_space (run (Group (Plus is_dot)) accept) r None)
      as [[g|]|] eqn:E.
    + destruct IH as (H1 & H2 & H3); repeat split; auto.
      * simpl; rewrite H1; apply orb_true_r.
      * simpl; now rewrite Hs.
    + contradiction.
    + rewrite run_line; simpl existsb; rewrite IH, orb_false_r.
      destruct (is_dot x) eqn:Hd; [|reflexivity].
      cbn [take_while drop_while]; rewrite Hd, Hs, (take_while_none _ _ IH).
      rewrite (drop_while_all _ _ (no_dot_all_space _ IH)).
      split; [reflexivity|split; [discriminate|]].
      apply trim_all_space; simpl; now rewrite Hs.
  - rewrite run_line, (not_space_is_dot _ Hs).
    cbn [take_while drop_while existsb].
    rewrite Hs, (not_space_is_dot _ Hs).
    split; [reflexivity|split; [discriminate|]].
    cbn [take_while]; now rewrite (not_space_is_dot _ Hs).
Qed.

Lemma run_titleRe (s : jsstring) :
  run titleRe accept s None
  = match strip_prefix titleLabel s with
    | Some r => star_greedy is_space (run (Group (Plus is_dot)) accept) r None
    | None => None
    end.
Proof. reflexivity. Qed.

Lemma no_dot_no_title (r : jsstring) :
  existsb is_dot r = false -> js_match titleRe r = None.
Proof.
  induction r as [|x r IH]; [reflexivity|].
  simpl existsb; intros H; apply orb_false_iff in H; destruct H as [Hx Hr].
  cbn [js_match]; rewrite run_titleRe, titleLabel_val.
  cbn [strip_prefix]; destruct (51228 =? x)%N eqn:E.
  - apply N.eqb_eq in E; subst x; discriminate Hx.
  - auto.
Qed.

(** The title pattern as a whole: it matches at the first title label or
    nowhere. *)
Lemma js_match_title (s : jsstring) :
  match js_match titleRe s with
  | Some (Some g) =>
    title_found s = true /\ g <> [] /\ trim g = title_field s
  | Some None => False
  | None => title_found s = false
  end.
Proof.
  induction s as [|x s IH]; [reflexivity|].
  cbn [js_match]; rewrite run_titleRe.
  unfold title_found, title_field in *; cbn [after_first].
  destruct (strip_prefix titleLabel (x :: s)) as [r|] eqn:E.
  - pose proof (run_title_tail r) as Ht.
    destruct (star_greedy is_space (run (Group (Plus is_dot)) accept) r None)
      as [[g|]|] eqn:Er; [exact Ht|contradiction|].
    apply strip_prefix_some in E; rewrite titleLabel_val in E.
    injection E as -> ->.
    cbn [js_match]; rewrite !run_titleRe, titleLabel_val.
    cbn [strip_prefix N.eqb Pos.eqb].
    rewrite (no_dot_no_title _ Ht); exact Ht.
  - exact IH.
Qed.

(** ** The three body patterns *)

Lemma js_match_summary (s : jsstring) :
  js_match summaryRe s
  = option_map
      (fun r => Some (before_first sceneLabel (drop_while is_space r)))
      (after_first summaryLabel s).
Proof.
  apply js_match_label with
    (f := fun r => Some (before_first sceneLabel (drop_while is_space r))).
  intros r; apply run_body_until; discriminate.
Qed.

Lemma js_match_scene (s : jsstring) :
  js_match sceneRe s
  = option_map
      (fun r => Some (before_first thoughtsLabel (drop_while is_space r)))
      (after_first sceneLabel s).
Proof.
  apply js_match_label with
    (f := fun r => Some (before_first thoughtsLabel (drop_while is_space r))).
  intros r; apply run_body_until; discriminate.
Qed.

Lemma js_match_thoughts (s : jsstring) :
  js_match thoughtsRe s
  = option_map (fun r => Some (drop_while is_space r))
      (after_first thoughtsLabel s).
Proof.
  apply js_match_label with (f := fun r => Some (drop_while is_space r)).
  intros r; apply run_body_to_end.
Qed.

Lemma before_first_head (next v : jsstring) :
  match v with x :: _ => is_space x = false | [] => True end ->
  match before_first next v with
  | x :: _ => is_space x = false
  | [] => True
  end.
Proof.
  destruct v as [|x v]; [intros _; now destruct next|].
  intros Hx; cbn [before_first].
  destruct (strip_prefix next (x :: v)); [exact I|exact Hx].
Qed.

(** A captured value that does not start with white space: the test on the
    group and the test on the trimmed value agree. *)
Lemma group_trim (g fb : jsstring) :
  match g with x :: _ => is_space x = false | [] => True end ->
  match (if truthy g then Some g else None) with
  | Some g' => trim g'
  | None => fb
  end
  = if truthy (trim g) then trim g else fb.
Proof.
  intros Hg; rewrite (trim_truthy _ Hg).
  destruct g; reflexivity.
Qed.

Lemma or_nil (s : jsstring) : (if truthy s then s else []) = s.
Proof. now destruct s. Qed.

End ParserFacts.

(* ================================================================== *)
(** * The analysis response parser *)
(* ================================================================== *)

Section Parser.
Import ParserSpec ParserFacts.

(** The value of a body group, tested and trimmed as the parser does it. *)
Lemma body_group (label : jsstring) (cut : jsstring -> jsstring)
    (text fb : jsstring) :
  (forall v, starts_clean v -> starts_clean (cut v)) ->
  match group1 (option_map (fun r => Some (cut (drop_while is_space r)))
                  (after_first label text)) with
  | Some g => trim g
  | None => fb
  end
  = let v := match after_first label text with
             | None => []
             | Some r => trim (cut (drop_while is_space r))
             end in
    if truthy v then v else fb.
Proof.
  intros Hcut; destruct (after_first label text) as [r|]; [|reflexivity].
  cbn [option_map group1]; apply group_trim.
  apply Hcut, drop_while_head.
Qed.

Lemma if_not_truthy (s fb : jsstring) :
  (if negb (truthy s) then fb else s) = (if truthy s then s else fb).
Proof. now destruct s. Qed.

Lemma parseResponse_refines (text : jsstring) (manualTitle : option jsstring) :
  parseResponse text manualTitle = parse_spec text manualTitle.
Proof.
  unfold parseResponse, parse_spec.
  rewrite js_match_summary, js_match_scene, js_match_thoughts.
  rewrite (body_group summaryLabel (before_first sceneLabel) text)
    by (intros v; apply before_first_head).
  rewrite (body_group sceneLabel (before_first thoughtsLabel) text [])
    by (intros v; apply before_first_head).
  rewrite (body_group thoughtsLabel (fun v => v) text []) by auto.
  cbv zeta; rewrite !or_nil.
  fold (body_field summaryLabel (Some sceneLabel) text).
  fold (body_field sceneLabel (Some thoughtsLabel) text).
  fold (body_field thoughtsLabel None text).
  pose proof (js_match_title text) as Ht.
  destruct (js_match titleRe text) as [[g|]|]; [|contradiction|].
  - destruct Ht as (Hf & Hg & Htrim); rewrite Hf.
    cbn [group1 is_null andb negb].
    destruct g as [|x g]; [contradiction|]; cbn [truthy].
    rewrite Htrim; f_equal; apply if_not_truthy.
  - rewrite Ht; cbn [group1 is_null andb negb]; f_equal; apply if_not_truthy.
Qed.

Lemma fallbacks_not_empty :
  truthy titleFallback = true /\ truthy summaryFallback = true.
Proof. split; reflexivity. Qed.

Lemma truthy_or (s fb : jsstring) :
  truthy fb = true -> truthy (if negb (truthy s) then fb else s) = true.
Proof. now destruct s. Qed.

Example parse_well_formed :
  parseResponse
    (js "제목: 아기 돼지 삼형제
줄거리: 돼지 삼형제가 집을 지었어요.
늑대가 찾아왔어요.
장면: 벽돌집 앞의 늑대
느낀점: 튼튼한 집이 좋아요.
") None
  = {| YouTubeAnalysisResult.title := js "아기 돼지 삼형제";
       YouTubeAnalysisResult.summary := js "돼지 삼형제가 집을 지었어요.
늑대가 찾아왔어요.";
       YouTubeAnalysisResult.recommendedScene := js "벽돌집 앞의 늑대";
       YouTubeAnalysisResult.recommendedThoughts := js "튼튼한 집이 좋아요." |}.
Proof. vm_compute; reflexivity. Qed.

Example parse_unlabelled :
  parseResponse (js "I could not find the video.") (Some (js "Pororo"))
  = {| YouTubeAnalysisResult.title := js "Pororo";
       YouTubeAnalysisResult.summary := js "I could not find the video.";
       YouTubeAnalysisResult.recommendedScene := [];
       YouTubeAnalysisResult.recommendedThoughts := [] |}.
Proof. vm_compute; reflexivity. Qed.

Example parse_blank_title :
  parseResponse (js "제목:  ") (Some (js "Pororo"))
  = {| YouTubeAnalysisResult.title := titleFallback;
       YouTubeAnalysisResult.summary := summaryFallback;
       YouTubeAnalysisResult.recommendedScene := [];
       YouTubeAnalysisResult.recommendedThoughts := [] |}.
Proof. vm_compute; reflexivity. Qed.

(** C1, as amended.  For every response text and manual title the record
    returned by the parsing step of analyzeStoryLink is the ordered
    extraction by label: the title is what follows the first title label
    and its white space up to the end of the line, each body field is what
    follows the first occurrence of its label and its white space up to the
    next label or the end of the text, and every extracted value is
    trimmed.  Fallback text exists for the title and the summary only, so
    these two are never empty: a title that is not extracted becomes the
    manual title or the fixed title message, a summary that is not
    extracted becomes the whole text (no title pattern found, more than ten
    characters) or the fixed summary message.  A scene or thoughts value
    that is not extracted is the empty string. *)
Theorem parseResponse_ordered_extraction
    (text : jsstring) (manualTitle : option jsstring) :
  let r := parseResponse text manualTitle in
  r = parse_spec text manualTitle
  /\ truthy (YouTubeAnalysisResult.title r) = true
  /\ truthy (YouTubeAnalysisResult.summary r) = true
  /\ (group1 (js_match titleRe text) = None ->
      YouTubeAnalysisResult.title r = opt_or_else manualTitle titleFallback)
  /\ (group1 (js_match summaryRe text) = None ->
      YouTubeAnalysisResult.summary r
      = if is_null (js_match titleRe text) && (10 <? length text)%nat
        then text else summaryFallback)
  /\ (group1 (js_match sceneRe text) = None ->
      YouTubeAnalysisResult.recommendedScene r = [])
  /\ (group1 (js_match thoughtsRe text) = None ->
      YouTubeAnalysisResult.recommendedThoughts r = []).
Proof.
  destruct fallbacks_not_empty as [Ht Hs].
  cbv zeta; split; [apply parseResponse_refines|].
  unfold parseResponse; cbn [YouTubeAnalysisResult.title
    YouTubeAnalysisResult.summary YouTubeAnalysisResult.recommendedScene
    YouTubeAnalysisResult.recommendedThoughts].
  split; [apply truthy_or; exact Ht|].
  split; [apply truthy_or; exact Hs|].
  split; [|split; [|split]]; intros ->; [| |reflexivity|reflexivity].
  - rewrite if_not_truthy.
    destruct manualTitle as [[|x m]|]; cbn [opt_or_else or_else truthy];
      reflexivity.
  - rewrite if_not_truthy.
    destruct (is_null (js_match titleRe text) && (10 <? length text)%nat)
      eqn:E; [|reflexivity].
    apply andb_true_iff in E; destruct E as [_ E].
    destruct text; [discriminate E|reflexivity].
Qed.

Lemma parseResponse_ordered_extraction_witness :
  YouTubeAnalysisResult.recommendedScene
    (parseResponse (js "제목: 토끼와 거북이") None) = []
  /\ YouTubeAnalysisResult.recommendedThoughts
    (parseResponse (js "제목: 토끼와 거북이") None) = []
  /\ YouTubeAnalysisResult.summary
    (parseResponse (js "제목: 토끼와 거북이") None) = summaryFallback
  /\ YouTubeAnalysisResult.title
    (parseResponse (js "줄거리: 토끼가 잠들었어요.") (Some (js "토끼")))
     = js "토끼".
Proof.
  pose proof (parseResponse_ordered_extraction (js "제목: 토끼와 거북이") None)
    as (_ & _ & _ & _ & Hsum & Hscene & Hthoughts).
  pose proof (parseResponse_ordered_extraction
                (js "줄거리: 토끼가 잠들었어요.") (Some (js "토끼")))
    as (_ & _ & _ & Htitle & _).
  split; [apply Hscene; vm_compute; reflexivity|].
  split; [apply Hthoughts; vm_compute; reflexivity|].
  split; [rewrite Hsum by (vm_compute; reflexivity); vm_compute; reflexivity|].
  rewrite Htitle by (vm_compute; reflexivity); vm_compute; reflexivity.
Defined.

(** C1, as stated, fails: a response without a scene label leaves the
    scene empty, no fallback text is put in its place (and likewise for
    the thoughts). *)
Lemma scene_and_thoughts_have_no_fallback :
  ~ (forall text manualTitle,
       let r := parseResponse text manualTitle in
       (group1 (js_match sceneRe text) = None ->
        truthy (YouTubeAnalysisResult.recommendedScene r) = true)
       /\ (group1 (js_match thoughtsRe text) = None ->
           truthy (YouTubeAnalysisResult.recommendedThoughts r) = true)).
Proof.
  intros H.
  destruct (H (js "제목: 토끼와 거북이
줄거리: 토끼가 잠들었어요.") None) as [Hscene _].
  assert (Hnone : group1 (js_match sceneRe (js "제목: 토끼와 거북이
줄거리: 토끼가 잠들었어요.")) = None) by (vm_compute; reflexivity).
  apply Hscene in Hnone; vm_compute in Hnone; discriminate Hnone.
Qed.

End Parser.

(* ================================================================== *)
(** * The style toggles *)
(* ================================================================== *)

Section StyleToggles.
Import StoryForm.

Lemma toggleFontFamily_next (f : FontFamily.t) :
  toggleFontFamily f
  = Some match f with
         | FontFamily.basic => FontFamily.cute
         | FontFamily.cute => FontFamily.hand
         | FontFamily.hand => FontFamily.dongle
         | FontFamily.dongle => FontFamily.gamja
         | FontFamily.gamja => FontFamily.poor
         | FontFamily.poor => FontFamily.basic
         end.
Proof. destruct f; reflexivity. Qed.

Lemma toggleFontSize_next (s : FontSize.t) :
  toggleFontSize s
  = Some match s with
         | FontSize.x_small => FontSize.small
         | FontSize.small => FontSize.medium
         | FontSize.medium => FontSize.large
         | FontSize.large => FontSize.x_large
         | FontSize.x_large => FontSize.x_small
         end.
Proof. destruct s; reflexivity. Qed.

Lemma toggleDrawingLevel_next (l : DrawingLevel.t) :
  toggleDrawingLevel l
  = Some match l with
         | DrawingLevel.low => DrawingLevel.medium
         | DrawingLevel.medium => DrawingLevel.high
         | DrawingLevel.high => DrawingLevel.low
         end.
Proof. destruct l; reflexivity. Qed.

Lemma toggleWritingGrade_next (g : WritingGrade.t) :
  WritingGrade.valid g ->
  toggleWritingGrade g = (if (g =? 6)%Z then 1 else g + 1)%Z
  /\ WritingGrade.valid (toggleWritingGrade g).
Proof.
  unfold WritingGrade.valid, toggleWritingGrade; intros Hg.
  assert (Hc : (g = 1 \/ g = 2 \/ g = 3 \/ g = 4 \/ g = 5 \/ g = 6)%Z)
    by lia.
  destruct Hc as [->|[->|[->|[->|[->| ->]]]]]; split; cbn; lia.
Qed.

(** C2.  Each toggle moves its option to the next element of its fixed
    list and wraps from the last to the first: the six font families, the
    five font sizes, the three drawing levels and the grades 1 to 6; so a
    toggle pressed as many times as its list is long (6, 5, 3, 6) gives
    back the option it started from. *)
Theorem toggles_cycle :
  (forall f, toggleFontFamily f
             = Some match f with
                    | FontFamily.basic => FontFamily.cute
                    | FontFamily.cute => FontFamily.hand
                    | FontFamily.hand => FontFamily.dongle
                    | FontFamily.dongle => FontFamily.gamja
                    | FontFamily.gamja => FontFamily.poor
                    | FontFamily.poor => FontFamily.basic
                    end)
  /\ (forall s, toggleFontSize s
                = Some match s with
                       | FontSize.x_small => FontSize.small
                       | FontSize.small => FontSize.medium
                       | FontSize.medium => FontSize.large
                       | FontSize.large => FontSize.x_large
                       | FontSize.x_large => FontSize.x_small
                       end)
  /\ (forall l, toggleDrawingLevel l
                = Some match l with
                       | DrawingLevel.low => DrawingLevel.medium
                       | DrawingLevel.medium => DrawingLevel.high
                       | DrawingLevel.high => DrawingLevel.low
                       end)
  /\ (forall g, WritingGrade.valid g ->
                toggleWritingGrade g = (if (g =? 6)%Z then 1 else g + 1)%Z
                /\ WritingGrade.valid (toggleWritingGrade g))
  /\ (forall f, press 6 toggleFontFamily f = Some f)
  /\ (forall s, press 5 toggleFontSize s = Some s)
  /\ (forall l, press 3 toggleDrawingLevel l = Some l)
  /\ (forall g, WritingGrade.valid g ->
                Nat.iter 6 toggleWritingGrade g = g).
Proof.
  split; [exact toggleFontFamily_next|].
  split; [exact toggleFontSize_next|].
  split; [exact toggleDrawingLevel_next|].
  split; [exact toggleWritingGrade_next|].
  split; [intros f; destruct f; reflexivity|].
  split; [intros s; destruct s; reflexivity|].
  split; [intros l; destruct l; reflexivity|].
  intros g Hg; unfold WritingGrade.valid in Hg.
  assert (Hc : (g = 1 \/ g = 2 \/ g = 3 \/ g = 4 \/ g = 5 \/ g = 6)%Z)
    by lia.
  destruct Hc as [->|[->|[->|[->|[->| ->]]]]]; reflexivity.
Qed.

Lemma toggles_cycle_witness :
  toggleWritingGrade 6%Z = 1%Z /\ toggleWritingGrade 3%Z = 4%Z
  /\ Nat.iter 6 toggleWritingGrade 4%Z = 4%Z.
Proof.
  destruct toggles_cycle as (_ & _ & _ & Hnext & _ & _ & _ & Hiter).
  split; [apply (Hnext 6%Z); unfold WritingGrade.valid; lia|].
  split; [apply (Hnext 3%Z); unfold WritingGrade.valid; lia|].
  apply (Hiter 4%Z); unfold WritingGrade.valid; lia.
Defined.

End StyleToggles.

(* ================================================================== *)
(** * The entry store *)
(* ================================================================== *)

Section EntryStore.
Import App.

Implicit Types (entry e : StoryEntry.t) (prev entries : list StoryEntry.t).

Lemma find_none entry prev :
  find (same_id entry) prev = None <-> ~ In (StoryEntry.id entry) (ids prev).
Proof.
  induction prev as [|e prev IH]; simpl; [tauto|].
  unfold same_id at 1; destruct (str_eqb _ _) eqn:E.
  - apply str_eqb_eq in E; split; [discriminate|]; intros H; exfalso; auto.
  - apply str_eqb_neq in E; rewrite IH; split; [|tauto].
    intros H [H'|H']; [congruence|contradiction].
Qed.

Lemma find_some entry prev :
  (exists e, find (same_id entry) prev = Some e)
  <-> In (StoryEntry.id entry) (ids prev).
Proof.
  destruct (find (same_id entry) prev) as [e|] eqn:E.
  - split; [intros _|intros _; now exists e].
    destruct (in_dec (list_eq_dec N.eq_dec) (StoryEntry.id entry) (ids prev))
      as [H|H]; [exact H|].
    apply find_none in H; congruence.
  - split; [intros [e H]; discriminate|].
    intros H; apply find_none in E; contradiction.
Qed.

(** The two branches of [handleSaveEntry]. *)
Lemma handleSaveEntry_present entry prev :
  In (StoryEntry.id entry) (ids prev) ->
  handleSaveEntry entry prev
  = map (fun e => if same_id entry e then entry else e) prev.
Proof.
  intros H; apply find_some in H; destruct H as [e H].
  unfold handleSaveEntry; fold (same_id entry); now rewrite H.
Qed.

Lemma handleSaveEntry_absent entry prev :
  ~ In (StoryEntry.id entry) (ids prev) ->
  handleSaveEntry entry prev = entry :: prev.
Proof.
  intros H; apply find_none in H.
  unfold handleSaveEntry; fold (same_id entry); now rewrite H.
Qed.

Lemma replace_keeps_ids entry prev :
  ids (map (fun e => if same_id entry e then entry else e) prev) = ids prev.
Proof.
  unfold ids; rewrite map_map; apply map_ext; intros e.
  unfold same_id; destruct (str_eqb _ _) eqn:E; [|reflexivity].
  apply str_eqb_eq in E; congruence.
Qed.

Lemma handleSaveEntry_NoDup entry prev :
  NoDup (ids prev) -> NoDup (ids (handleSaveEntry entry prev)).
Proof.
  intros H.
  destruct (in_dec (list_eq_dec N.eq_dec) (StoryEntry.id entry) (ids prev))
    as [Hin|Hin].
  - now rewrite (handleSaveEntry_present _ _ Hin), replace_keeps_ids.
  - rewrite (handleSaveEntry_absent _ _ Hin); simpl; now constructor.
Qed.

Lemma filter_NoDup_ids (p : StoryEntry.t -> bool) prev :
  NoDup (ids prev) -> NoDup (ids (filter p prev)).
Proof.
  induction prev as [|e prev IH]; simpl; [auto|].
  intros H; inversion H as [|? ? Hnotin Hnd]; subst.
  destruct (p e); simpl; [|auto].
  constructor; [|auto].
  intros Hin; apply Hnotin.
  unfold ids in *; apply in_map_iff in Hin; destruct Hin as (e' & He' & Hin).
  apply filter_In in Hin; apply in_map_iff; exists e'; tauto.
Qed.

Lemma handleDeleteEntry_NoDup confirmed id prev :
  NoDup (ids prev) -> NoDup (ids (handleDeleteEntry confirmed id prev)).
Proof.
  intros H; unfold handleDeleteEntry; destruct confirmed; [|exact H].
  now apply filter_NoDup_ids.
Qed.

Lemma step_inv (P : list StoryEntry.t -> Prop) :
  P [] ->
  (forall entry prev, P prev -> P (handleSaveEntry entry prev)) ->
  (forall confirmed id prev, P prev -> P (handleDeleteEntry confirmed id prev)) ->
  forall a s, store_inv P s -> store_inv P (step a s).
Proof.
  intros Hnil Hsave Hdelete a s [He Hs].
  destruct a as [| |entry|confirmed id]; split; simpl; auto.
  - destruct (fairyTaleEntries s) as [l|]; auto.
  - intros l [= <-]; exact He.
Qed.

(** C3.  Saving and deleting keep the identifiers of the list distinct,
    so every store that is reached from the empty one (by mounting,
    writing the list to the local storage, saving and deleting) holds at
    most one entry per identifier, in the list and in the stored copy. *)
Theorem store_ids_distinct :
  (forall entry prev,
     NoDup (ids prev) -> NoDup (ids (handleSaveEntry entry prev)))
  /\ (forall confirmed id prev,
        NoDup (ids prev) ->
        NoDup (ids (handleDeleteEntry confirmed id prev)))
  /\ (forall s, reachable s ->
        NoDup (ids (entries s))
        /\ forall l, fairyTaleEntries s = Some l -> NoDup (ids l)).
Proof.
  split; [exact handleSaveEntry_NoDup|].
  split; [exact handleDeleteEntry_NoDup|].
  intros s H; induction H as [|a s H IH].
  - split; [constructor|discriminate].
  - apply (@step_inv (fun l => NoDup (ids l))); auto.
    + constructor.
    + exact handleSaveEntry_NoDup.
    + exact handleDeleteEntry_NoDup.
Qed.

Lemma store_ids_distinct_witness :
  NoDup (ids (handleSaveEntry (sample_entry "b" "new")
                [sample_entry "a" "one"; sample_entry "b" "two"]))
  /\ NoDup (ids (handleDeleteEntry true (js "a")
                   [sample_entry "a" "one"; sample_entry "b" "two"]))
  /\ NoDup (ids (entries
        (step Mount
           (step Persist
              (step (SaveEntry (sample_entry "a" "new"))
                 (step (SaveEntry (sample_entry "a" "one")) initial)))))).
Proof.
  destruct store_ids_distinct as (Hsave & Hdelete & Hreach).
  assert (Hnd : NoDup (ids [sample_entry "a" "one"; sample_entry "b" "two"])).
  { vm_compute; repeat constructor; simpl; intuition discriminate. }
  split; [apply Hsave; exact Hnd|].
  split; [apply Hdelete; exact Hnd|].
  apply Hreach; repeat constructor.
Defined.

Example save_replaces_in_place :
  handleSaveEntry (sample_entry "b" "new")
    [sample_entry "a" "one"; sample_entry "b" "two"; sample_entry "c" "three"]
  = [sample_entry "a" "one"; sample_entry "b" "new"; sample_entry "c" "three"].
Proof. vm_compute; reflexivity. Qed.

Example save_prepends :
  handleSaveEntry (sample_entry "d" "new")
    [sample_entry "a" "one"; sample_entry "b" "two"]
  = [sample_entry "d" "new"; sample_entry "a" "one"; sample_entry "b" "two"].
Proof. vm_compute; reflexivity. Qed.

(** C8.  Saving is update-or-prepend.  When an entry of the list has the
    identifier of the saved entry, the saved entry stands at the position
    of every such entry, every other position keeps its entry, and the
    length of the list and the order of the identifiers are unchanged.
    Otherwise the saved entry is put in front of the unchanged list. *)
Theorem handleSaveEntry_update_or_prepend entry prev :
  (In (StoryEntry.id entry) (ids prev) ->
   length (handleSaveEntry entry prev) = length prev
   /\ ids (handleSaveEntry entry prev) = ids prev
   /\ forall i e, nth_error prev i = Some e ->
        (StoryEntry.id e = StoryEntry.id entry ->
         nth_error (handleSaveEntry entry prev) i = Some entry)
        /\ (StoryEntry.id e <> StoryEntry.id entry ->
            nth_error (handleSaveEntry entry prev) i = Some e))
  /\ (~ In (StoryEntry.id entry) (ids prev) ->
      handleSaveEntry entry prev = entry :: prev).
Proof.
  split; [|apply handleSaveEntry_absent].
  intros Hin; rewrite (handleSaveEntry_present _ _ Hin).
  split; [apply length_map|].
  split; [apply replace_keeps_ids|].
  intros i e Hi; rewrite nth_error_map, Hi; simpl; unfold same_id.
  split; intros H.
  - apply str_eqb_eq in H; now rewrite H.
  - apply str_eqb_neq in H; now rewrite H.
Qed.

Lemma handleSaveEntry_update_or_prepend_witness :
  nth_error (handleSaveEntry (sample_entry "b" "new")
               [sample_entry "a" "one"; sample_entry "b" "two"]) 1
  = Some (sample_entry "b" "new")
  /\ handleSaveEntry (sample_entry "c" "new") [sample_entry "a" "one"]
     = [sample_entry "c" "new"; sample_entry "a" "one"].
Proof.
  split.
  - refine (proj1 (proj2 (proj2 (proj1
      (handleSaveEntry_update_or_prepend (sample_entry "b" "new")
         [sample_entry "a" "one"; sample_entry "b" "two"]) _))
      1 (sample_entry "b" "two") eq_refl) eq_refl).
    vm_compute; right; left; reflexivity.
  - apply (proj2 (handleSaveEntry_update_or_prepend (sample_entry "c" "new")
                    [sample_entry "a" "one"])).
    vm_compute; intuition discriminate.
Defined.

Lemma filter_filter_implied (p q : StoryEntry.t -> bool) prev :
  (forall e, p e = true -> q e = true) ->
  filter p (filter q prev) = filter p prev.
Proof.
  intros H; induction prev as [|e prev IH]; simpl; [reflexivity|].
  destruct (q e) eqn:Eq; simpl.
  - now rewrite IH.
  - destruct (p e) eqn:Ep; [|exact IH].
    apply H in Ep; congruence.
Qed.

Lemma filter_all (p : StoryEntry.t -> bool) prev :
  (forall e, In e prev -> p e = true) -> filter p prev = prev.
Proof.
  induction prev as [|e prev IH]; simpl; [reflexivity|]; intros H.
  rewrite (H e) by auto; f_equal; auto.
Qed.

(** C9.  A confirmed deletion removes exactly the entries that carry the
    given identifier: an entry is in the result when it was in the list
    with another identifier, whatever is selected among the entries with
    other identifiers is the same before and after (same entries, same
    order, same number of copies), and a list without the identifier is
    returned as it was. *)
Theorem handleDeleteEntry_removes_exactly id prev :
  (forall e, In e (handleDeleteEntry true id prev)
             <-> In e prev /\ StoryEntry.id e <> id)
  /\ (forall p : StoryEntry.t -> bool,
        (forall e, p e = true -> StoryEntry.id e <> id) ->
        filter p (handleDeleteEntry true id prev) = filter p prev)
  /\ (~ In id (ids prev) -> handleDeleteEntry true id prev = prev).
Proof.
  unfold handleDeleteEntry; split; [|split].
  - intros e; rewrite filter_In, negb_true_iff, str_eqb_neq; tauto.
  - intros p Hp; apply filter_filter_implied.
    intros e He; apply negb_true_iff, str_eqb_neq; auto.
  - intros Hnot; apply filter_all; intros e He.
    apply negb_true_iff, str_eqb_neq; intros Heq; apply Hnot.
    unfold ids; apply in_map_iff; now exists e.
Qed.

Lemma handleDeleteEntry_removes_exactly_witness :
  filter (fun e => str_eqb (StoryEntry.id e) (js "b"))
    (handleDeleteEntry true (js "a")
       [sample_entry "a" "one"; sample_entry "b" "two"; sample_entry "a" "x"])
  = [sample_entry "b" "two"]
  /\ handleDeleteEntry true (js "z") [sample_entry "a" "one"]
     = [sample_entry "a" "one"].
Proof.
  split.
  - rewrite (proj1 (proj2 (handleDeleteEntry_removes_exactly (js "a")
      [sample_entry "a" "one"; sample_entry "b" "two"; sample_entry "a" "x"]))).
    + vm_compute; reflexivity.
    + intros e He; apply str_eqb_eq in He; rewrite He; vm_compute; discriminate.
  - apply (proj2 (proj2 (handleDeleteEntry_removes_exactly (js "z")
                           [sample_entry "a" "one"]))).
    vm_compute; intuition discriminate.
Defined.

Lemma handleDeleteEntry_declined id prev :
  handleDeleteEntry false id prev = prev.
Proof. reflexivity. Qed.

End EntryStore.

(* ================================================================== *)
(** * Failures of the service operations *)
(* ================================================================== *)

Section ServiceFailures.

Variable env : Env.
Hypothesis key_present : truthy_opt (API_KEY env) = true.

Lemma getClient_resolved : getClient env = Resolved (generateContent env).
Proof. unfold getClient; now rewrite key_present. Qed.

Lemma analyzeStoryLink_unfold url sl tl g mt :
  analyzeStoryLink env url sl tl g mt
  = try_catch_throw
      (bind (generateContent env
               (analyzeRequest env url (default 3%Z sl) (default 3%Z tl)
                  (default 1%Z g) mt))
         (fun response =>
            Resolved (parseResponse (opt_or_else (text response) []) mt)))
      analyzeError.
Proof. unfold analyzeStoryLink; now rewrite getClient_resolved. Qed.

Lemma generateSceneImage_unfold scene title summary level :
  generateSceneImage env scene title summary level
  = try_catch_throw
      (bind (generateContent env
               (imageRequest scene title summary
                  (default DrawingLevel.low level)))
         extractImage)
      imageError.
Proof. unfold generateSceneImage; now rewrite getClient_resolved. Qed.

Lemma generateStorySpeech_unfold txt :
  generateStorySpeech env txt
  = try_catch_throw
      (bind (generateContent env (speechRequest txt)) extractSpeech)
      speechError.
Proof. unfold generateStorySpeech; now rewrite getClient_resolved. Qed.

Lemma try_catch_throw_rejected (A : Type) (body : outcome A)
    (msg : jsstring) (e : exn) :
  try_catch_throw body msg = Rejected e -> e = Error msg.
Proof. destruct body; simpl; congruence. Qed.

End ServiceFailures.

Example image_no_candidates :
  extractImage {| candidates := None; text := None |}
  = Rejected (Error imageMissing).
Proof. reflexivity. Qed.

Example image_empty_candidates :
  extractImage {| candidates := Some []; text := None |} = Rejected TypeError.
Proof. reflexivity. Qed.

Example image_second_part :
  extractImage
    {| candidates :=
         Some [ {| content := Some {| parts := Some
             [ {| inlineData := None |};
               {| inlineData :=
                    Some {| data := Some (js "QUJD"); mimeType := None |} |}
             ] |} |} ];
       text := None |}
  = Resolved (js "data:image/png;base64,QUJD").
Proof. vm_compute; reflexivity. Qed.

Example speech_empty_data :
  extractSpeech
    {| candidates :=
         Some [ {| content := Some {| parts := Some
             [ {| inlineData :=
                    Some {| data := Some []; mimeType := None |} |} ] |} |} ];
       text := None |}
  = Rejected (Error speechMissing).
Proof. reflexivity. Qed.

(** C4.  With a client at hand (the API key is set), each of the three
    service operations handles a failure by rejecting with its own fixed
    message and nothing else: when the generative-AI call rejects, or the
    extraction of the image or of the audio from the response throws, the
    operation rejects with that message; every rejection of the operation
    carries that message; an operation that resolves returns what the
    extraction gave for the response of the call, so there is no partial
    result; the three messages are the Korean sentences of the source and
    differ from one another. *)
Theorem service_failures_fixed_message (env : Env) :
  truthy_opt (API_KEY env) = true ->
  (forall url sl tl g mt e,
     generateContent env
       (analyzeRequest env url (default 3%Z sl) (default 3%Z tl)
          (default 1%Z g) mt) = Rejected e ->
     analyzeStoryLink env url sl tl g mt = Rejected (Error analyzeError))
  /\ (forall scene title summary level e,
        generateContent env
          (imageRequest scene title summary (default DrawingLevel.low level))
        = Rejected e
        \/ (exists response,
              generateContent env
                (imageRequest scene title summary
                   (default DrawingLevel.low level)) = Resolved response
              /\ extractImage response = Rejected e) ->
        generateSceneImage env scene title summary level
        = Rejected (Error imageError))
  /\ (forall txt e,
        generateContent env (speechRequest txt) = Rejected e
        \/ (exists response,
              generateContent env (speechRequest txt) = Resolved response
              /\ extractSpeech response = Rejected e) ->
        generateStorySpeech env txt = Rejected (Error speechError))
  /\ (forall url sl tl g mt e,
        analyzeStoryLink env url sl tl g mt = Rejected e ->
        e = Error analyzeError)
  /\ (forall scene title summary level e,
        generateSceneImage env scene title summary level = Rejected e ->
        e = Error imageError)
  /\ (forall txt e,
        generateStorySpeech env txt = Rejected e -> e = Error speechError)
  /\ (forall url sl tl g mt r,
        analyzeStoryLink env url sl tl g mt = Resolved r ->
        exists response,
          generateContent env
            (analyzeRequest env url (default 3%Z sl) (default 3%Z tl)
               (default 1%Z g) mt) = Resolved response
          /\ r = parseResponse (opt_or_else (text response) []) mt)
  /\ (forall scene title summary level v,
        generateSceneImage env scene title summary level = Resolved v ->
        exists response,
          generateContent env
            (imageRequest scene title summary
               (default DrawingLevel.low level)) = Resolved response
          /\ extractImage response = Resolved v)
  /\ (forall txt v,
        generateStorySpeech env txt = Resolved v ->
        exists response,
          generateContent env (speechRequest txt) = Resolved response
          /\ extractSpeech response = Resolved v)
  /\ analyzeError
     = js "AI가 동화를 분석하는 중에 문제가 발생했어요. 잠시 후 다시 시도해주세요."
  /\ imageError = js "그림을 그리는 중 오류가 발생했어요."
  /\ speechError = js "음성을 생성하는 중 오류가 발생했어요."
  /\ analyzeError <> imageError
  /\ analyzeError <> speechError
  /\ imageError <> speechError.
Proof.
  intros Hkey.
  split; [|split; [|split; [|split; [|split; [|split;
    [|split; [|split; [|split]]]]]]]].
  - intros url sl tl g mt e H.
    now rewrite (analyzeStoryLink_unfold env Hkey), H.
  - intros scene title summary level e [H|(response & H & Hx)];
      rewrite (generateSceneImage_unfold env Hkey), H; simpl;
      [reflexivity|now rewrite Hx].
  - intros txt e [H|(response & H & Hx)];
      rewrite (generateStorySpeech_unfold env Hkey), H; simpl;
      [reflexivity|now rewrite Hx].
  - intros url sl tl g mt e; rewrite (analyzeStoryLink_unfold env Hkey).
    apply try_catch_throw_rejected.
  - intros scene title summary level e;
      rewrite (generateSceneImage_unfold env Hkey).
    apply try_catch_throw_rejected.
  - intros txt e; rewrite (generateStorySpeech_unfold env Hkey).
    apply try_catch_throw_rejected.
  - intros url sl tl g mt r; rewrite (analyzeStoryLink_unfold env Hkey).
    destruct (generateContent env _) as [response|e]; simpl;
      [|discriminate].
    intros [= <-]; now exists response.
  - intros scene title summary level v;
      rewrite (generateSceneImage_unfold env Hkey).
    destruct (generateContent env _) as [response|e]; simpl;
      [|discriminate].
    destruct (extractImage response) as [v'|e] eqn:E; [|discriminate].
    intros [= <-]; now exists response.
  - intros txt v; rewrite (generateStorySpeech_unfold env Hkey).
    destruct (generateContent env _) as [response|e]; simpl;
      [|discriminate].
    destruct (extractSpeech response) as [v'|e] eqn:E; [|discriminate].
    intros [= <-]; now exists response.
  - repeat split; try reflexivity; intros H; vm_compute in H; discriminate H.
Qed.

Lemma service_failures_fixed_message_witness :
  analyzeStoryLink failing_env (js "https://youtu.be/dQw4w9WgXcQ")
    (Some 2%Z) (Some 2%Z) (Some 1%Z) None
  = Rejected (Error analyzeError)
  /\ generateSceneImage empty_response_env (js "wolf") (js "Three pigs")
       (js "pigs build houses") (Some DrawingLevel.low)
     = Rejected (Error imageError)
  /\ generateStorySpeech empty_response_env (js "pigs build houses")
     = Rejected (Error speechError).
Proof.
  split; [|split].
  - refine (proj1 (service_failures_fixed_message failing_env eq_refl)
              _ _ _ _ _ (Error (js "503 UNAVAILABLE")) eq_refl).
  - refine (proj1 (proj2
              (service_failures_fixed_message empty_response_env eq_refl))
              _ _ _ _ TypeError _).
    right; eexists; split; reflexivity.
  - refine (proj1 (proj2 (proj2
              (service_failures_fixed_message empty_response_env eq_refl)))
              _ (Error speechMissing) _).
    right; eexists; split; reflexivity.
Defined.

Example missing_key_is_not_translated :
  analyzeStoryLink
    {| API_KEY := None;
       generateContent := fun _ => Rejected TypeError;
       extractYouTubeId := fun _ => None |}
    (js "https://youtu.be/x") None None None None
  = Rejected (Error (js "API Key not found")).
Proof. reflexivity. Qed.

(* ================================================================== *)
(** * Occurrences of a text in a concatenation *)
(* ================================================================== *)

Section Occurrences.

Lemma contains_skip (x a b : jsstring) : contains x b -> contains x (a ++ b).
Proof.
  intros (pre & post & ->); exists (a ++ pre), post.
  now rewrite app_assoc.
Qed.

Lemma ends_with_split (x s : jsstring) :
  ends_with x s = true -> exists s1, s = s1 ++ x.
Proof.
  unfold ends_with; destruct (strip_prefix (rev x) (rev s)) as [r|] eqn:E;
    [intros _|discriminate].
  apply strip_prefix_some in E; exists (rev r).
  rewrite <- (rev_involutive s), E, rev_app_distr, rev_involutive.
  reflexivity.
Qed.

Lemma split_ends_with (x s1 : jsstring) : ends_with x (s1 ++ x) = true.
Proof.
  unfold ends_with; now rewrite rev_app_distr, strip_prefix_app.
Qed.

(** An interpolated value [m] between the end [x1] of the chunk before it
    and the beginning [x3] of the chunk after it. *)
Lemma contains_mid (x1 m x3 a b rest : jsstring) :
  ends_with x1 a = true ->
  strip_prefix x3 b <> None ->
  contains (x1 ++ m ++ x3) (a ++ m ++ b ++ rest).
Proof.
  intros Ha Hb; apply ends_with_split in Ha; destruct Ha as [a1 ->].
  destruct (strip_prefix x3 b) as [b'|] eqn:E; [|contradiction].
  apply strip_prefix_some in E; subst b.
  exists a1, (b' ++ rest); now rewrite <- !app_assoc.
Qed.

Lemma includes_complete (x s : jsstring) :
  contains x s -> includes x s = true.
Proof.
  intros (pre & post & ->); induction pre as [|c pre IH].
  - destruct (x ++ post) eqn:E; simpl; rewrite <- E, strip_prefix_app;
      reflexivity.
  - simpl app; cbn [includes].
    destruct (strip_prefix x (c :: pre ++ x ++ post)); [reflexivity|exact IH].
Qed.

Lemma includes_false (x s : jsstring) :
  includes x s = false -> ~ contains x s.
Proof. intros H C; apply includes_complete in C; congruence. Qed.

Lemma no_border_sound (s x x1 x2 s1 : jsstring) :
  no_border s x = true ->
  x = x1 ++ x2 -> x1 <> [] -> x2 <> [] -> s = s1 ++ x1 -> False.
Proof.
  unfold no_border; intros H -> H1 H2 ->.
  rewrite forallb_forall in H.
  specialize (H (length x1)).
  rewrite firstn_app, Nat.sub_diag, firstn_all, firstn_O, app_nil_r,
    split_ends_with in H.
  assert (Hin : In (length x1) (seq 1 (length (x1 ++ x2) - 1))).
  { apply in_seq; rewrite length_app.
    destruct x1; [contradiction|]; destruct x2; [contradiction|].
    simpl; lia. }
  apply H in Hin; discriminate Hin.
Qed.

(** An occurrence in [a ++ b] lies in [a], lies in [b], or starts in [a]
    and ends in [b]. *)
Lemma contains_app_cases (x a b : jsstring) :
  contains x (a ++ b) ->
  contains x a \/ contains x b
  \/ exists x1 x2 a1 b2,
       x = x1 ++ x2 /\ x1 <> [] /\ x2 <> [] /\ a = a1 ++ x1 /\ b = x2 ++ b2.
Proof.
  intros (pre & post & H).
  apply app_eq_app in H; destruct H as (l & [[Ha Hp]|[Hpre Hb]]).
  - symmetry in Hp; apply app_eq_app in Hp.
    destruct Hp as (l2 & [[Hl Hpost]|[Hx Hb]]).
    + left; exists pre, l2; now rewrite Ha, Hl.
    + destruct l as [|c l].
      * right; left; exists [], post; simpl in *; now rewrite Hb, <- Hx.
      * destruct l2 as [|c2 l2].
        -- left; exists pre, []; rewrite Ha, Hx, !app_nil_r; reflexivity.
        -- right; right; exists (c :: l), (c2 :: l2), pre, post.
           repeat split; auto; discriminate.
  - right; left; exists l, post; exact Hb.
Qed.

(** A constant chunk in front. *)
Lemma not_contains_const (x c b : jsstring) :
  includes x c = false -> no_border c x = true ->
  ~ contains x b -> ~ contains x (c ++ b).
Proof.
  intros Hc Hb Hn H; apply contains_app_cases in H.
  destruct H as [H|[H|(x1 & x2 & a1 & b2 & Hx & H1 & H2 & Ha & _)]].
  - now apply includes_false in Hc.
  - contradiction.
  - exact (no_border_sound _ Hb Hx H1 H2 Ha).
Qed.

(** A text supplied by the caller in front of a constant chunk whose first
    character does not occur in [x]. *)
Lemma not_contains_text (x t c b : jsstring) (h : N) :
  hd_error c = Some h -> existsb (N.eqb h) x = false ->
  ~ contains x t -> ~ contains x (c ++ b) -> ~ contains x (t ++ c ++ b).
Proof.
  intros Hh Hx Ht Hn H; apply contains_app_cases in H.
  destruct H as [H|[H|(x1 & x2 & a1 & b2 & Hx12 & H1 & H2 & _ & Hb)]];
    [contradiction|contradiction|].
  destruct c as [|h' c]; [discriminate|]; injection Hh as ->.
  destruct x2 as [|y x2]; [contradiction|].
  simpl in Hb; injection Hb as <- _.
  assert (Hin : existsb (N.eqb h) x = true).
  { apply existsb_exists; exists h; split; [|apply N.eqb_refl].
    rewrite Hx12; apply in_or_app; right; left; reflexivity. }
  congruence.
Qed.

End Occurrences.

(* ================================================================== *)
(** * The style configuration in the prompts *)
(* ================================================================== *)

Section Prompts.

Lemma contains_head (x post : jsstring) : contains x (x ++ post).
Proof. now exists [], post. Qed.

Lemma styleGuide_cases (level : DrawingLevel.t) :
  styleGuide level
  = match level with
    | DrawingLevel.low => styleGuideLow
    | DrawingLevel.medium => styleGuideMedium
    | DrawingLevel.high => styleGuideHigh
    end.
Proof. destruct level; vm_compute; reflexivity. Qed.

Lemma styleGuides_differ :
  styleGuideLow <> styleGuideMedium /\ styleGuideLow <> styleGuideHigh
  /\ styleGuideMedium <> styleGuideHigh.
Proof. repeat split; intros H; vm_compute in H; discriminate H. Qed.

Lemma imagePrompt_contains_guide scene title summary level :
  contains (styleGuide level) (imagePrompt scene title summary level).
Proof.
  unfold imagePrompt; do 11 apply contains_skip; apply contains_head.
Qed.

(** Walks along the chunks of a template: a text of the caller is free of
    the pattern by hypothesis, a constant chunk by evaluation. *)
Ltac exclude_occurrence :=
  repeat first
    [ eapply not_contains_text;
      [ vm_compute; reflexivity | vm_compute; reflexivity | assumption | ]
    | apply not_contains_const;
      [ vm_compute; reflexivity | vm_compute; reflexivity | ] ];
  apply includes_false; vm_compute; reflexivity.

Lemma imagePrompt_no_other_guide scene title summary level g :
  In g [styleGuideLow; styleGuideMedium; styleGuideHigh] ->
  g <> styleGuide level ->
  ~ contains g scene -> ~ contains g title -> ~ contains g summary ->
  ~ contains g (imagePrompt scene title summary level).
Proof.
  intros Hin Hneq Hscene Htitle Hsummary.
  rewrite styleGuide_cases in Hneq.
  unfold imagePrompt, effectiveDescription.
  destruct (truthy (trim scene)); rewrite <- ?app_assoc;
    destruct level; rewrite styleGuide_cases;
    destruct Hin as [<-|[<-|[<-|[]]]];
    try (lazymatch type of Hneq with ?a <> ?b => constr_eq a b end;
         exfalso; apply Hneq; reflexivity).
  all: exclude_occurrence.
Qed.

(** Looks for an interpolated value between the end of the chunk before
    it and the beginning of the chunk after it. *)
Ltac find_interpolation :=
  repeat first
    [ apply contains_mid;
      [ vm_compute; reflexivity | vm_compute; discriminate ]
    | apply contains_skip ].

Lemma analysisPrompt_contains url videoId manualTitle searchQuery
    summaryLength thoughtsLength writingGrade :
  let prompt := analysisPrompt url videoId manualTitle searchQuery
                  summaryLength thoughtsLength writingGrade in
  contains (js "Target Audience Level: Elementary School Grade "
            ++ of_Z writingGrade ++ js " (Korean Education System)") prompt
  /\ contains (js "WRITING STYLE & LEVEL (Grade "
               ++ of_Z writingGrade ++ js ")") prompt
  /\ contains (js "**Summary**: Approximately "
               ++ of_Z summaryLength ++ js " sentences.") prompt
  /\ contains (js "**Thoughts/Feelings**: Approximately "
               ++ of_Z thoughtsLength ++ js " sentences.") prompt
  /\ contains (js "줄거리: [A " ++ of_Z summaryLength
               ++ js "-sentence summary") prompt
  /\ contains (js "thought based on this specific video, approx "
               ++ of_Z thoughtsLength ++ js " sentences, written for Grade ")
       prompt.
Proof.
  cbv zeta; unfold analysisPrompt; repeat split; find_interpolation.
Qed.

Example imagePrompt_low :
  imagePrompt [] (js "T") (js "S") DrawingLevel.low
  = js "
    Context:
    Story Title: T
    Story Summary: S
    Target Style Level: low
    
    Request:
    Draw a SINGLE illustration for: " ++ dquote
    ++ js "The most representative and heartwarming scene from the story summary: S"
    ++ dquote ++ js "
    
    Style: Simple and cute art. Thick lines, bright primary colors, simple shapes, crayon or marker style, whimsical. Easy to understand for young children.
    
    CRITICAL RESTRICTIONS:
    1. DO NOT include any text, words, letters, or Hangul in the image. The image must be completely text-free.
    2. Draw EXACTLY ONE scene. Do not create a comic strip, multiple panels, or split screens.
    3. Focus on the main characters and action.
  ".
Proof. vm_compute; reflexivity. Qed.

(** An interpolated number from 0 to 9 is its decimal digit. *)
Lemma of_Z_digit (z : Z) : (0 <= z <= 9)%Z -> of_Z z = Digit.digit z.
Proof.
  intros H.
  assert (Hc : (z = 0 \/ z = 1 \/ z = 2 \/ z = 3 \/ z = 4 \/ z = 5 \/ z = 6
                \/ z = 7 \/ z = 8 \/ z = 9)%Z) by lia.
  destruct Hc as [->|[->|[->|[->|[->|[->|[->|[->|[->| ->]]]]]]]]];
    vm_compute; reflexivity.
Qed.

(** C5.  The drawing level selects the style guideline of the image
    prompt: low the simple crayon style, medium the standard watercolor
    style, the remaining level the high-quality artistic style; the prompt
    contains that guideline and, as long as the texts of the caller do not
    hold a guideline themselves, neither of the other two.  The analysis
    prompt contains the writing grade and the requested numbers of summary
    and thoughts sentences: the interpolated numbers in their labelled
    places, which for a grade from 1 to 6 and for counts of one digit (the
    form offers 2 to 5, the service defaults to 3) are the decimal digits
    themselves, and the texts "Grade 1" to "Grade 6" are all different. *)
Theorem prompts_carry_style_configuration :
  (forall level,
     styleGuide level
     = match level with
       | DrawingLevel.low => styleGuideLow
       | DrawingLevel.medium => styleGuideMedium
       | DrawingLevel.high => styleGuideHigh
       end)
  /\ (styleGuideLow <> styleGuideMedium /\ styleGuideLow <> styleGuideHigh
      /\ styleGuideMedium <> styleGuideHigh)
  /\ (forall scene title summary level,
        contains (styleGuide level)
          (contents (imageRequest scene title summary level)))
  /\ (forall scene title summary level g,
        In g [styleGuideLow; styleGuideMedium; styleGuideHigh] ->
        g <> styleGuide level ->
        ~ contains g scene -> ~ contains g title -> ~ contains g summary ->
        ~ contains g (contents (imageRequest scene title summary level)))
  /\ (forall env url summaryLength thoughtsLength writingGrade manualTitle,
        let prompt :=
          contents (analyzeRequest env url summaryLength thoughtsLength
                      writingGrade manualTitle) in
        contains (js "Target Audience Level: Elementary School Grade "
                  ++ of_Z writingGrade ++ js " (Korean Education System)")
          prompt
        /\ contains (js "WRITING STYLE & LEVEL (Grade "
                     ++ of_Z writingGrade ++ js ")") prompt
        /\ contains (js "**Summary**: Approximately "
                     ++ of_Z summaryLength ++ js " sentences.") prompt
        /\ contains (js "**Thoughts/Feelings**: Approximately "
                     ++ of_Z thoughtsLength ++ js " sentences.") prompt
        /\ contains (js "줄거리: [A " ++ of_Z summaryLength
                     ++ js "-sentence summary") prompt
        /\ contains (js "thought based on this specific video, approx "
                     ++ of_Z thoughtsLength
                     ++ js " sentences, written for Grade ") prompt)
  /\ (forall env url summaryLength thoughtsLength writingGrade manualTitle,
        WritingGrade.valid writingGrade ->
        (0 <= summaryLength <= 9)%Z -> (0 <= thoughtsLength <= 9)%Z ->
        let prompt :=
          contents (analyzeRequest env url summaryLength thoughtsLength
                      writingGrade manualTitle) in
        contains (js "Target Audience Level: Elementary School Grade "
                  ++ Digit.digit writingGrade
                  ++ js " (Korean Education System)") prompt
        /\ contains (js "WRITING STYLE & LEVEL (Grade "
                     ++ Digit.digit writingGrade ++ js ")") prompt
        /\ contains (js "**Summary**: Approximately "
                     ++ Digit.digit summaryLength ++ js " sentences.") prompt
        /\ contains (js "**Thoughts/Feelings**: Approximately "
                     ++ Digit.digit thoughtsLength ++ js " sentences.")
             prompt
        /\ contains (js "줄거리: [A " ++ Digit.digit summaryLength
                     ++ js "-sentence summary") prompt
        /\ contains (js "thought based on this specific video, approx "
                     ++ Digit.digit thoughtsLength
                     ++ js " sentences, written for Grade ") prompt)
  /\ (forall z, (0 <= z <= 9)%Z -> of_Z z = [Z.to_N (48 + z)])
  /\ (forall z z', (0 <= z <= 9)%Z -> (0 <= z' <= 9)%Z ->
        of_Z z = of_Z z' -> z = z').
Proof.
  split; [exact styleGuide_cases|].
  split; [exact styleGuides_differ|].
  split; [exact imagePrompt_contains_guide|].
  split; [exact imagePrompt_no_other_guide|].
  split.
  { intros env url summaryLength thoughtsLength writingGrade manualTitle.
    apply analysisPrompt_contains. }
  split.
  { intros env url summaryLength thoughtsLength writingGrade manualTitle
      Hg Hs Ht.
    assert (Hg' : (0 <= writingGrade <= 9)%Z)
      by (unfold WritingGrade.valid in Hg; lia).
    rewrite <- (of_Z_digit Hg'), <- (of_Z_digit Hs), <- (of_Z_digit Ht).
    apply analysisPrompt_contains. }
  split; [exact of_Z_digit|].
  intros z z' Hz Hz' H.
  rewrite (of_Z_digit Hz), (of_Z_digit Hz') in H.
  unfold Digit.digit in H.
  pose proof (f_equal (hd 0%N) H) as E.
  change (Z.to_N (48 + z) = Z.to_N (48 + z')) in E; lia.
Qed.

Lemma prompts_carry_style_configuration_witness :
  ~ contains styleGuideHigh
      (contents (imageRequest (js "the wolf at the door") (js "Three pigs")
                   (js "Three pigs build houses.") DrawingLevel.low))
  /\ contains
       (js "Target Audience Level: Elementary School Grade 4 (Korean Education System)")
       (contents (analyzeRequest answering_env
                    (js "https://youtu.be/dQw4w9WgXcQ") 3%Z 2%Z 4%Z None))
  /\ contains (js "줄거리: [A 3-sentence summary")
       (contents (analyzeRequest answering_env
                    (js "https://youtu.be/dQw4w9WgXcQ") 3%Z 2%Z 4%Z None))
  /\ contains
       (js "**Thoughts/Feelings**: Approximately 2 sentences.")
       (contents (analyzeRequest answering_env
                    (js "https://youtu.be/dQw4w9WgXcQ") 3%Z 2%Z 4%Z None)).
Proof.
  destruct prompts_carry_style_configuration
    as (_ & _ & _ & Hother & _ & Hdigits & _).
  split.
  - refine (Hother (js "the wolf at the door") (js "Three pigs")
              (js "Three pigs build houses.") DrawingLevel.low styleGuideHigh
              _ _ _ _ _).
    + right; right; left; reflexivity.
    + intros H; vm_compute in H; discriminate H.
    + apply includes_false; vm_compute; reflexivity.
    + apply includes_false; vm_compute; reflexivity.
    + apply includes_false; vm_compute; reflexivity.
  - assert (Hg : WritingGrade.valid 4%Z) by (unfold WritingGrade.valid; lia).
    assert (Hs : (0 <= 3 <= 9)%Z) by lia.
    assert (Ht : (0 <= 2 <= 9)%Z) by lia.
    destruct (Hdigits answering_env (js "https://youtu.be/dQw4w9WgXcQ")
                3%Z 2%Z 4%Z None Hg Hs Ht)
      as (H1 & _ & _ & H4 & H5 & _).
    cbv zeta in H1, H4, H5.
    split; [|split].
    + replace (js "Target Audience Level: Elementary School Grade 4 (Korean Education System)")
        with (js "Target Audience Level: Elementary School Grade "
              ++ Digit.digit 4 ++ js " (Korean Education System)")
        by (vm_compute; reflexivity).
      exact H1.
    + replace (js "줄거리: [A 3-sentence summary")
        with (js "줄거리: [A " ++ Digit.digit 3 ++ js "-sentence summary")
        by (vm_compute; reflexivity).
      exact H5.
    + replace (js "**Thoughts/Feelings**: Approximately 2 sentences.")
        with (js "**Thoughts/Feelings**: Approximately "
              ++ Digit.digit 2 ++ js " sentences.")
        by (vm_compute; reflexivity).
      exact H4.
Defined.

End Prompts.

(* ================================================================== *)
(** * The entry built by the workspace *)
(* ================================================================== *)

Section WorkspaceEntry.
Import StoryWorkspace.

Lemma placeholders_not_empty :
  truthy titlePlaceholder = true /\ truthy summaryPlaceholder = true
  /\ truthy textPlaceholder = true /\ truthy sceneCaption = true.
Proof. repeat split; vm_compute; reflexivity. Qed.

Lemma or_else_truthy (a b : jsstring) :
  truthy b = true -> truthy (or_else a b) = true.
Proof. unfold or_else; now destruct a. Qed.

Lemma or_else_empty (b : jsstring) : or_else [] b = b.
Proof. reflexivity. Qed.

Lemma or_else_kept (a b : jsstring) : truthy a = true -> or_else a b = a.
Proof. unfold or_else; now intros ->. Qed.

(** What [getCurrentEntry] does with the four texts: a text that is not
    empty is kept, an empty one is replaced by the literal of its field, and
    an empty scene text becomes the caption when an image was generated. *)
Lemma getCurrentEntry_texts (w : state) (generateId : jsstring) (now : Z) :
  let e := getCurrentEntry w generateId now in
  truthy (StoryEntry.title e) = true
  /\ truthy (StoryEntry.summary e) = true
  /\ truthy (StoryEntry.favoriteScene e) = true
  /\ truthy (StoryEntry.thoughts e) = true
  /\ StoryEntry.title e = or_else (title w) titlePlaceholder
  /\ StoryEntry.summary e = or_else (summary w) summaryPlaceholder
  /\ StoryEntry.thoughts e = or_else (thoughts w) textPlaceholder
  /\ StoryEntry.favoriteScene e
     = if truthy (favoriteScene w) then favoriteScene w
       else if truthy_opt (generatedImage w) then sceneCaption
       else textPlaceholder.
Proof.
  destruct placeholders_not_empty as (Ht & Hs & Hx & Hc).
  cbv zeta; unfold getCurrentEntry; cbn [StoryEntry.title StoryEntry.summary
    StoryEntry.favoriteScene StoryEntry.thoughts].
  repeat split; try (apply or_else_truthy; assumption).
  destruct (favoriteScene w) as [|c s]; cbn [truthy negb andb];
    [|reflexivity].
  destruct (truthy_opt (generatedImage w)); [|reflexivity].
  now apply or_else_kept.
Qed.

Lemma handleSaveEntry_In (entry : StoryEntry.t) (prev : list StoryEntry.t) :
  In entry (App.handleSaveEntry entry prev).
Proof.
  destruct (in_dec (list_eq_dec N.eq_dec) (StoryEntry.id entry) (App.ids prev))
    as [Hin|Hin].
  - rewrite (handleSaveEntry_present _ _ Hin).
    unfold App.ids in Hin; apply in_map_iff in Hin.
    destruct Hin as (e & He & Hin).
    apply in_map_iff; exists e; split; [|exact Hin].
    unfold App.same_id; rewrite He, str_eqb_refl; reflexivity.
  - rewrite (handleSaveEntry_absent _ _ Hin); left; reflexivity.
Qed.

(** C7.  The entry that [getCurrentEntry] builds, which is the entry drawn
    on the exported card and the entry handed to the store, carries the
    font family, font size, drawing level and writing grade that are
    selected at that moment. *)
Theorem getCurrentEntry_styleConfig
    (w : state) (generateId : jsstring) (now : Z)
    (entries : list StoryEntry.t) :
  StoryEntry.styleConfig (getCurrentEntry w generateId now)
  = Some {| StoryStyleConfig.fontFamily := fontFamily w;
            StoryStyleConfig.fontSize := fontSize w;
            StoryStyleConfig.drawingLevel := Some (drawingLevel w);
            StoryStyleConfig.writingGrade := Some (writingGrade w) |}
  /\ In (getCurrentEntry w generateId now)
        (handleDownloadImage true w generateId now entries).
Proof. split; [reflexivity|apply handleSaveEntry_In]. Qed.

Lemma getCurrentEntry_complete (w : state) (generateId : jsstring) (now : Z) :
  complete (getCurrentEntry w generateId now).
Proof.
  destruct (getCurrentEntry_texts w generateId now) as (H1 & H2 & H3 & H4 & _).
  repeat split; auto.
  now eexists _, (drawingLevel w), (writingGrade w).
Qed.

Lemma handleSaveEntry_Forall (P : StoryEntry.t -> Prop)
    (entry : StoryEntry.t) (prev : list StoryEntry.t) :
  P entry -> Forall P prev -> Forall P (App.handleSaveEntry entry prev).
Proof.
  intros He Hprev; unfold App.handleSaveEntry.
  destruct (App.find _ prev); [|now constructor].
  apply Forall_forall; intros e Hin; apply in_map_iff in Hin.
  destruct Hin as (e' & <- & Hin).
  destruct (str_eqb _ _); [exact He|].
  rewrite Forall_forall in Hprev; auto.
Qed.

Lemma handleDeleteEntry_Forall (P : StoryEntry.t -> Prop)
    (confirmed : bool) (id : jsstring) (prev : list StoryEntry.t) :
  Forall P prev -> Forall P (App.handleDeleteEntry confirmed id prev).
Proof.
  intros H; unfold App.handleDeleteEntry; destruct confirmed; [|exact H].
  rewrite Forall_forall in *; intros e He; apply filter_In in He.
  apply H; tauto.
Qed.

(** C6.  Every saved entry is one record with a title, a summary, a scene
    text and a thoughts text, none of them empty, a style configuration
    that holds all four components, and the creation time, and the image
    is its only component that may be absent: it is absent exactly when no
    image was generated.  This holds of every entry that the workspace
    builds, and so of every entry of every store that the application
    reaches, since the workspace is the only caller of the save handler.
    The record type alone would allow an entry without a style
    configuration; the card of such an entry would use the basic font in
    medium size. *)
Theorem saved_entry_components :
  (forall w generateId now,
     let e := getCurrentEntry w generateId now in
     complete e
     /\ StoryEntry.createdAt e = now
     /\ (StoryEntry.generatedImageUrl e = None
         <-> truthy_opt (generatedImage w) = false)
     /\ (truthy_opt (generatedImage w) = true ->
         StoryEntry.generatedImageUrl e = generatedImage w))
  /\ (forall s, app_reachable s ->
        Forall complete (App.entries s)
        /\ forall l, App.fairyTaleEntries s = Some l -> Forall complete l)
  /\ (forall entry prev, In entry (App.handleSaveEntry entry prev))
  /\ (forall entry,
        StoryEntry.styleConfig entry = None ->
        StoryCard.fontFamily entry = FontFamily.basic
        /\ StoryCard.fontSize entry = FontSize.medium).
Proof.
  split; [|split; [|split; [exact handleSaveEntry_In|]]].
  - intros w generateId now; cbv zeta.
    split; [apply getCurrentEntry_complete|].
    split; [reflexivity|].
    unfold getCurrentEntry, or_undefined; cbn [StoryEntry.generatedImageUrl].
    destruct (generatedImage w) as [[|c s]|]; cbn [truthy_opt truthy];
      repeat split; try reflexivity; discriminate.
  - intros s H; induction H as [|a s H [IHe IHs]];
      [split; [constructor|discriminate]|].
    destruct a as [| |canvasOk w generateId now|confirmed id];
      split; simpl; auto.
    + destruct (App.fairyTaleEntries s) as [l|]; auto.
    + intros l [= <-]; exact IHe.
    + unfold handleDownloadImage; destruct canvasOk; [|exact IHe].
      apply handleSaveEntry_Forall;
        [apply getCurrentEntry_complete|exact IHe].
    + now apply handleDeleteEntry_Forall.
  - intros entry H; unfold StoryCard.fontFamily, StoryCard.fontSize.
    now rewrite H.
Qed.

Lemma saved_entry_components_witness :
  Forall complete
    (App.entries
       (app_step (AppDownload true illustrated_workspace (js "id2") 7%Z)
          (app_step (AppDownload true blank_workspace (js "id1") 5%Z)
             App.initial)))
  /\ StoryEntry.generatedImageUrl
       (getCurrentEntry illustrated_workspace (js "id2") 7%Z)
     = Some (js "data:image/png;base64,QUJD")
  /\ StoryEntry.generatedImageUrl
       (getCurrentEntry blank_workspace (js "id1") 5%Z) = None.
Proof.
  destruct saved_entry_components as (Hentry & Hstore & _).
  split; [apply Hstore; do 2 apply app_next; apply app_init|].
  split.
  - apply (proj2 (proj2 (proj2 (Hentry illustrated_workspace (js "id2") 7%Z)))).
    reflexivity.
  - apply (proj1 (proj2 (proj2 (Hentry blank_workspace (js "id1") 5%Z)))).
    reflexivity.
Defined.


Example caption_before_placeholder :
  StoryEntry.favoriteScene
    (getCurrentEntry illustrated_workspace (js "id2") 7%Z) = sceneCaption.
Proof. vm_compute; reflexivity. Qed.

End WorkspaceEntry.

(* ================================================================== *)
(** * More on the service operations *)
(* ================================================================== *)

Section ServiceEdges.

(** X1.  Without an API key (none, or an empty one) each of the three
    operations rejects with "API Key not found", whatever the endpoint
    would have answered: the client is made before the try block, so this
    error is not replaced by the message of the operation. *)
Theorem missing_key_rejects_untranslated (env : Env) :
  truthy_opt (API_KEY env) = false ->
  (forall url sl tl g mt,
     analyzeStoryLink env url sl tl g mt
     = Rejected (Error (js "API Key not found")))
  /\ (forall scene title summary level,
        generateSceneImage env scene title summary level
        = Rejected (Error (js "API Key not found")))
  /\ (forall txt,
        generateStorySpeech env txt
        = Rejected (Error (js "API Key not found"))).
Proof.
  intros Hkey.
  assert (Hc : getClient env = Rejected (Error (js "API Key not found")))
    by (unfold getClient; now rewrite Hkey).
  repeat split; intros;
    unfold analyzeStoryLink, generateSceneImage, generateStorySpeech;
    now rewrite Hc.
Qed.

Lemma missing_key_rejects_untranslated_witness :
  generateStorySpeech
    {| API_KEY := Some [];
       generateContent :=
         fun _ => Resolved {| candidates := None; text := Some (js "ok") |};
       extractYouTubeId := fun _ => None |} (js "summary")
  = Rejected (Error (js "API Key not found")).
Proof.
  refine (proj2 (proj2 (missing_key_rejects_untranslated _ _)) _).
  reflexivity.
Defined.

Lemma extractImage_resolved (response : GenerateContentResponse)
    (v : jsstring) :
  extractImage response = Resolved v -> exists b, v = dataUrl b.
Proof.
  unfold extractImage.
  destruct (candidates response) as [[|c0 cs]|]; try discriminate.
  destruct (content c0) as [ct|]; [|discriminate].
  destruct (parts ct) as [ps|]; [|discriminate].
  destruct (firstInlineData ps) as [b|]; [|discriminate].
  intros [= <-]; now exists b.
Qed.

Lemma extractSpeech_resolved (response : GenerateContentResponse)
    (v : jsstring) :
  extractSpeech response = Resolved v ->
  firstAudioData response = Some v /\ truthy v = true.
Proof.
  unfold extractSpeech.
  destruct (firstAudioData response) as [[|c a]|]; simpl; try discriminate.
  intros [= <-]; split; reflexivity.
Qed.

Lemma or_default_truthy (o : option jsstring) (d : jsstring) :
  truthy d = true -> truthy (opt_or_else o d) = true.
Proof.
  intros Hd; destruct o as [[|c s]|]; simpl; auto.
Qed.

Lemma generateSceneImage_resolved (env : Env) scene title summary level v :
  generateSceneImage env scene title summary level = Resolved v ->
  exists b, v = dataUrl b.
Proof.
  unfold generateSceneImage.
  destruct (getClient env) as [ai|e]; simpl; [|discriminate].
  destruct (ai _) as [response|e]; simpl; [|discriminate].
  destruct (extractImage response) as [v'|e] eqn:E; [|discriminate].
  intros [= <-]; now apply extractImage_resolved in E.
Qed.

Lemma firstInlineData_first (ps : list Part) (b : Blob) :
  firstInlineData ps = Some b ->
  exists ps1 p ps2,
    ps = ps1 ++ p :: ps2 /\ inlineData p = Some b
    /\ Forall (fun q => inlineData q = None) ps1.
Proof.
  induction ps as [|p ps IH]; cbn [firstInlineData]; [discriminate|].
  destruct (inlineData p) as [b'|] eqn:E.
  - intros [= <-]; exists [], p, ps.
    split; [reflexivity|split; [exact E|constructor]].
  - intros H; destruct (IH H) as (ps1 & q & ps2 & -> & Hq & Hall).
    exists (p :: ps1), q, ps2.
    split; [reflexivity|split; [exact Hq|constructor; assumption]].
Qed.

(** X2.  An image that is returned is made of the first part with inline
    data of the first candidate of the answer to the image request: the
    text "data:", the media type of that part ("image/png" when the part
    names none or an empty one), ";base64," and the data of that part.
    Audio that is returned is the data of the first part of the first
    candidate of the answer to the speech request.  Neither operation
    ever resolves with an empty string. *)
Theorem service_results_not_empty (env : Env) :
  (forall scene title summary level v,
     generateSceneImage env scene title summary level = Resolved v ->
     truthy v = true
     /\ exists response c0 cs ct ps1 p ps2 b,
          generateContent env
            (imageRequest scene title summary
               (default DrawingLevel.low level)) = Resolved response
          /\ candidates response = Some (c0 :: cs)
          /\ content c0 = Some ct
          /\ parts ct = Some (ps1 ++ p :: ps2)
          /\ Forall (fun q => inlineData q = None) ps1
          /\ inlineData p = Some b
          /\ v = js "data:"
                 ++ match mimeType b with
                    | Some (c :: m) => c :: m
                    | _ => js "image/png"
                    end
                 ++ js ";base64,"
                 ++ match data b with
                    | Some d => d
                    | None => js "undefined"
                    end)
  /\ (forall txt v,
        generateStorySpeech env txt = Resolved v ->
        truthy v = true
        /\ exists response c0 cs ct p0 ps b,
             generateContent env (speechRequest txt) = Resolved response
             /\ candidates response = Some (c0 :: cs)
             /\ content c0 = Some ct
             /\ parts ct = Some (p0 :: ps)
             /\ inlineData p0 = Some b
             /\ data b = Some v).
Proof.
  split.
  - intros scene title summary level v H.
    split.
    { apply generateSceneImage_resolved in H; destruct H as [b ->].
      reflexivity. }
    revert H; unfold generateSceneImage, getClient.
    destruct (negb (truthy_opt (API_KEY env))); cbn [bind];
      [discriminate|].
    destruct (generateContent env _) as [response|e] eqn:Er;
      cbn [bind try_catch_throw]; [|discriminate].
    unfold extractImage.
    destruct (candidates response) as [[|c0 cs]|] eqn:Ec;
      cbn [try_catch_throw]; try discriminate.
    destruct (content c0) as [ct|] eqn:Ect; cbn [try_catch_throw];
      [|discriminate].
    destruct (parts ct) as [ps|] eqn:Ep; cbn [try_catch_throw];
      [|discriminate].
    destruct (firstInlineData ps) as [b|] eqn:Eb; cbn [try_catch_throw];
      [|discriminate].
    intros [= <-].
    destruct (firstInlineData_first _ Eb) as (ps1 & p & ps2 & -> & Hp & Hall).
    exists response, c0, cs, ct, ps1, p, ps2, b.
    repeat (split; [assumption || reflexivity|]).
    unfold dataUrl, opt_or_else, or_else, interpolate; cbv zeta.
    destruct (mimeType b) as [[|c m]|]; reflexivity.
  - intros txt v; unfold generateStorySpeech, getClient.
    destruct (negb (truthy_opt (API_KEY env))); cbn [bind];
      [discriminate|].
    destruct (generateContent env _) as [response|e] eqn:Er;
      cbn [bind try_catch_throw]; [|discriminate].
    destruct (extractSpeech response) as [v'|e] eqn:E; cbn [try_catch_throw];
      [|discriminate].
    intros [= <-]; apply extractSpeech_resolved in E; destruct E as [E Ht].
    split; [exact Ht|].
    unfold firstAudioData in E.
    destruct (candidates response) as [[|c0 cs]|] eqn:Ec; try discriminate.
    destruct (content c0) as [ct|] eqn:Ect; [|discriminate].
    destruct (parts ct) as [[|p0 ps]|] eqn:Ep; try discriminate.
    destruct (inlineData p0) as [b|] eqn:Eb; [|discriminate].
    exists response, c0, cs, ct, p0, ps, b.
    repeat (split; [assumption || reflexivity|]); exact E.
Qed.

Lemma service_results_not_empty_witness :
  truthy (js "data:image/png;base64,QUJD") = true
  /\ truthy (js "UklGRg==") = true.
Proof.
  split.
  - refine (proj1 (proj1 (service_results_not_empty answering_env)
                     (js "wolf") (js "Three pigs") (js "pigs") None
                     (js "data:image/png;base64,QUJD") _)).
    vm_compute; reflexivity.
  - refine (proj1 (proj2 (service_results_not_empty speaking_env)
                     (js "pigs") (js "UklGRg==") _)).
    vm_compute; reflexivity.
Defined.

End ServiceEdges.

(* ================================================================== *)
(** * More on trimming *)
(* ================================================================== *)

Section TrimFacts.
Import ParserSpec ResponseFormat.

Lemma take_drop_while (p : N -> bool) (s : jsstring) :
  take_while p s ++ drop_while p s = s.
Proof.
  induction s as [|x s IH]; simpl; [reflexivity|].
  destruct (p x); simpl; [now rewrite IH|reflexivity].
Qed.

Lemma drop_while_clean (s : jsstring) :
  starts_clean s -> drop_while is_space s = s.
Proof. destruct s as [|x s]; simpl; [reflexivity|now intros ->]. Qed.

Lemma drop_while_space_app (w s : jsstring) :
  forallb is_space w = true ->
  drop_while is_space (w ++ s) = drop_while is_space s.
Proof.
  induction w as [|x w IH]; simpl; [reflexivity|].
  intros H; apply andb_true_iff in H; destruct H as [-> H]; auto.
Qed.

Lemma drop_while_clean_app (s r : jsstring) :
  s <> [] -> starts_clean s -> drop_while is_space (s ++ r) = s ++ r.
Proof. destruct s as [|x s]; [contradiction|]; simpl; now intros _ ->. Qed.

Lemma trim_ends_clean (s : jsstring) : starts_clean (rev (trim s)).
Proof. unfold trim; rewrite rev_involutive; apply drop_while_head. Qed.

Lemma trim_starts_clean (s : jsstring) : starts_clean (trim s).
Proof.
  unfold trim.
  pose proof (drop_while_head is_space s) as Hu.
  pose proof (take_drop_while is_space (rev (drop_while is_space s))) as Hv.
  destruct (drop_while is_space (rev (drop_while is_space s))) as [|y v];
    [exact I|].
  apply (f_equal (@rev N)) in Hv; rewrite rev_app_distr, rev_involutive in Hv.
  rewrite <- Hv in Hu.
  destruct (rev (y :: v)) as [|z t] eqn:E; [exact I|exact Hu].
Qed.

Lemma trim_trimmed (s : jsstring) : trimmed (trim s).
Proof. split; [apply trim_starts_clean|apply trim_ends_clean]. Qed.

Lemma trimmed_trim (s : jsstring) : trimmed s -> trim s = s.
Proof.
  intros [H1 H2]; unfold trim.
  now rewrite (drop_while_clean _ H1), (drop_while_clean _ H2), rev_involutive.
Qed.

Lemma trim_fixed_iff (s : jsstring) : trim s = s <-> trimmed s.
Proof.
  split; [intros <-; apply trim_trimmed|apply trimmed_trim].
Qed.

Lemma trim_idempotent (s : jsstring) : trim (trim s) = trim s.
Proof. apply trimmed_trim, trim_trimmed. Qed.

Lemma trim_app_space (s w : jsstring) :
  trimmed s -> forallb is_space w = true -> trim (s ++ w) = s.
Proof.
  intros [H1 H2] Hw; destruct s as [|x s].
  - simpl; now apply trim_all_space.
  - unfold trim; rewrite drop_while_clean_app by (auto; discriminate).
    rewrite rev_app_distr, drop_while_space_app
      by (rewrite forallb_forall in *; intros c Hc; apply Hw, in_rev, Hc).
    now rewrite (drop_while_clean _ H2), rev_involutive.
Qed.

Lemma trim_space_app (w s : jsstring) :
  forallb is_space w = true -> trim (w ++ s) = trim s.
Proof. intros Hw; unfold trim; now rewrite drop_while_space_app. Qed.

Lemma truthy_trim (s : jsstring) :
  truthy (trim s) = existsb (fun c => negb (is_space c)) s.
Proof.
  destruct (existsb (fun c => negb (is_space c)) s) eqn:E.
  - pose proof (drop_while_nonempty is_space s E) as Hne.
    pose proof (drop_while_head is_space s) as Hh.
    assert (Ht : trim s = trim (drop_while is_space s)).
    { unfold trim; f_equal; f_equal; f_equal.
      symmetry; now apply drop_while_clean. }
    rewrite Ht, trim_truthy by exact Hh.
    destruct (drop_while is_space s); [contradiction|reflexivity].
  - rewrite trim_all_space; [reflexivity|].
    apply forallb_forall; intros c Hc.
    destruct (is_space c) eqn:Ec; [reflexivity|].
    assert (existsb (fun c => negb (is_space c)) s = true)
      by (apply existsb_exists; exists c; now rewrite Ec).
    congruence.
Qed.

(** [trim] cuts a piece out of its argument. *)
Lemma trim_piece (s : jsstring) : exists a b, s = a ++ trim s ++ b.
Proof.
  unfold trim.
  pose proof (take_drop_while is_space s) as H1.
  pose proof (take_drop_while is_space (rev (drop_while is_space s))) as H2.
  apply (f_equal (@rev N)) in H2; rewrite rev_app_distr, rev_involutive in H2.
  exists (take_while is_space s),
         (rev (take_while is_space (rev (drop_while is_space s)))).
  now rewrite H2.
Qed.

End TrimFacts.

(* ================================================================== *)
(** * The scene description of the image prompt *)
(* ================================================================== *)

Section SceneDescription.

Lemma effectiveDescription_blank (scene summary : jsstring) :
  forallb is_space scene = true ->
  effectiveDescription scene summary
  = js "The most representative and heartwarming scene from the story summary: "
    ++ summary.
Proof.
  unfold effectiveDescription; rewrite truthy_trim; intros H.
  assert (E : existsb (fun c => negb (is_space c)) scene = false).
  { destruct (existsb _ scene) eqn:E; [|reflexivity].
    apply existsb_exists in E; destruct E as (c & Hc & Hn).
    rewrite forallb_forall in H; rewrite (H c Hc) in Hn; discriminate. }
  now rewrite E.
Qed.

(** X3.  A scene description that is empty or holds white space only is
    replaced, in the image prompt, by a request for the most representative
    scene of the summary; a description with any other character is quoted
    as it was typed, white space at its ends included.  Either way the
    prompt holds the description between double quotes. *)
Theorem effectiveDescription_blank_or_verbatim
    (scene title summary : jsstring) (level : DrawingLevel.t) :
  (forallb is_space scene = true ->
   effectiveDescription scene summary
   = js "The most representative and heartwarming scene from the story summary: "
     ++ summary)
  /\ (existsb (fun c => negb (is_space c)) scene = true ->
      effectiveDescription scene summary = scene)
  /\ contains (js "Draw a SINGLE illustration for: " ++ dquote
               ++ effectiveDescription scene summary ++ dquote)
       (imagePrompt scene title summary level).
Proof.
  split; [apply effectiveDescription_blank|].
  unfold effectiveDescription; rewrite truthy_trim; split.
  - now intros ->.
  - unfold imagePrompt, effectiveDescription; rewrite truthy_trim.
    do 6 apply contains_skip.
    set (d := if existsb _ scene then _ else _).
    match goal with
    | |- contains _ (?c ++ dquote ++ d ++ dquote ++ ?rest) =>
      assert (Hc : ends_with (js "Draw a SINGLE illustration for: ") c = true)
        by (vm_compute; reflexivity);
      apply ends_with_split in Hc; destruct Hc as [c1 Hc]; rewrite Hc;
      exists c1, rest
    end.
    now rewrite <- !app_assoc.
Qed.

Lemma effectiveDescription_blank_or_verbatim_witness :
  effectiveDescription (js "  
 ") (js "Three pigs build houses.")
  = js "The most representative and heartwarming scene from the story summary: Three pigs build houses."
  /\ effectiveDescription (js " the wolf ") (js "Three pigs build houses.")
     = js " the wolf ".
Proof.
  split.
  - rewrite (proj1 (effectiveDescription_blank_or_verbatim (js "  
 ") [] (js "Three pigs build houses.") DrawingLevel.low))
      by (vm_compute; reflexivity).
    vm_compute; reflexivity.
  - apply (proj1 (proj2 (effectiveDescription_blank_or_verbatim
                           (js " the wolf ") [] (js "Three pigs build houses.")
                           DrawingLevel.low))).
    vm_compute; reflexivity.
Defined.

End SceneDescription.

(* ================================================================== *)
(** * The form *)
(* ================================================================== *)

Section Form.
Import FormActions FormLabels StoryForm.

Lemma analyzeStoryLink_rejections (env : Env) url sl tl g mt e :
  analyzeStoryLink env url sl tl g mt = Rejected e ->
  e = Error analyzeError \/ e = Error (js "API Key not found").
Proof.
  unfold analyzeStoryLink, getClient.
  destruct (negb (truthy_opt (API_KEY env))); simpl.
  - intros [= <-]; now right.
  - intros H; apply try_catch_throw_rejected in H; now left.
Qed.

Lemma analyzeStoryLink_resolved (env : Env) url sl tl g mt r :
  analyzeStoryLink env url sl tl g mt = Resolved r ->
  exists response,
    generateContent env
      (analyzeRequest env url (default 3%Z sl) (default 3%Z tl)
         (default 1%Z g) mt) = Resolved response
    /\ r = parseResponse (opt_or_else (text response) []) mt.
Proof.
  unfold analyzeStoryLink, getClient.
  destruct (negb (truthy_opt (API_KEY env))); simpl; [discriminate|].
  destruct (generateContent env _) as [response|e]; simpl; [|discriminate].
  intros [= <-]; now exists response.
Qed.

Lemma handleAnalyze_no_link (env : Env) (engineText : jsstring)
    (grade : WritingGrade.t) (f : form) :
  truthy (url f) = false ->
  handleAnalyze env engineText grade f
  = ({| url := url f; searchQuery := searchQuery f;
        summaryLength := summaryLength f; thoughtsLength := thoughtsLength f;
        isAnalyzing := isAnalyzing f; error := Some enterLinkError |}, None).
Proof. intros H; unfold handleAnalyze; now rewrite H. Qed.

Lemma handleAnalyze_bad_link (env : Env) (engineText : jsstring)
    (grade : WritingGrade.t) (f : form) :
  truthy (url f) = true ->
  truthy_opt (extractYouTubeId env (url f)) = false ->
  handleAnalyze env engineText grade f
  = ({| url := url f; searchQuery := searchQuery f;
        summaryLength := summaryLength f; thoughtsLength := thoughtsLength f;
        isAnalyzing := isAnalyzing f; error := Some badLinkError |}, None).
Proof. intros H1 H2; unfold handleAnalyze; now rewrite H1, H2. Qed.

Lemma handleAnalyze_success (env : Env) (engineText : jsstring)
    (grade : WritingGrade.t) (f : form) (vid : jsstring)
    (r : YouTubeAnalysisResult.t) :
  truthy (url f) = true ->
  extractYouTubeId env (url f) = Some vid ->
  truthy vid = true ->
  analyzeStoryLink env (url f) (Some (summaryLength f))
    (Some (thoughtsLength f)) (Some grade) None = Resolved r ->
  handleAnalyze env engineText grade f
  = ({| url := url f; searchQuery := searchQuery f;
        summaryLength := summaryLength f; thoughtsLength := thoughtsLength f;
        isAnalyzing := false; error := None |},
     Some {| doneVideoId := or_else vid []; doneUrl := url f;
             doneResult := r |}).
Proof.
  intros H1 H2 H3 H4; unfold handleAnalyze.
  rewrite H1, H2; cbn [truthy_opt negb opt_or_else]; now rewrite H3, H4.
Qed.

Lemma handleAnalyze_failure (env : Env) (engineText : jsstring)
    (grade : WritingGrade.t) (f : form) (vid : jsstring) (e : exn) :
  truthy (url f) = true ->
  extractYouTubeId env (url f) = Some vid ->
  truthy vid = true ->
  analyzeStoryLink env (url f) (Some (summaryLength f))
    (Some (thoughtsLength f)) (Some grade) None = Rejected e ->
  handleAnalyze env engineText grade f
  = ({| url := url f; searchQuery := searchQuery f;
        summaryLength := summaryLength f; thoughtsLength := thoughtsLength f;
        isAnalyzing := false; error := Some (message engineText e) |}, None).
Proof.
  intros H1 H2 H3 H4; unfold handleAnalyze.
  rewrite H1, H2; cbn [truthy_opt negb opt_or_else]; now rewrite H3, H4.
Qed.

(** Looks for an interpolated value between the end of the chunk before
    it and the beginning of the chunk after it. *)
Ltac locate_interpolation :=
  repeat first
    [ apply contains_mid;
      [ vm_compute; reflexivity | vm_compute; discriminate ]
    | apply contains_skip ].

(** X4.  [handleAnalyze] asks for an analysis only when a link was typed
    and a video identifier was found in it: otherwise it shows its own
    message ("enter a link" for an empty link, "not a YouTube link" when no
    identifier is found), changes nothing else, starts nothing, and its
    outcome does not depend on the service.  The message it can show is
    one of four.  When the service resolves it clears the error, ends the
    analysis and hands on the identifier found in the link, the link, and
    the parsed response of a request whose title hint is "None" (the form
    passes no manual title) and whose search query is the quoted
    identifier restricted to youtube.com; when the service rejects it
    shows the message of the rejection and hands on nothing. *)
Theorem handleAnalyze_outcomes (env : Env) (engineText : jsstring)
    (grade : WritingGrade.t) (f : form) :
  (truthy (url f) = false \/ truthy_opt (extractYouTubeId env (url f)) = false ->
   snd (handleAnalyze env engineText grade f) = None
   /\ isAnalyzing (fst (handleAnalyze env engineText grade f))
      = isAnalyzing f
   /\ forall env',
        extractYouTubeId env' = extractYouTubeId env ->
        handleAnalyze env' engineText grade f
        = handleAnalyze env engineText grade f)
  /\ (forall m,
        error (fst (handleAnalyze env engineText grade f)) = Some m ->
        snd (handleAnalyze env engineText grade f) = None
        /\ (m = enterLinkError \/ m = badLinkError \/ m = analyzeError
            \/ m = js "API Key not found"))
  /\ (forall c,
        snd (handleAnalyze env engineText grade f) = Some c ->
        error (fst (handleAnalyze env engineText grade f)) = None
        /\ isAnalyzing (fst (handleAnalyze env engineText grade f)) = false
        /\ doneUrl c = url f
        /\ truthy (doneVideoId c) = true
        /\ extractYouTubeId env (url f) = Some (doneVideoId c)
        /\ exists response,
             generateContent env
               (analyzeRequest env (url f) (summaryLength f)
                  (thoughtsLength f) grade None) = Resolved response
             /\ doneResult c
                = parseResponse (opt_or_else (text response) []) None
             /\ contains
                  (js "- User Provided Title Hint: " ++ js "None"
                   ++ js "
    - Search Query to use: ")
                  (contents (analyzeRequest env (url f) (summaryLength f)
                               (thoughtsLength f) grade None))
             /\ contains
                  (js "- Search Query to use: "
                   ++ (js "site:youtube.com " ++ dquote ++ doneVideoId c
                       ++ dquote)
                   ++ js "
    - Target Audience Level: ")
                  (contents (analyzeRequest env (url f) (summaryLength f)
                               (thoughtsLength f) grade None)))
  /\ (truthy (url f) = false ->
      handleAnalyze env engineText grade f
      = ({| url := url f; searchQuery := searchQuery f;
            summaryLength := summaryLength f;
            thoughtsLength := thoughtsLength f;
            isAnalyzing := isAnalyzing f; error := Some enterLinkError |},
         None))
  /\ (truthy (url f) = true ->
      truthy_opt (extractYouTubeId env (url f)) = false ->
      handleAnalyze env engineText grade f
      = ({| url := url f; searchQuery := searchQuery f;
            summaryLength := summaryLength f;
            thoughtsLength := thoughtsLength f;
            isAnalyzing := isAnalyzing f; error := Some badLinkError |},
         None))
  /\ (forall vid r,
        truthy (url f) = true ->
        extractYouTubeId env (url f) = Some vid -> truthy vid = true ->
        analyzeStoryLink env (url f) (Some (summaryLength f))
          (Some (thoughtsLength f)) (Some grade) None = Resolved r ->
        handleAnalyze env engineText grade f
        = ({| url := url f; searchQuery := searchQuery f;
              summaryLength := summaryLength f;
              thoughtsLength := thoughtsLength f;
              isAnalyzing := false; error := None |},
           Some {| doneVideoId := vid; doneUrl := url f; doneResult := r |}))
  /\ (forall vid e,
        truthy (url f) = true ->
        extractYouTubeId env (url f) = Some vid -> truthy vid = true ->
        analyzeStoryLink env (url f) (Some (summaryLength f))
          (Some (thoughtsLength f)) (Some grade) None = Rejected e ->
        handleAnalyze env engineText grade f
        = ({| url := url f; searchQuery := searchQuery f;
              summaryLength := summaryLength f;
              thoughtsLength := thoughtsLength f;
              isAnalyzing := false;
              error := Some (message engineText e) |}, None)).
Proof.
  split; [|split; [|split; [|split; [|split; [|split]]]]];
    [| | |apply handleAnalyze_no_link
     |apply handleAnalyze_bad_link
     |intros vid r Hu Ev Hv E;
      rewrite (@handleAnalyze_success env engineText grade f vid r Hu Ev Hv E);
      now rewrite (@or_else_kept vid [] Hv)
     |intros vid e; apply handleAnalyze_failure].
  - intros H.
    destruct (truthy (url f)) eqn:Hu.
    + destruct H as [H|H]; [discriminate|].
      rewrite (@handleAnalyze_bad_link env engineText grade f Hu H).
      repeat split; intros env' Hx.
      apply handleAnalyze_bad_link; [exact Hu|now rewrite Hx].
    + rewrite (@handleAnalyze_no_link env engineText grade f Hu).
      repeat split; intros env' Hx.
      now apply handleAnalyze_no_link.
  - intros m Hm.
    destruct (truthy (url f)) eqn:Hu;
      [|rewrite (@handleAnalyze_no_link env engineText grade f Hu) in Hm |- *;
        cbn [fst snd error] in Hm |- *; injection Hm as <-;
        split; [reflexivity|left; reflexivity]].
    destruct (truthy_opt (extractYouTubeId env (url f))) eqn:Hv;
      [|rewrite (@handleAnalyze_bad_link env engineText grade f Hu Hv)
          in Hm |- *;
        cbn [fst snd error] in Hm |- *; injection Hm as <-;
        split; [reflexivity|right; left; reflexivity]].
    destruct (extractYouTubeId env (url f)) as [vid|] eqn:Ev;
      [|discriminate Hv].
    destruct (analyzeStoryLink env (url f) (Some (summaryLength f))
                (Some (thoughtsLength f)) (Some grade) None) as [r|e] eqn:E.
    + rewrite (@handleAnalyze_success env engineText grade f vid r Hu Ev Hv E) in Hm.
      cbn [fst snd error] in Hm; discriminate Hm.
    + rewrite (@handleAnalyze_failure env engineText grade f vid e Hu Ev Hv E)
        in Hm |- *.
      cbn [fst snd error] in Hm |- *; injection Hm as <-; split; [reflexivity|].
      apply analyzeStoryLink_rejections in E; destruct E as [-> | ->];
        cbn [message];
        [right; right; left; reflexivity|right; right; right; reflexivity].
  - intros c Hdone.
    destruct (truthy (url f)) eqn:Hu;
      [|rewrite (@handleAnalyze_no_link env engineText grade f Hu) in Hdone;
        cbn [fst snd] in Hdone; discriminate Hdone].
    destruct (truthy_opt (extractYouTubeId env (url f))) eqn:Hv;
      [|rewrite (@handleAnalyze_bad_link env engineText grade f Hu Hv)
          in Hdone; cbn [fst snd] in Hdone; discriminate Hdone].
    destruct (extractYouTubeId env (url f)) as [vid|] eqn:Ev;
      [cbn [truthy_opt] in Hv|discriminate Hv].
    destruct (analyzeStoryLink env (url f) (Some (summaryLength f))
                (Some (thoughtsLength f)) (Some grade) None) as [r|e] eqn:E.
    + rewrite (@handleAnalyze_success env engineText grade f vid r Hu Ev Hv E)
        in Hdone |- *.
      cbn [fst snd] in Hdone |- *; injection Hdone as <-.
      cbn [error isAnalyzing doneUrl doneVideoId doneResult].
      rewrite (@or_else_kept vid [] Hv).
      split; [reflexivity|]; split; [reflexivity|]; split; [reflexivity|].
      split; [exact Hv|]; split; [reflexivity|].
      apply analyzeStoryLink_resolved in E; destruct E as (response & Hc & Hr).
      cbn [default] in Hc; exists response.
      split; [exact Hc|split; [exact Hr|]].
      unfold analyzeRequest; cbn [contents]; rewrite Ev.
      unfold analysisPrompt, searchQueryOf;
        cbn [truthy_opt opt_or_else]; rewrite Hv.
      rewrite (@or_else_kept vid [] Hv).
      split; locate_interpolation.
    + rewrite (@handleAnalyze_failure env engineText grade f vid e Hu Ev Hv E)
        in Hdone.
      cbn [fst snd] in Hdone; discriminate Hdone.
Qed.

Lemma handleAnalyze_outcomes_witness :
  snd (handleAnalyze failing_env (js "TypeError") 1%Z empty_form) = None
  /\ FormActions.error
       (fst (handleAnalyze answering_env (js "TypeError") 1%Z linked_form))
     = None.
Proof.
  split.
  - refine (proj1 (proj1 (handleAnalyze_outcomes failing_env (js "TypeError")
                            1%Z empty_form) _)).
    left; reflexivity.
  - refine (proj1 (proj1 (proj2 (proj2 (handleAnalyze_outcomes answering_env
              (js "TypeError") 1%Z linked_form)))
              {| doneVideoId := js "dQw4w9WgXcQ";
                 doneUrl := js "https://youtu.be/dQw4w9WgXcQ";
                 doneResult := parseResponse good_text None |} _)).
    vm_compute; reflexivity.
Defined.

End Form.

(* ================================================================== *)
(** * Labels, classes and the search address *)
(* ================================================================== *)

Section LabelsAndClasses.
Import FormLabels StoryForm StoryWorkspace.

Ltac by_cases H := vm_compute in H; discriminate H.

(** X5.  The labels of the four style buttons tell the options apart:
    two font families, two font sizes, two drawing levels or two grades
    between 1 and 6 with the same label are the same option; so every
    press of a toggle changes the label that its button shows. *)
Theorem labels_identify_options :
  (forall a b, getFontFamilyName a = getFontFamilyName b -> a = b)
  /\ (forall a b, getFontSizeName a = getFontSizeName b -> a = b)
  /\ (forall a b, getDrawingLevelName a = getDrawingLevelName b -> a = b)
  /\ (forall a b, WritingGrade.valid a -> WritingGrade.valid b ->
                  getWritingGradeName a = getWritingGradeName b -> a = b)
  /\ (forall a b, toggleFontFamily a = Some b ->
                  getFontFamilyName b <> getFontFamilyName a)
  /\ (forall a b, toggleFontSize a = Some b ->
                  getFontSizeName b <> getFontSizeName a)
  /\ (forall a b, toggleDrawingLevel a = Some b ->
                  getDrawingLevelName b <> getDrawingLevelName a)
  /\ (forall a, WritingGrade.valid a ->
                getWritingGradeName (toggleWritingGrade a)
                <> getWritingGradeName a).
Proof.
  assert (Hg : forall a, WritingGrade.valid a ->
                 (a = 1 \/ a = 2 \/ a = 3 \/ a = 4 \/ a = 5 \/ a = 6)%Z)
    by (unfold WritingGrade.valid; intros; lia).
  split; [|split; [|split; [|split; [|split; [|split; [|split]]]]]].
  - intros a b H; destruct a, b; try reflexivity; by_cases H.
  - intros a b H; destruct a, b; try reflexivity; by_cases H.
  - intros a b H; destruct a, b; try reflexivity; by_cases H.
  - intros a b Ha Hb H.
    destruct (Hg a Ha) as [->|[->|[->|[->|[->| ->]]]]];
      destruct (Hg b Hb) as [->|[->|[->|[->|[->| ->]]]]];
      try reflexivity; by_cases H.
  - intros a b Ht H; destruct a; injection Ht as <-; by_cases H.
  - intros a b Ht H; destruct a; injection Ht as <-; by_cases H.
  - intros a b Ht H; destruct a; injection Ht as <-; by_cases H.
  - intros a Ha H.
    destruct (Hg a Ha) as [->|[->|[->|[->|[->| ->]]]]]; by_cases H.
Qed.

Lemma labels_identify_options_witness :
  getFontFamilyName FontFamily.cute <> getFontFamilyName FontFamily.basic
  /\ getWritingGradeName (toggleWritingGrade 6%Z) <> getWritingGradeName 6%Z.
Proof.
  destruct labels_identify_options as (_ & _ & _ & _ & Hf & _ & _ & Hg).
  split; [apply Hf; reflexivity|apply Hg; unfold WritingGrade.valid; lia].
Defined.



Lemma medium_row (table : SizeTable.t) (baseClass : jsstring) :
  Forall (fun kr => snd kr FontSize.medium = fst kr) table ->
  opt_or_else (SizeTable.cell baseClass FontSize.medium table) baseClass
  = baseClass.
Proof.
  unfold SizeTable.cell; induction table as [|[k r] table IH]; intros H;
    [reflexivity|].
  inversion H as [|? ? Hk Ht]; subst; cbn [SizeTable.row].
  destruct (str_eqb k baseClass) eqn:E; [|exact (IH Ht)].
  apply str_eqb_eq in E; subst k; cbn [fst snd] in Hk; rewrite Hk.
  cbn [opt_or_else]; unfold or_else; now destruct (truthy baseClass).
Qed.

(** X7.  The medium font size leaves every class of the card as it is,
    whatever the class; a class that the size table of the card does not
    list is left as it is at every font size; and for the eight classes
    that the table lists, the five font sizes give five different
    classes. *)
Theorem getSizeClass_rows :
  (forall baseClass,
     CardClasses.getSizeClass FontSize.medium baseClass = baseClass)
  /\ (forall baseClass fontSize,
        ~ In baseClass (map fst CardClasses.sizeMap) ->
        CardClasses.getSizeClass fontSize baseClass = baseClass)
  /\ (forall baseClass s1 s2,
        In baseClass (map fst CardClasses.sizeMap) ->
        CardClasses.getSizeClass s1 baseClass
        = CardClasses.getSizeClass s2 baseClass ->
        s1 = s2).
Proof.
  split; [|split].
  - intros baseClass; apply medium_row.
    unfold CardClasses.sizeMap; repeat constructor.
  - intros baseClass fontSize Hnot; unfold CardClasses.getSizeClass.
    assert (Hrow : forall table,
              ~ In baseClass (map fst table) ->
              SizeTable.row baseClass table = None).
    { induction table as [|[k r] table IH]; [reflexivity|].
      cbn [map fst In SizeTable.row]; intros Hn.
      destruct (str_eqb k baseClass) eqn:E.
      - apply str_eqb_eq in E; tauto.
      - apply IH; tauto. }
    unfold SizeTable.cell; now rewrite (Hrow _ Hnot).
  - intros baseClass s1 s2 Hin H.
    cbn [map fst CardClasses.sizeMap In] in Hin.
    repeat (destruct Hin as [<-|Hin]);
      try contradiction;
      destruct s1, s2; try reflexivity; by_cases H.
Qed.

Lemma getSizeClass_rows_witness :
  CardClasses.getSizeClass FontSize.x_large (js "text-[13px]")
  = js "text-[13px]".
Proof.
  apply (proj1 (proj2 getSizeClass_rows)).
  vm_compute; intuition discriminate.
Defined.

End LabelsAndClasses.

(* ================================================================== *)
(** * The search address *)
(* ================================================================== *)

Section Search.
Import FormActions.

Lemma take_while_all (p : N -> bool) (s : jsstring) :
  forallb p (take_while p s) = true.
Proof.
  induction s as [|x s IH]; simpl; [reflexivity|].
  destruct (p x) eqn:E; simpl; [now rewrite E|reflexivity].
Qed.

Lemma forallb_rev (p : N -> bool) (s : jsstring) :
  forallb p s = true -> forallb p (rev s) = true.
Proof.
  rewrite !forallb_forall; intros H c Hc; apply H, in_rev, Hc.
Qed.

(** White space around a text does not change what [trim] gives. *)
Lemma trim_pad (w1 q w2 : jsstring) :
  forallb is_space w1 = true -> forallb is_space w2 = true ->
  trim (w1 ++ q ++ w2) = trim q.
Proof.
  intros H1 H2; rewrite (@trim_space_app w1 (q ++ w2) H1).
  pose proof (take_drop_while is_space q) as Ha.
  pose proof (take_drop_while is_space (rev (drop_while is_space q))) as Hb.
  apply (f_equal (@rev N)) in Hb; rewrite rev_app_distr, rev_involutive in Hb.
  fold (trim q) in Hb.
  rewrite <- Ha at 1; rewrite <- Hb, <- !app_assoc.
  rewrite trim_space_app by apply take_while_all.
  apply trim_app_space; [apply trim_trimmed|].
  rewrite forallb_app, H2, andb_true_r.
  apply forallb_rev, take_while_all.
Qed.

(** X8.  The search address depends on the trimmed query only: white
    space typed around the query does not change it, a query of white
    space alone (or none) opens the fixed children's-story search, and any
    other query is encoded behind the words that restrict the search to
    children's stories. *)
Theorem handleSearchYouTube_trims (encodeURIComponent : jsstring -> jsstring)
    (f : form) :
  (forall f' w1 w2,
     forallb is_space w1 = true -> forallb is_space w2 = true ->
     searchQuery f' = w1 ++ searchQuery f ++ w2 ->
     handleSearchYouTube encodeURIComponent f'
     = handleSearchYouTube encodeURIComponent f)
  /\ (forallb is_space (searchQuery f) = true ->
      handleSearchYouTube encodeURIComponent f
      = js "https://www.youtube.com/results?search_query=어린이+동화")
  /\ (existsb (fun c => negb (is_space c)) (searchQuery f) = true ->
      handleSearchYouTube encodeURIComponent f
      = js "https://www.youtube.com/results?search_query="
        ++ encodeURIComponent (js "어린이 동화 " ++ trim (searchQuery f))).
Proof.
  unfold handleSearchYouTube; split; [|split].
  - intros f' w1 w2 H1 H2 ->; now rewrite trim_pad.
  - intros H; now rewrite (@trim_all_space _ H).
  - intros H; now rewrite truthy_trim, H.
Qed.

Lemma handleSearchYouTube_trims_witness :
  handleSearchYouTube (fun s => s) linked_form
  = js "https://www.youtube.com/results?search_query=어린이 동화 아기 돼지"
  /\ handleSearchYouTube (fun s => s) empty_form
     = js "https://www.youtube.com/results?search_query=어린이+동화".
Proof.
  split.
  - rewrite (proj2 (proj2 (handleSearchYouTube_trims (fun s => s) linked_form)))
      by (vm_compute; reflexivity).
    vm_compute; reflexivity.
  - apply (proj1 (proj2 (handleSearchYouTube_trims (fun s => s) empty_form))).
    vm_compute; reflexivity.
Defined.

End Search.

(* ================================================================== *)
(** * The life of the workspace *)
(* ================================================================== *)

Section Session.
Import StoryWorkspace WorkspaceSession.

Lemma handleDrawScene_cases (env : Env) (engineText : jsstring) (v : view) :
  (truthy (favoriteScene (fields v)) = false
   /\ truthy (summary (fields v)) = false
   /\ handleDrawScene env engineText v
      = {| fields := fields v; error := Some nothingToDrawError;
           isPreviewMode := isPreviewMode v |})
  \/ (exists img,
        generateSceneImage env (favoriteScene (fields v)) (title (fields v))
          (summary (fields v)) (Some (drawingLevel (fields v)))
        = Resolved img
        /\ handleDrawScene env engineText v = setImage (Some img) None v)
  \/ (exists e,
        generateSceneImage env (favoriteScene (fields v)) (title (fields v))
          (summary (fields v)) (Some (drawingLevel (fields v)))
        = Rejected e
        /\ handleDrawScene env engineText v
           = setImage (generatedImage (fields v))
               (Some (FormActions.message engineText e)) v).
Proof.
  unfold handleDrawScene.
  destruct (truthy (favoriteScene (fields v))) eqn:E1;
    [|destruct (truthy (summary (fields v))) eqn:E2];
    cbn [negb andb]; [| |left; auto];
    (destruct (generateSceneImage env _ _ _ _) as [img|e];
     [right; left; now exists img|right; right; now exists e]).
Qed.

Lemma session_inv_reachable (v : view) : reachable v -> session_inv v.
Proof.
  intros H; induction H as [a|e v H [IH1 IH2]].
  - split; [reflexivity|discriminate].
  - destruct e as [d|a|i s| |env engineText|on|err];
      cbn [handle loadDraft withProps setText setImage fields loadedId
           generatedImage]; try (split; [assumption || reflexivity|]; auto;
                                 discriminate).
    destruct (handleDrawScene_cases env engineText v)
      as [(_ & _ & ->)|[(img & Himg & ->)|(e & _ & ->)]];
      cbn [setImage fields loadedId generatedImage]; split; auto.
    intros img' [= <-].
    apply generateSceneImage_resolved in Himg; destruct Himg as [b ->].
    reflexivity.
Qed.

(** X9.  In every state that the workspace reaches the loaded identifier
    is null, so the entry it builds always carries the identifier that
    generateId returned, never one kept from an earlier draft or save, and
    its image is exactly the generated image of the state.  Whether a save
    adds or replaces therefore depends on that identifier alone: under an
    identifier that the list does not hold the entry is put in front of
    the list, and under one that the list holds it takes the place of the
    entries with that identifier, nothing else changing. *)
Theorem workspace_saves_under_new_id (v : view) :
  reachable v ->
  forall generateId now entries,
    let e := getCurrentEntry (fields v) generateId now in
    StoryEntry.id e = generateId
    /\ StoryEntry.generatedImageUrl e = generatedImage (fields v)
    /\ (~ In generateId (App.ids entries) ->
        handleDownloadImage true (fields v) generateId now entries
        = e :: entries)
    /\ (In generateId (App.ids entries) ->
        handleDownloadImage true (fields v) generateId now entries
        = map (fun x => if str_eqb (StoryEntry.id x) generateId
                        then e else x) entries)
    /\ handleDownloadImage false (fields v) generateId now entries = entries.
Proof.
  intros H generateId now entries; cbv zeta.
  destruct (session_inv_reachable H) as [Hid Himg].
  assert (He : StoryEntry.id (getCurrentEntry (fields v) generateId now)
               = generateId).
  { unfold getCurrentEntry; cbn [StoryEntry.id]; now rewrite Hid. }
  split; [exact He|split; [|split; [|split; [|reflexivity]]]].
  - unfold getCurrentEntry, or_undefined; cbn [StoryEntry.generatedImageUrl].
    destruct (generatedImage (fields v)) as [img|]; [|reflexivity].
    cbn [truthy_opt]; now rewrite (Himg img eq_refl).
  - intros Hnew; unfold handleDownloadImage.
    apply handleSaveEntry_absent; now rewrite He.
  - intros Hold; unfold handleDownloadImage.
    rewrite handleSaveEntry_present by (now rewrite He).
    apply map_ext; intros x; unfold App.same_id; now rewrite He.
Qed.

Lemma workspace_saves_under_new_id_witness :
  length
    (handleDownloadImage true
       (fields (handle (Type_ TitleInput (js "Three pigs"))
                  (handle (NewDraft
                             {| AppFlow.draftVideoId := js "dQw4w9WgXcQ";
                                AppFlow.draftUrl :=
                                  js "https://youtu.be/dQw4w9WgXcQ";
                                AppFlow.analysis := ResponseFormat.three_pigs |})
                     (mounted AppFlow.initialApp))))
       (js "id2") 9%Z [sample_entry "id1" "one"]) = 2
  /\ length
       (handleDownloadImage true
          (fields (handle (Type_ TitleInput (js "Three pigs"))
                     (handle (NewDraft
                                {| AppFlow.draftVideoId := js "dQw4w9WgXcQ";
                                   AppFlow.draftUrl :=
                                     js "https://youtu.be/dQw4w9WgXcQ";
                                   AppFlow.analysis :=
                                     ResponseFormat.three_pigs |})
                        (mounted AppFlow.initialApp))))
          (js "id1") 9%Z [sample_entry "id1" "one"]) = 1.
Proof.
  pose proof (@workspace_saves_under_new_id _
                (reachable_event (Type_ TitleInput (js "Three pigs"))
                   (reachable_event
                      (NewDraft
                         {| AppFlow.draftVideoId := js "dQw4w9WgXcQ";
                            AppFlow.draftUrl :=
                              js "https://youtu.be/dQw4w9WgXcQ";
                            AppFlow.analysis := ResponseFormat.three_pigs |})
                      (reachable_mounted AppFlow.initialApp)))) as H.
  split.
  - rewrite (proj1 (proj2 (proj2 (H (js "id2") 9%Z
                                    [sample_entry "id1" "one"])))).
    + reflexivity.
    + vm_compute; intuition discriminate.
  - rewrite (proj1 (proj2 (proj2 (proj2 (H (js "id1") 9%Z
                                            [sample_entry "id1" "one"]))))).
    + reflexivity.
    + vm_compute; left; reflexivity.
Defined.

Lemma generateSceneImage_rejections (env : Env) scene title summary level e :
  generateSceneImage env scene title summary level = Rejected e ->
  e = Error imageError \/ e = Error (js "API Key not found").
Proof.
  unfold generateSceneImage, getClient.
  destruct (negb (truthy_opt (API_KEY env))); simpl.
  - intros [= <-]; now right.
  - intros H; apply try_catch_throw_rejected in H; now left.
Qed.

(** X10.  [handleDrawScene] never touches the four texts.  With no scene
    text and no summary it asks for nothing: it shows its own message and
    the state is otherwise the same whatever the service is.  With a scene
    text or a summary it calls the service with the scene, the title, the
    summary and the drawing level of the state: when the service returns
    an image, that image is the generated image afterwards and the error
    line is cleared; when the service rejects, the image stays the one
    that was there before and the error line shows the message of the
    rejection, which is the fixed drawing message or the missing-key
    message.  The guard tests for empty texts while the service tests for
    blank ones: a scene text of white space alone with an empty summary is
    drawn, from the summary-based request with nothing behind its colon. *)
Theorem handleDrawScene_outcomes (env : Env) (engineText : jsstring)
    (v : view) :
  let v' := handleDrawScene env engineText v in
  (title (fields v') = title (fields v)
   /\ summary (fields v') = summary (fields v)
   /\ favoriteScene (fields v') = favoriteScene (fields v)
   /\ thoughts (fields v') = thoughts (fields v))
  /\ (truthy (favoriteScene (fields v)) = false ->
      truthy (summary (fields v)) = false ->
      fields v' = fields v /\ error v' = Some nothingToDrawError
      /\ forall env', handleDrawScene env' engineText v = v')
  /\ (forall img,
        generatedImage (fields v') = Some img ->
        generatedImage (fields v) = Some img
        \/ (error v' = None
            /\ generateSceneImage env (favoriteScene (fields v))
                 (title (fields v)) (summary (fields v))
                 (Some (drawingLevel (fields v))) = Resolved img))
  /\ (forall e,
        generateSceneImage env (favoriteScene (fields v))
          (title (fields v)) (summary (fields v))
          (Some (drawingLevel (fields v))) = Rejected e ->
        generatedImage (fields v') = generatedImage (fields v)
        /\ (error v' = Some nothingToDrawError
            \/ error v' = Some imageError
            \/ error v' = Some (js "API Key not found")))
  /\ (truthy (favoriteScene (fields v)) = true ->
      forallb is_space (favoriteScene (fields v)) = true ->
      summary (fields v) = [] ->
      forall img,
        generateSceneImage env (favoriteScene (fields v))
          (title (fields v)) [] (Some (drawingLevel (fields v)))
        = Resolved img ->
        generatedImage (fields v') = Some img
        /\ effectiveDescription (favoriteScene (fields v)) []
           = js "The most representative and heartwarming scene from the story summary: ")
  /\ (truthy (favoriteScene (fields v)) = true
      \/ truthy (summary (fields v)) = true ->
      (forall img,
         generateSceneImage env (favoriteScene (fields v))
           (title (fields v)) (summary (fields v))
           (Some (drawingLevel (fields v))) = Resolved img ->
         v' = setImage (Some img) None v
         /\ generatedImage (fields v') = Some img /\ error v' = None)
      /\ (forall e,
            generateSceneImage env (favoriteScene (fields v))
              (title (fields v)) (summary (fields v))
              (Some (drawingLevel (fields v))) = Rejected e ->
            v' = setImage (generatedImage (fields v))
                   (Some (FormActions.message engineText e)) v
            /\ generatedImage (fields v') = generatedImage (fields v)
            /\ error v' = Some (FormActions.message engineText e))).
Proof.
  cbv zeta.
  assert (Hcall : truthy (favoriteScene (fields v)) = true
                  \/ truthy (summary (fields v)) = true ->
                  handleDrawScene env engineText v
                  = match generateSceneImage env (favoriteScene (fields v))
                            (title (fields v)) (summary (fields v))
                            (Some (drawingLevel (fields v))) with
                    | Resolved imageBase64 => setImage (Some imageBase64) None v
                    | Rejected err =>
                      setImage (generatedImage (fields v))
                        (Some (FormActions.message engineText err)) v
                    end).
  { intros Hg; unfold handleDrawScene.
    destruct Hg as [Hg|Hg]; rewrite Hg; cbn [negb andb];
      [reflexivity|now rewrite andb_false_r]. }
  match goal with
  | |- ?A /\ ?B /\ ?C /\ ?D /\ ?E /\ ?F =>
    assert (H6 : F);
      [intros Hg; rewrite (Hcall Hg); split;
       [intros img ->|intros e ->]; repeat split
      |enough (Hold : A /\ B /\ C /\ D /\ E)
         by (destruct Hold as (H1 & H2 & H3 & H4 & H5);
             exact (conj H1 (conj H2 (conj H3 (conj H4 (conj H5 H6))))))]
  end.
  clear Hcall H6.
  assert (Hguard : truthy (favoriteScene (fields v)) = false ->
                   truthy (summary (fields v)) = false ->
                   forall env0,
                     handleDrawScene env0 engineText v
                     = {| fields := fields v;
                          error := Some nothingToDrawError;
                          isPreviewMode := isPreviewMode v |}).
  { intros E1 E2 env0; unfold handleDrawScene; now rewrite E1, E2. }
  split; [|split].
  - destruct (handleDrawScene_cases env engineText v)
      as [(_ & _ & ->)|[(img & _ & ->)|(e & _ & ->)]];
      cbn [setImage fields title summary favoriteScene thoughts];
      repeat split.
  - intros E1 E2; rewrite (Hguard E1 E2 env); cbn [fields error].
    split; [reflexivity|split; [reflexivity|]].
    intros env'; apply (Hguard E1 E2).
  - destruct (handleDrawScene_cases env engineText v)
      as [(E1 & E2 & Hr)|[(img & Himg & Hr)|(e & He & Hr)]];
      rewrite Hr; cbn [setImage fields error generatedImage].
    + split; [intros img H; now left|].
      split; [intros e _; split; [reflexivity|now left]|].
      intros Ht; congruence.
    + split; [intros img' [= <-]; right; split; [reflexivity|exact Himg]|].
      split; [intros e He; rewrite Himg in He; discriminate He|].
      intros _ Hb Hs img' Himg'; rewrite Hs in Himg.
      rewrite Himg in Himg'; injection Himg' as <-.
      split; [reflexivity|].
      rewrite (@effectiveDescription_blank (favoriteScene (fields v)) [] Hb).
      apply app_nil_r.
    + split; [intros img H; now left|].
      split.
      { intros e' He'; rewrite He in He'; injection He' as <-.
        split; [reflexivity|].
        apply generateSceneImage_rejections in He; destruct He as [-> | ->];
          cbn [FormActions.message];
          [right; left; reflexivity|right; right; reflexivity]. }
      intros _ _ Hs img Himg; rewrite Hs in He; rewrite He in Himg.
      discriminate Himg.
Qed.

Lemma handleDrawScene_outcomes_witness :
  fields (handleDrawScene answering_env (js "TypeError")
            (mounted AppFlow.initialApp))
  = fields (mounted AppFlow.initialApp).
Proof.
  apply (proj1 (proj2 (handleDrawScene_outcomes answering_env
                         (js "TypeError") (mounted AppFlow.initialApp))));
    reflexivity.
Defined.

Lemma parseResponse_not_empty (text : jsstring)
    (manualTitle : option jsstring) :
  truthy (YouTubeAnalysisResult.title (parseResponse text manualTitle)) = true
  /\ truthy (YouTubeAnalysisResult.summary (parseResponse text manualTitle))
     = true.
Proof.
  destruct fallbacks_not_empty as [Ht Hs].
  unfold parseResponse;
    cbn [YouTubeAnalysisResult.title YouTubeAnalysisResult.summary].
  split; apply truthy_or; assumption.
Qed.

(** X11.  From the response to the entry.  When an analysis of any
    response text completes, the application resets font, size and
    drawing level and keeps the grade, and the workspace loads the draft;
    the entry it then builds has the parsed title and summary as they are
    (their placeholders cannot appear), the recommended scene and thoughts
    or else the generic placeholder (never the caption), no image, the
    link and the video identifier of the analysis, the generated
    identifier, and the style basic, medium, low with the grade kept. *)
Theorem analysis_to_entry (text videoId url generateId : jsstring) (now : Z)
    (a : AppFlow.app) (v : view) :
  let r := parseResponse text None in
  let a' := AppFlow.handleAnalysisComplete videoId url r a in
  let v' := loadDraft (AppFlow.currentDraft a') (withProps a' v) in
  let e := getCurrentEntry (fields v') generateId now in
  StoryEntry.title e = YouTubeAnalysisResult.title r
  /\ StoryEntry.summary e = YouTubeAnalysisResult.summary r
  /\ StoryEntry.favoriteScene e
     = or_else (YouTubeAnalysisResult.recommendedScene r) textPlaceholder
  /\ StoryEntry.thoughts e
     = or_else (YouTubeAnalysisResult.recommendedThoughts r) textPlaceholder
  /\ StoryEntry.generatedImageUrl e = None
  /\ StoryEntry.id e = generateId
  /\ StoryEntry.videoUrl e = url
  /\ StoryEntry.videoId e = videoId
  /\ StoryEntry.createdAt e = now
  /\ StoryEntry.styleConfig e
     = Some {| StoryStyleConfig.fontFamily := FontFamily.basic;
               StoryStyleConfig.fontSize := FontSize.medium;
               StoryStyleConfig.drawingLevel := Some DrawingLevel.low;
               StoryStyleConfig.writingGrade :=
                 Some (AppFlow.writingGrade a) |}
  /\ error v' = None /\ isPreviewMode v' = false.
Proof.
  cbv zeta.
  destruct (parseResponse_not_empty text None) as [Ht Hs].
  unfold AppFlow.handleAnalysisComplete, loadDraft, withProps, getCurrentEntry;
    cbn [AppFlow.currentDraft AppFlow.analysis AppFlow.draftUrl
         AppFlow.draftVideoId AppFlow.fontFamily AppFlow.fontSize
         AppFlow.drawingLevel AppFlow.writingGrade fields error isPreviewMode
         title summary favoriteScene thoughts generatedImage loadedId
         loadedVideoUrl loadedVideoId fontFamily fontSize drawingLevel
         writingGrade StoryEntry.title StoryEntry.summary
         StoryEntry.favoriteScene StoryEntry.thoughts
         StoryEntry.generatedImageUrl StoryEntry.id StoryEntry.videoUrl
         StoryEntry.videoId StoryEntry.createdAt StoryEntry.styleConfig
         truthy_opt andb opt_or_else].
  rewrite (@or_else_kept _ titlePlaceholder Ht).
  rewrite (@or_else_kept _ summaryPlaceholder Hs).
  rewrite andb_false_r.
  repeat split.
Qed.

End Session.

(* ================================================================== *)
(** * How the store operations compose *)
(* ================================================================== *)

Section StoreAlgebra.
Import App.

Implicit Types (entry e : StoryEntry.t) (prev : list StoryEntry.t).

Lemma same_id_refl entry : same_id entry entry = true.
Proof. apply str_eqb_refl. Qed.

Lemma replace_absent entry prev :
  ~ In (StoryEntry.id entry) (ids prev) ->
  map (fun e => if same_id entry e then entry else e) prev = prev.
Proof.
  induction prev as [|e prev IH]; [reflexivity|]; cbn [map ids In]; intros H.
  unfold same_id at 1; destruct (str_eqb _ _) eqn:E.
  - apply str_eqb_eq in E; exfalso; apply H; now left.
  - f_equal; apply IH; intros Hin; apply H; now right.
Qed.

Lemma replace_twice entry prev :
  map (fun e => if same_id entry e then entry else e)
    (map (fun e => if same_id entry e then entry else e) prev)
  = map (fun e => if same_id entry e then entry else e) prev.
Proof.
  rewrite map_map; apply map_ext; intros e; cbv beta.
  destruct (same_id entry e) eqn:E.
  - now rewrite same_id_refl.
  - now rewrite E.
Qed.

Lemma find_replaced entry prev :
  In (StoryEntry.id entry) (ids prev) ->
  find (same_id entry)
    (map (fun e => if same_id entry e then entry else e) prev) = Some entry.
Proof.
  induction prev as [|e prev IH]; [contradiction|].
  cbn [map find ids In]; intros Hin.
  destruct (same_id entry e) eqn:E.
  - now rewrite same_id_refl.
  - rewrite E; apply IH.
    destruct Hin as [Hin|Hin]; [|exact Hin].
    unfold same_id in E; apply str_eqb_neq in E; congruence.
Qed.

Lemma saved_id_present entry prev :
  In (StoryEntry.id entry) (ids (handleSaveEntry entry prev)).
Proof.
  unfold ids; apply in_map, handleSaveEntry_In.
Qed.

Lemma delete_replaced entry prev :
  handleDeleteEntry true (StoryEntry.id entry)
    (map (fun e => if same_id entry e then entry else e) prev)
  = handleDeleteEntry true (StoryEntry.id entry) prev.
Proof.
  unfold handleDeleteEntry; induction prev as [|e prev IH];
    [reflexivity|]; cbn [map filter].
  destruct (same_id entry e) eqn:E; pose proof E as E'; unfold same_id in E'.
  - rewrite str_eqb_refl, E'; cbn [negb]; exact IH.
  - rewrite E'; cbn [negb]; now rewrite IH.
Qed.

(** X12.  Saving and deleting compose as a keyed store should.  Saving the
    same entry twice is saving it once; after a save, looking the
    identifier up finds the saved entry; deleting the identifier after a
    save gives what deleting it before the save gives, which is the list
    itself when the identifier was new; deleting twice is deleting once,
    and two deletions can be swapped. *)
Theorem store_operations_compose entry prev :
  handleSaveEntry entry (handleSaveEntry entry prev)
  = handleSaveEntry entry prev
  /\ find (same_id entry) (handleSaveEntry entry prev) = Some entry
  /\ handleDeleteEntry true (StoryEntry.id entry) (handleSaveEntry entry prev)
     = handleDeleteEntry true (StoryEntry.id entry) prev
  /\ (~ In (StoryEntry.id entry) (ids prev) ->
      handleDeleteEntry true (StoryEntry.id entry)
        (handleSaveEntry entry prev) = prev)
  /\ (forall id,
        handleDeleteEntry true id (handleDeleteEntry true id prev)
        = handleDeleteEntry true id prev)
  /\ (forall id1 id2,
        handleDeleteEntry true id1 (handleDeleteEntry true id2 prev)
        = handleDeleteEntry true id2 (handleDeleteEntry true id1 prev)).
Proof.
  assert (Hdel : handleDeleteEntry true (StoryEntry.id entry)
                   (handleSaveEntry entry prev)
                 = handleDeleteEntry true (StoryEntry.id entry) prev).
  { destruct (in_dec (list_eq_dec N.eq_dec) (StoryEntry.id entry) (ids prev))
      as [Hin|Hin].
    - rewrite (handleSaveEntry_present _ _ Hin); apply delete_replaced.
    - rewrite (handleSaveEntry_absent _ _ Hin).
      unfold handleDeleteEntry; cbn [filter].
      now rewrite str_eqb_refl. }
  split; [|split; [|split; [exact Hdel|split; [|split]]]].
  - rewrite (handleSaveEntry_present entry (handleSaveEntry entry prev)
               (saved_id_present entry prev)).
    destruct (in_dec (list_eq_dec N.eq_dec) (StoryEntry.id entry) (ids prev))
      as [Hin|Hin].
    + rewrite (handleSaveEntry_present _ _ Hin); apply replace_twice.
    + rewrite (handleSaveEntry_absent _ _ Hin); cbn [map].
      now rewrite same_id_refl, (replace_absent _ _ Hin).
  - destruct (in_dec (list_eq_dec N.eq_dec) (StoryEntry.id entry) (ids prev))
      as [Hin|Hin].
    + rewrite (handleSaveEntry_present _ _ Hin); now apply find_replaced.
    + rewrite (handleSaveEntry_absent _ _ Hin); cbn [find].
      now rewrite same_id_refl.
  - intros Hnew; rewrite Hdel; unfold handleDeleteEntry.
    apply filter_all; intros e He.
    apply negb_true_iff, str_eqb_neq; intros Heq; apply Hnew.
    unfold ids; apply in_map_iff; now exists e.
  - intros id; unfold handleDeleteEntry.
    apply filter_filter_implied; auto.
  - intros id1 id2; clear Hdel; unfold handleDeleteEntry.
    induction prev as [|e prev IH]; [reflexivity|]; cbn [filter].
    destruct (negb (str_eqb (StoryEntry.id e) id2)) eqn:E2;
      destruct (negb (str_eqb (StoryEntry.id e) id1)) eqn:E1;
      cbn [filter]; rewrite ?E1, ?E2, IH; reflexivity.
Qed.

Lemma store_operations_compose_witness :
  handleDeleteEntry true (js "c")
    (handleSaveEntry (sample_entry "c" "new")
       [sample_entry "a" "one"; sample_entry "b" "two"])
  = [sample_entry "a" "one"; sample_entry "b" "two"].
Proof.
  apply (proj1 (proj2 (proj2 (proj2
           (store_operations_compose (sample_entry "c" "new")
              [sample_entry "a" "one"; sample_entry "b" "two"]))))).
  vm_compute; intuition discriminate.
Defined.

End StoreAlgebra.

(* ================================================================== *)
(** * Responses in the requested format are read back *)
(* ================================================================== *)

Section RoundTrip.
Import ParserSpec ResponseFormat.

Lemma after_first_eq (label s : jsstring) :
  after_first label s
  = match strip_prefix label s with
    | Some r => Some r
    | None => match s with [] => None | _ :: s' => after_first label s' end
    end.
Proof. destruct s; reflexivity. Qed.

Lemma before_first_eq (label s : jsstring) :
  before_first label s
  = match strip_prefix label s with
    | Some _ => []
    | None =>
      match s with [] => [] | x :: s' => x :: before_first label s' end
    end.
Proof. destruct s; reflexivity. Qed.

(** A label that begins a text whose front part is at least as long begins
    inside that front part. *)
Lemma strip_prefix_short (p u v r : jsstring) :
  strip_prefix p (u ++ v) = Some r -> length p <= length u ->
  exists w, u = p ++ w.
Proof.
  intros H Hl; apply strip_prefix_some in H.
  exists (skipn (length p) u).
  rewrite <- (firstn_skipn (length p) u) at 1; f_equal.
  apply (f_equal (firstn (length p))) in H.
  rewrite !firstn_app, Nat.sub_diag, firstn_all, firstn_O, app_nil_r in H.
  replace (length p - length u) with 0 in H by lia.
  now rewrite firstn_O, app_nil_r in H.
Qed.

Lemma removelast_length (l : jsstring) :
  l <> [] -> length l = S (length (removelast l)).
Proof.
  intros H; rewrite (app_removelast_last 0%N H) at 1.
  rewrite length_app; simpl; lia.
Qed.

(** No occurrence of the label starts in [a]. *)
Lemma first_occurrence (label a r : jsstring) (x : N) :
  label <> [] -> ~ contains label ((x :: a) ++ removelast label) ->
  strip_prefix label ((x :: a) ++ label ++ r) = None.
Proof.
  intros Hne Hn.
  destruct (strip_prefix label ((x :: a) ++ label ++ r)) as [r0|] eqn:E;
    [|reflexivity].
  exfalso; apply Hn.
  rewrite (app_removelast_last 0%N Hne) in E at 2.
  rewrite <- app_assoc, app_assoc in E.
  apply strip_prefix_short in E.
  - destruct E as [w ->]; now exists [], w.
  - rewrite length_app, (@removelast_length label Hne); cbn [length]; lia.
Qed.

Lemma not_contains_tail (label a b : jsstring) (x : N) :
  ~ contains label ((x :: a) ++ b) -> ~ contains label (a ++ b).
Proof. intros H C; apply H, (contains_skip [x]), C. Qed.

Lemma after_first_first (label a r : jsstring) :
  label <> [] -> ~ contains label (a ++ removelast label) ->
  after_first label (a ++ label ++ r) = Some r.
Proof.
  intros Hne; induction a as [|x a IH]; intros Hn; rewrite after_first_eq.
  - cbn [app]; now rewrite strip_prefix_app.
  - rewrite (@first_occurrence label a r x Hne Hn); cbn [app].
    apply IH, (@not_contains_tail label a _ x Hn).
Qed.

Lemma before_first_first (label a r : jsstring) :
  label <> [] -> ~ contains label (a ++ removelast label) ->
  before_first label (a ++ label ++ r) = a.
Proof.
  intros Hne; induction a as [|x a IH]; intros Hn; rewrite before_first_eq.
  - cbn [app]; now rewrite strip_prefix_app.
  - rewrite (@first_occurrence label a r x Hne Hn); cbn [app]; f_equal.
    apply IH, (@not_contains_tail label a _ x Hn).
Qed.

(** A text in front of a piece whose first character does not occur in
    [x] after the first character of [x]. *)
Lemma not_contains_text_hd (x t rest : jsstring) :
  match rest with
  | h :: _ => existsb (N.eqb h) (tl x) = false
  | [] => False
  end ->
  ~ contains x t -> ~ contains x rest -> ~ contains x (t ++ rest).
Proof.
  intros Hh Ht Hn H; apply contains_app_cases in H.
  destruct H as [H|[H|(x1 & x2 & a1 & b2 & Hx12 & H1 & H2 & _ & Hb)]];
    [contradiction|contradiction|].
  destruct rest as [|h rest]; [contradiction|].
  destruct x2 as [|y x2]; [contradiction|].
  cbn [app] in Hb; injection Hb as <- _.
  destruct x1 as [|z x1]; [contradiction|].
  assert (Hin : existsb (N.eqb h) (tl x) = true).
  { apply existsb_exists; exists h; split; [|apply N.eqb_refl].
    rewrite Hx12; cbn [app tl]; apply in_or_app; right; left; reflexivity. }
  congruence.
Qed.

(** White space in front, for an [x] without white space. *)
Lemma not_contains_space (x g b : jsstring) :
  blank g -> forallb (fun c => negb (is_space c)) x = true -> x <> [] ->
  ~ contains x b -> ~ contains x (g ++ b).
Proof.
  unfold blank; intros Hg Hx Hne Hn H.
  rewrite forallb_forall in Hg, Hx.
  apply contains_app_cases in H.
  destruct H as [(p & q & H)|[H|(x1 & x2 & a1 & b2 & Hx12 & H1 & _ & Ha & _)]];
    [|contradiction|].
  - destruct x as [|c x]; [contradiction|].
    assert (Hc : is_space c = true)
      by (apply Hg; rewrite H; apply in_or_app; right; left; reflexivity).
    specialize (Hx c (or_introl eq_refl)); rewrite Hc in Hx; discriminate.
  - destruct x1 as [|c x1]; [contradiction|].
    assert (Hc : is_space c = true)
      by (apply Hg; rewrite Ha; apply in_or_app; right; left; reflexivity).
    assert (Hc' : negb (is_space c) = true)
      by (apply Hx; rewrite Hx12; left; reflexivity).
    rewrite Hc in Hc'; discriminate.
Qed.

(** A text, white space, and then a constant piece. *)
Lemma not_contains_text_gap (x t g c b : jsstring) :
  ~ contains x t -> blank g ->
  forallb (fun c => negb (is_space c)) x = true -> x <> [] ->
  match c with
  | h :: _ => existsb (N.eqb h) (tl x) = false
  | [] => False
  end ->
  ~ contains x (c ++ b) -> ~ contains x (t ++ g ++ c ++ b).
Proof.
  intros Ht Hg Hx Hne Hc Hn.
  apply not_contains_text_hd; [|exact Ht|now apply not_contains_space].
  destruct g as [|s g].
  - destruct c as [|h c]; [contradiction|exact Hc].
  - cbn [app]; unfold blank in Hg; cbn [forallb] in Hg.
    apply andb_true_iff in Hg; destruct Hg as [Hs _].
    destruct (existsb (N.eqb s) (tl x)) eqn:E; [|reflexivity].
    apply existsb_exists in E; destruct E as (y & Hy & Hsy).
    apply N.eqb_eq in Hsy; subst y.
    rewrite forallb_forall in Hx.
    assert (Hin : In s x) by (destruct x; [contradiction|now right]).
    apply Hx in Hin; rewrite Hs in Hin; discriminate.
Qed.

Lemma take_while_app_stop (p : N -> bool) (a b : jsstring) :
  forallb p a = true ->
  match b with c :: _ => p c = false | [] => True end ->
  take_while p (a ++ b) = a.
Proof.
  intros Ha Hb; induction a as [|x a IH]; cbn [app take_while].
  - destruct b as [|c b]; [reflexivity|]; cbn [take_while]; now rewrite Hb.
  - cbn [forallb] in Ha; apply andb_true_iff in Ha; destruct Ha as [-> Ha].
    f_equal; auto.
Qed.

Lemma trim_drop_while (s : jsstring) :
  trim (drop_while is_space s) = trim s.
Proof.
  unfold trim; f_equal; f_equal; f_equal.
  apply drop_while_clean, drop_while_head.
Qed.

(** The body of a field between its label's white space and the next
    label. *)
Lemma field_cut (next s g g' rest : jsstring) :
  next <> [] -> starts_clean next -> trimmed s -> blank g -> blank g' ->
  ~ contains next (s ++ g' ++ removelast next) ->
  trim (before_first next
          (drop_while is_space (g ++ s ++ g' ++ next ++ rest))) = s.
Proof.
  intros Hne Hc Hs Hg Hg' Hn.
  rewrite (@drop_while_space_app g _ Hg).
  destruct s as [|c s].
  - cbn [app] in *.
    rewrite (@drop_while_space_app g' _ Hg').
    rewrite (@drop_while_clean_app next rest Hne Hc).
    pose proof (@before_first_first next [] rest Hne) as Hb.
    cbn [app] in Hb; rewrite Hb; [reflexivity|].
    intros C; apply Hn, contains_skip, C.
  - rewrite drop_while_clean_app by (destruct Hs; auto; discriminate).
    rewrite (app_assoc (c :: s) g').
    rewrite before_first_first; [now apply trim_app_space|exact Hne|].
    now rewrite <- app_assoc.
Qed.

Ltac chunk :=
  first
    [ eapply not_contains_text_gap;
      [ assumption | assumption | vm_compute; reflexivity
      | intros Hd; vm_compute in Hd; discriminate Hd
      | vm_compute; reflexivity | ]
    | eapply not_contains_text_hd;
      [ vm_compute; reflexivity | assumption | ]
    | apply not_contains_space;
      [ assumption | vm_compute; reflexivity
      | intros Hd; vm_compute in Hd; discriminate Hd | ]
    | apply not_contains_const;
      [ vm_compute; reflexivity | vm_compute; reflexivity | ] ].

Ltac chain :=
  rewrite <- ?app_assoc;
  match goal with
  | |- ~ contains ?x _ => rewrite <- (app_nil_r (removelast x))
  end;
  repeat chunk;
  apply includes_false; vm_compute; reflexivity.

Ltac label_not_empty := intros Hd; vm_compute in Hd; discriminate Hd.

(** X13.  A response that follows the output format of the prompt is read
    back exactly: with the four labels in order, white space of any kind
    and amount after each label and each field, any preamble that names
    no label, a title of one line, and trimmed fields that do not name the
    label of a later field, the parse returns the four fields as they
    were written, whatever the title that the user typed.  The scene and
    the thoughts may be empty. *)
Theorem formatted_response_read_back (l : layout)
    (r : YouTubeAnalysisResult.t) (manualTitle : option jsstring) :
  well_spaced l -> well_formed r ->
  parseResponse (render l r) manualTitle = r.
Proof.
  intros Hl Hr; rewrite parseResponse_refines.
  destruct l as [pre g1 g2 g3 g4 g5 g6 g7 g8]; destruct r as [t s sc th].
  unfold well_spaced, well_formed, render in *.
  cbn [preamble gap1 gap2 gap3 gap4 gap5 gap6 gap7 gap8
       YouTubeAnalysisResult.title YouTubeAnalysisResult.summary
       YouTubeAnalysisResult.recommendedScene
       YouTubeAnalysisResult.recommendedThoughts] in *.
  destruct Hl as (B1 & B2 & B3 & B4 & B5 & B6 & B7 & B8 & Hlt & Hpre).
  destruct Hr as (Ht0 & Htdot & Httrim & Htfree & Hs0 & Hstrim & Hsfree
                  & Hsctrim & Hscfree & Hthtrim).
  assert (P1 : ~ contains titleLabel pre) by (apply Hpre; left; reflexivity).
  assert (P2 : ~ contains summaryLabel pre)
    by (apply Hpre; right; left; reflexivity).
  assert (P3 : ~ contains sceneLabel pre)
    by (apply Hpre; right; right; left; reflexivity).
  assert (P4 : ~ contains thoughtsLabel pre)
    by (apply Hpre; right; right; right; left; reflexivity).
  assert (T2 : ~ contains summaryLabel t) by (apply Htfree; left; reflexivity).
  assert (T3 : ~ contains sceneLabel t)
    by (apply Htfree; right; left; reflexivity).
  assert (T4 : ~ contains thoughtsLabel t)
    by (apply Htfree; right; right; left; reflexivity).
  assert (S3 : ~ contains sceneLabel s) by (apply Hsfree; left; reflexivity).
  assert (S4 : ~ contains thoughtsLabel s)
    by (apply Hsfree; right; left; reflexivity).
  assert (C4 : ~ contains thoughtsLabel sc)
    by (apply Hscfree; left; reflexivity).
  clear Hpre Htfree Hsfree Hscfree.
  pose (R4 := g7 ++ th ++ g8).
  pose (R3 := g5 ++ sc ++ g6 ++ thoughtsLabel ++ R4).
  pose (R2 := g3 ++ s ++ g4 ++ sceneLabel ++ R3).
  pose (R1 := g1 ++ t ++ g2 ++ summaryLabel ++ R2).
  assert (A1 : after_first titleLabel (pre ++ titleLabel ++ R1) = Some R1)
    by (apply after_first_first; [label_not_empty|chain]).
  assert (A2 : after_first summaryLabel
                 ((pre ++ titleLabel ++ g1 ++ t ++ g2) ++ summaryLabel ++ R2)
               = Some R2)
    by (apply after_first_first; [label_not_empty|chain]).
  assert (A3 : after_first sceneLabel
                 ((pre ++ titleLabel ++ g1 ++ t ++ g2 ++ summaryLabel ++ g3
                   ++ s ++ g4) ++ sceneLabel ++ R3)
               = Some R3)
    by (apply after_first_first; [label_not_empty|chain]).
  assert (A4 : after_first thoughtsLabel
                 ((pre ++ titleLabel ++ g1 ++ t ++ g2 ++ summaryLabel ++ g3
                   ++ s ++ g4 ++ sceneLabel ++ g5 ++ sc ++ g6)
                  ++ thoughtsLabel ++ R4)
               = Some R4)
    by (apply after_first_first; [label_not_empty|chain]).
  repeat rewrite <- app_assoc in A2.
  repeat rewrite <- app_assoc in A3.
  repeat rewrite <- app_assoc in A4.
  assert (F2 : trim (before_first sceneLabel (drop_while is_space R2)) = s).
  { apply field_cut; auto; [label_not_empty|vm_compute; reflexivity|chain]. }
  assert (F3 : trim (before_first thoughtsLabel (drop_while is_space R3)) = sc).
  { apply field_cut; auto; [label_not_empty|vm_compute; reflexivity|chain]. }
  assert (F4 : trim (drop_while is_space R4) = th).
  { rewrite trim_drop_while; unfold R4.
    rewrite (@trim_pad g7 th g8 B7 B8); now apply trimmed_trim. }
  assert (F1 : trim (take_while is_dot (drop_while is_space R1)) = t).
  { unfold R1; rewrite (@drop_while_space_app g1 _ B1).
    rewrite drop_while_clean_app by (destruct Httrim; auto).
    rewrite take_while_app_stop; [now apply trimmed_trim|exact Htdot|].
    destruct g2 as [|c g2]; [contradiction|]; cbn [app].
    unfold is_dot; now rewrite Hlt. }
  assert (E1 : existsb is_dot R1 = true).
  { unfold R1; rewrite existsb_app, existsb_app.
    destruct t as [|c t]; [contradiction|].
    cbn [forallb] in Htdot; apply andb_true_iff in Htdot.
    destruct Htdot as [Hc _]; cbn [existsb]; rewrite Hc.
    now rewrite orb_true_r. }
  unfold parse_spec, title_found, title_field, body_field.
  fold R4 R3 R2 R1 in A2, A3, A4 |- *.
  rewrite A1, A2, A3, A4, E1, F1, F2, F3, F4.
  destruct t as [|c1 t]; [contradiction|]; destruct s as [|c2 s];
    [contradiction|].
  reflexivity.
Qed.

Lemma formatted_response_read_back_witness :
  parseResponse (render line_gaps three_pigs) None = three_pigs
  /\ parseResponse (render line_gaps three_pigs) (Some (js "typed")) = three_pigs.
Proof.
  assert (Hl : well_spaced line_gaps).
  { unfold well_spaced, blank, free_of.
    repeat (split; [vm_compute; reflexivity|]).
    intros label [<-|[<-|[<-|[<-|[]]]]]; apply includes_false;
      vm_compute; reflexivity. }
  assert (Hr : well_formed three_pigs).
  { unfold well_formed, trimmed, free_of.
    split; [intros Hd; vm_compute in Hd; discriminate Hd|].
    split; [vm_compute; reflexivity|].
    split; [split; vm_compute; reflexivity|].
    split; [intros label [<-|[<-|[<-|[]]]]; apply includes_false;
            vm_compute; reflexivity|].
    split; [intros Hd; vm_compute in Hd; discriminate Hd|].
    split; [split; vm_compute; reflexivity|].
    split; [intros label [<-|[<-|[]]]; apply includes_false;
            vm_compute; reflexivity|].
    split; [split; vm_compute; reflexivity|].
    split; [intros label [<-|[]]; apply includes_false;
            vm_compute; reflexivity|].
    split; vm_compute; reflexivity. }
  split; apply formatted_response_read_back; assumption.
Defined.

Lemma before_first_prefix (label s : jsstring) :
  exists r, s = before_first label s ++ r.
Proof.
  induction s as [|x s IH]; rewrite before_first_eq.
  - destruct (strip_prefix label []); exists []; reflexivity.
  - destruct (strip_prefix label (x :: s)); [exists (x :: s); reflexivity|].
    destruct IH as [r Hr]; exists r; cbn [app]; now rewrite <- Hr.
Qed.

Lemma not_contains_nil (x : jsstring) : x <> [] -> ~ contains x [].
Proof.
  intros Hne (p & q & H); destruct p; destruct x; try contradiction;
    discriminate H.
Qed.

(** What is cut before the first occurrence of a label does not hold the
    label. *)
Lemma before_first_free (label s : jsstring) :
  label <> [] -> ~ contains label (before_first label s).
Proof.
  intros Hne; induction s as [|x s IH]; rewrite before_first_eq.
  - destruct (strip_prefix label []); now apply not_contains_nil.
  - destruct (strip_prefix label (x :: s)) eqn:E;
      [now apply not_contains_nil|].
    intros (p & q & H); destruct p as [|c p].
    + cbn [app] in H.
      destruct (before_first_prefix label s) as [r Hr].
      assert (Hs : x :: s = label ++ q ++ r).
      { rewrite Hr at 1; rewrite app_comm_cons, H, <- app_assoc.
        reflexivity. }
      rewrite Hs, strip_prefix_app in E; discriminate E.
    + cbn [app] in H; injection H as _ H; apply IH; now exists p, q.
Qed.

Lemma contains_trim (x s : jsstring) : contains x (trim s) -> contains x s.
Proof.
  intros (p & q & H); destruct (trim_piece s) as (a & b & Hs).
  exists (a ++ p), (q ++ b).
  rewrite Hs at 1; rewrite H; now rewrite <- !app_assoc.
Qed.

Lemma forallb_piece (p : N -> bool) (a m b : jsstring) :
  forallb p (a ++ m ++ b) = true -> forallb p m = true.
Proof.
  rewrite !forallb_app; intros H.
  apply andb_true_iff in H; destruct H as [_ H].
  now apply andb_true_iff in H.
Qed.

Lemma body_field_trimmed (label : jsstring) (next : option jsstring)
    (text : jsstring) :
  trim (body_field label next text) = body_field label next text.
Proof.
  unfold body_field; destruct (after_first label text);
    [apply trim_idempotent|reflexivity].
Qed.

Lemma body_field_free (label next text : jsstring) :
  next <> [] -> ~ contains next (body_field label (Some next) text).
Proof.
  intros Hne; unfold body_field; destruct (after_first label text).
  - intros C; apply contains_trim in C; revert C.
    now apply before_first_free.
  - now apply not_contains_nil.
Qed.

Lemma title_field_line (text : jsstring) :
  trim (title_field text) = title_field text
  /\ forallb is_dot (title_field text) = true.
Proof.
  unfold title_field; destruct (after_first titleLabel text) as [r|];
    [|split; reflexivity].
  split; [apply trim_idempotent|].
  destruct (trim_piece (take_while is_dot (drop_while is_space r)))
    as (a & b & H).
  apply (@forallb_piece is_dot a _ b); rewrite <- H; apply take_while_all.
Qed.

(** X14.  What the parse never returns.  The scene and the thoughts have
    no white space at their ends, and the scene never holds the label of
    the thoughts.  The summary, unless it is the whole response, has no
    white space at its ends and never holds the label of the scene.  The
    title, unless it is the title that the user typed, has no white space
    at its ends and is one line. *)
Theorem parsed_fields_are_clean (text : jsstring)
    (manualTitle : option jsstring) :
  let r := parseResponse text manualTitle in
  trim (YouTubeAnalysisResult.recommendedScene r)
  = YouTubeAnalysisResult.recommendedScene r
  /\ trim (YouTubeAnalysisResult.recommendedThoughts r)
     = YouTubeAnalysisResult.recommendedThoughts r
  /\ ~ contains thoughtsLabel (YouTubeAnalysisResult.recommendedScene r)
  /\ (YouTubeAnalysisResult.summary r <> text ->
      trim (YouTubeAnalysisResult.summary r) = YouTubeAnalysisResult.summary r
      /\ ~ contains sceneLabel (YouTubeAnalysisResult.summary r))
  /\ (Some (YouTubeAnalysisResult.title r) <> manualTitle ->
      trim (YouTubeAnalysisResult.title r) = YouTubeAnalysisResult.title r
      /\ forallb is_dot (YouTubeAnalysisResult.title r) = true).
Proof.
  cbv zeta; rewrite parseResponse_refines; unfold parse_spec.
  cbn [YouTubeAnalysisResult.title YouTubeAnalysisResult.summary
       YouTubeAnalysisResult.recommendedScene
       YouTubeAnalysisResult.recommendedThoughts].
  assert (Hfs : trim summaryFallback = summaryFallback
                /\ ~ contains sceneLabel summaryFallback).
  { split; [vm_compute; reflexivity|].
    apply includes_false; vm_compute; reflexivity. }
  assert (Hft : trim titleFallback = titleFallback
                /\ forallb is_dot titleFallback = true).
  { split; vm_compute; reflexivity. }
  split; [apply body_field_trimmed|].
  split; [apply body_field_trimmed|].
  split; [apply body_field_free; label_not_empty|].
  split.
  - destruct (truthy (body_field summaryLabel (Some sceneLabel) text)) eqn:Eb.
    + rewrite Eb; intros _.
      split; [apply body_field_trimmed|apply body_field_free; label_not_empty].
    + destruct (negb (title_found text) && (10 <? length text)%nat).
      * destruct text as [|c text]; cbn [truthy]; [intros _; exact Hfs|].
        intros H; now contradiction H.
      * cbn [truthy]; intros _; exact Hfs.
  - destruct (title_found text).
    + destruct (truthy (title_field text)); intros _;
        [apply title_field_line|exact Hft].
    + destruct manualTitle as [[|c m]|]; cbn [opt_or_else or_else truthy];
        try (intros _; exact Hft).
      intros H; now contradiction H.
Qed.

Lemma parsed_fields_are_clean_witness :
  ~ contains sceneLabel
      (YouTubeAnalysisResult.summary
         (parseResponse (render line_gaps three_pigs) None))
  /\ forallb is_dot
       (YouTubeAnalysisResult.title
          (parseResponse (render line_gaps three_pigs) None)) = true.
Proof.
  destruct (parsed_fields_are_clean (render line_gaps three_pigs) None)
    as (_ & _ & _ & Hs & Ht).
  split.
  - apply Hs; intros Hd; vm_compute in Hd; discriminate Hd.
  - apply Ht; intros Hd; vm_compute in Hd; discriminate Hd.
Defined.

End RoundTrip.

(* ================================================================== *)
(** * Every option can be chosen with its toggle *)
(* ================================================================== *)

Section StyleReach.
Import StoryForm.

Ltac pressed :=
  first [ exists 0; split; [lia|reflexivity]
        | exists 1; split; [lia|reflexivity]
        | exists 2; split; [lia|reflexivity]
        | exists 3; split; [lia|reflexivity]
        | exists 4; split; [lia|reflexivity]
        | exists 5; split; [lia|reflexivity] ].

Lemma press_defined (A : Type) (toggle : A -> option A) :
  (forall a, toggle a <> None) -> forall n a, press n toggle a <> None.
Proof.
  intros H n; induction n as [|n IH]; intros a; cbn [press]; [discriminate|].
  destruct (toggle a) as [a'|] eqn:E; [apply IH|].
  intros _; exact (H a E).
Qed.

(** X15.  The toggles are the only controls of the four options, and they
    are enough: from any option every other one is chosen by pressing the
    toggle fewer times than its list is long, and no number of presses
    leaves an option undefined.  For the grade the number of presses is
    the difference of the grades modulo 6, and one press makes a grade
    valid from any number that is not negative. *)
Theorem toggles_reach_every_option :
  (forall f f', exists n, n < 6 /\ press n toggleFontFamily f = Some f')
  /\ (forall s s', exists n, n < 5 /\ press n toggleFontSize s = Some s')
  /\ (forall l l', exists n, n < 3 /\ press n toggleDrawingLevel l = Some l')
  /\ (forall n f s l,
        press n toggleFontFamily f <> None
        /\ press n toggleFontSize s <> None
        /\ press n toggleDrawingLevel l <> None)
  /\ (forall g g', WritingGrade.valid g -> WritingGrade.valid g' ->
        Nat.iter (Z.to_nat ((g' - g) mod 6)) toggleWritingGrade g = g')
  /\ (forall g, (0 <= g)%Z -> WritingGrade.valid (toggleWritingGrade g)).
Proof.
  split; [intros f f'; destruct f, f'; pressed|].
  split; [intros s s'; destruct s, s'; pressed|].
  split; [intros l l'; destruct l, l'; pressed|].
  split.
  { intros n f s l; split; [|split]; apply press_defined.
    - intros a; destruct a; discriminate.
    - intros a; destruct a; discriminate.
    - intros a; destruct a; discriminate. }
  split.
  - unfold WritingGrade.valid; intros g g' Hg Hg'.
    assert (Hc : (g = 1 \/ g = 2 \/ g = 3 \/ g = 4 \/ g = 5 \/ g = 6)%Z)
      by lia.
    assert (Hc' : (g' = 1 \/ g' = 2 \/ g' = 3 \/ g' = 4 \/ g' = 5
                   \/ g' = 6)%Z) by lia.
    destruct Hc as [->|[->|[->|[->|[->| ->]]]]];
      destruct Hc' as [->|[->|[->|[->|[->| ->]]]]]; reflexivity.
  - unfold WritingGrade.valid, toggleWritingGrade; intros g Hg.
    pose proof (Z.rem_bound_pos g 6 Hg ltac:(lia)); lia.
Qed.

Lemma toggles_reach_every_option_witness :
  Nat.iter 4 toggleWritingGrade 5%Z = 3%Z
  /\ WritingGrade.valid (toggleWritingGrade 0%Z).
Proof.
  destruct toggles_reach_every_option as (_ & _ & _ & _ & Hreach & Hvalid).
  split.
  - apply (Hreach 5%Z 3%Z); unfold WritingGrade.valid; lia.
  - apply (Hvalid 0%Z); lia.
Defined.

End StyleReach.

(* ================================================================== *)
(** * Reading the summary aloud *)
(* ================================================================== *)

Section Audio.
Import WorkspaceAudio.

Lemma generateStorySpeech_rejections (env : Env) txt e :
  generateStorySpeech env txt = Rejected e ->
  e = Error speechError \/ e = Error (js "API Key not found").
Proof.
  unfold generateStorySpeech, getClient.
  destruct (negb (truthy_opt (API_KEY env))); simpl.
  - intros [= <-]; now right.
  - intros H; apply try_catch_throw_rejected in H; now left.
Qed.

Lemma caught_state (a : audio) :
  caught a
  = {| state :=
         {| isSpeakingSummary := false; isGeneratingSummarySpeech := false;
            error := Some playbackError; audioContextRef := false;
            sourceNodeRef := false |};
       awaiting := Idle |}.
Proof. reflexivity. Qed.

Lemma decode_cases (dev : Device) (b : jsstring) (m : player) :
  2 <= remaining (awaiting m) ->
  decode dev b (state m) = caught (state m)
  \/ continued m (decode dev b (state m)).
Proof.
  intros Hr; unfold decode.
  destruct (base64ToArrayBuffer dev b); [right|now left].
  unfold continued; cbn [state awaiting remaining].
  split; [discriminate|split; [lia|repeat split]].
Qed.

Lemma makeContext_cases (dev : Device) (b : jsstring) (m : player) :
  3 <= remaining (awaiting m) ->
  (exists a, makeContext dev b (state m) = caught a)
  \/ continued m (makeContext dev b (state m)).
Proof.
  intros Hr; unfold makeContext.
  destruct (newContext dev) as [[|]|]; [| |left; now exists (state m)].
  - right; unfold continued; cbn [state awaiting remaining].
    split; [discriminate|split; [lia|repeat split]].
  - unfold decode.
    destruct (base64ToArrayBuffer dev b); [right|left; eexists; reflexivity].
    unfold continued; cbn [state awaiting remaining].
    split; [discriminate|split; [lia|repeat split]].
Qed.

Lemma pending_cases (p : pending) : p = Idle \/ p <> Idle.
Proof. destruct p; [left; reflexivity|right; discriminate ..]. Qed.

Lemma settle_idle (dev : Device) (m : player) :
  awaiting m = Idle -> settle dev m = m.
Proof. intros H; unfold settle; now rewrite H. Qed.

(** A step of a suspended call ends it in the [catch] block, leaves it
    suspended nearer to its end, or ends it with the audio playing. *)
Lemma settle_cases (dev : Device) (m : player) :
  awaiting m <> Idle ->
  (exists a, settle dev m = caught a)
  \/ continued m (settle dev m)
  \/ played dev m (settle dev m).
Proof.
  intros Hi; unfold settle.
  destruct (awaiting m) as [|[b|e]|b|b|b] eqn:Ea; [contradiction| | | | |].
  - destruct (audioContextRef (state m)).
    + right; left; unfold continued; rewrite Ea; cbn [state awaiting remaining].
      split; [discriminate|split; [lia|repeat split]].
    + destruct (@makeContext_cases dev b m) as [H|H];
        [rewrite Ea; cbn [remaining]; lia|now left|].
      right; left; exact H.
  - left; now exists (state m).
  - destruct (closeContext dev); [|left; now exists (state m)].
    destruct (@makeContext_cases dev b m) as [H|H];
      [rewrite Ea; cbn [remaining]; lia|now left|].
    right; left; exact H.
  - destruct (resume dev); [|left; now exists (state m)].
    destruct (@decode_cases dev b m) as [H|H];
      [rewrite Ea; cbn [remaining]; lia|left; now exists (state m)|].
    right; left; exact H.
  - destruct (decodeAudioData dev b) as [[]|] eqn:Ed;
      [|left; now exists (state m)].
    unfold play.
    destruct (createSource dev) as [[]|] eqn:Ec;
      [|left; now exists (state m)].
    destruct (start dev) as [[]|] eqn:Es; [|left; eexists; reflexivity].
    right; right; exists b; rewrite Ea; repeat split; assumption.
Qed.

(** Every event keeps the invariant. *)
Lemma audio_inv_step (e : event) (m : player) :
  audio_inv m -> audio_inv (handle e m).
Proof.
  intros (Hg & Hsp & Hsrc); unfold audio_inv.
  - destruct e as [env summary|dev| | |err]; cbn [handle].
    + unfold handlePlaySummary.
      destruct (isGeneratingSummarySpeech (state m)) eqn:Eg;
        [rewrite ?Eg; exact (conj Hg (conj Hsp Hsrc))|].
      destruct (isSpeakingSummary (state m)) eqn:Es;
        [|destruct (negb (truthy summary))];
        cbn [state awaiting stopAudio setError setIsGeneratingSummarySpeech
             isSpeakingSummary isGeneratingSummarySpeech sourceNodeRef];
        rewrite ?Eg, ?Es.
      * split; [exact Hg|split; [reflexivity|discriminate]].
      * split; [exact Hg|split; [exact Hsp|exact Hsrc]].
      * split; [split; discriminate|split; [reflexivity|discriminate]].
    + destruct (pending_cases (awaiting m)) as [Hidle|Hi];
        [rewrite (@settle_idle dev m Hidle); exact (conj Hg (conj Hsp Hsrc))|].
      assert (Hgen : isGeneratingSummarySpeech (state m) = true)
        by (destruct (isGeneratingSummarySpeech (state m));
            [reflexivity|exfalso; apply Hi, Hg; reflexivity]).
      destruct (@settle_cases dev m Hi)
        as [(a & ->)|[(Hc1 & _ & Hc3 & Hc4 & Hc5 & _)
                     |(b' & _ & _ & _ & _ & ->)]].
      * rewrite caught_state;
          cbn [state awaiting isSpeakingSummary isGeneratingSummarySpeech
               sourceNodeRef].
        split; [split; reflexivity
               |split; [intros C; now contradiction C|discriminate]].
      * rewrite Hc3, Hc4, Hc5, Hgen.
        split; [split; [intros C; now contradiction Hc1|discriminate]|].
        split; [intros _; exact (Hsp Hi)|].
        rewrite (Hsp Hi); discriminate.
      * cbn [state awaiting isSpeakingSummary isGeneratingSummarySpeech
             sourceNodeRef].
        split; [split; reflexivity
               |split; [intros C; now contradiction C|reflexivity]].
    + cbn [state awaiting stopAudio isSpeakingSummary
           isGeneratingSummarySpeech sourceNodeRef].
      split; [exact Hg|split; [reflexivity|discriminate]].
    + cbn [state awaiting onended isSpeakingSummary
           isGeneratingSummarySpeech sourceNodeRef].
      split; [exact Hg|split; [reflexivity|discriminate]].
    + cbn [state awaiting setError isSpeakingSummary
           isGeneratingSummarySpeech sourceNodeRef].
      exact (conj Hg (conj Hsp Hsrc)).
Qed.

Lemma audio_inv_run (es : list event) (m : player) :
  audio_inv m -> audio_inv (run es m).
Proof.
  revert m; induction es as [|e es IH]; intros m H; [exact H|].
  apply (IH (handle e m)), audio_inv_step, H.
Qed.

(** X17.  In every state that the audio reaches, whatever the order of
    clicks, settling promises, stops, ends of sounds and writes to the
    error line: the read-aloud button is enabled exactly when no call of
    [handlePlaySummary] is suspended, so no two calls overlap; nothing is
    being read while a call is suspended; and a summary that is being
    read has its source.  (A source may be left without its context: a
    stop during the decoding nulls the context ref, and the call then
    plays on its local context.) *)
Theorem audio_inv_reachable (m : player) : reachable m -> audio_inv m.
Proof.
  intros H; induction H as [|e m H IH].
  - split; [split; reflexivity|split; [intros C; now contradiction C|]].
    discriminate.
  - apply audio_inv_step, IH.
Qed.

Lemma audio_inv_reachable_witness :
  sourceNodeRef
    (state (run [Click speaking_env (js "pigs"); Settle working_device;
                 Settle working_device; Stop; Settle working_device]
              mounted)) = true
  /\ audioContextRef
       (state (run [Click speaking_env (js "pigs"); Settle working_device;
                    Settle working_device; Stop; Settle working_device]
                 mounted)) = false.
Proof.
  split; [|reflexivity].
  apply (@audio_inv_reachable
           (run [Click speaking_env (js "pigs"); Settle working_device;
                 Settle working_device; Stop; Settle working_device]
              mounted)).
  - unfold run; cbn [fold_left].
    repeat apply reachable_event; apply reachable_mounted.
  - vm_compute; reflexivity.
Defined.

Lemma run_app (es es' : list event) (m : player) :
  run (es ++ es') m = run es' (run es m).
Proof. apply fold_left_app. Qed.

(** An event that is not a click does not start a call, and a settling
    promise brings a suspended call nearer to its end. *)
Lemma remaining_step (e : event) (m : player) :
  is_click e = false ->
  remaining (awaiting (handle e m))
  <= remaining (awaiting m) - (if is_settle e then 1 else 0).
Proof.
  destruct e as [env summary|dev| | |err]; cbn [is_click is_settle handle];
    [discriminate| |intros _; cbn [awaiting]; lia ..].
  intros _.
  destruct (pending_cases (awaiting m)) as [Hidle|Hi];
    [rewrite (@settle_idle dev m Hidle), Hidle; cbn [remaining]; lia|].
  destruct (@settle_cases dev m Hi)
    as [(a & ->)|[(_ & Hlt & _)|(b' & _ & _ & _ & _ & ->)]];
    cbn [caught awaiting remaining]; lia.
Qed.

Lemma remaining_run (es : list event) (m : player) :
  forallb (fun e => negb (is_click e)) es = true ->
  remaining (awaiting (run es m))
  <= remaining (awaiting m) - length (filter is_settle es).
Proof.
  revert m; induction es as [|e es IH]; intros m H; [cbn; lia|].
  cbn [forallb] in H; apply andb_true_iff in H; destruct H as [He H].
  apply negb_true_iff in He.
  change (run (e :: es) m) with (run es (handle e m)).
  pose proof (IH (handle e m) H) as H1.
  pose proof (@remaining_step e m He) as H2.
  cbn [filter]; destruct (is_settle e); cbn [length] in *; lia.
Qed.

(** While a call waits for the service, nothing but the settling of that
    promise moves it. *)
Lemma waiting_run (es : list event) (m : player) (r : outcome jsstring) :
  forallb (fun e => negb (is_settle e)) es = true ->
  awaiting m = AwaitSpeech r ->
  isGeneratingSummarySpeech (state m) = true ->
  awaiting (run es m) = AwaitSpeech r.
Proof.
  revert m; induction es as [|e es IH]; intros m H Ha Hg; [exact Ha|].
  cbn [forallb] in H; apply andb_true_iff in H; destruct H as [He H].
  change (run (e :: es) m) with (run es (handle e m)).
  destruct e as [env summary|dev| | |err]; cbn [is_settle negb] in He;
    try discriminate He; apply IH; try exact H; cbn [handle state awaiting];
    try exact Ha; try exact Hg.
  - unfold handlePlaySummary; rewrite Hg; exact Ha.
  - unfold handlePlaySummary; rewrite Hg; exact Hg.
Qed.

(** X16.  A click on the read-aloud button, with everything that may
    happen while the call is suspended.  The click does nothing while a
    call is suspended; while the summary is being read it stops the audio
    and asks nothing of the service; with an empty summary it only writes
    its own message; otherwise it clears the error line, disables the
    button and waits for the service.  A suspended call ends either in the
    [catch] block, with nothing being read, both refs null and the fixed
    message on the error line, or with the audio playing: the summary is
    being read and the source ref is set, after the device decoded the
    audio and started the source.  The message of the service is never
    shown: when [generateStorySpeech] rejects, a missing key included,
    the call ends with the fixed message whatever stops, ends and writes
    came in between.  Without further clicks four settled promises end
    any call and the button is enabled again. *)
Theorem handlePlaySummary_outcomes :
  (forall env summary m,
     (isGeneratingSummarySpeech (state m) = true ->
      handlePlaySummary env summary m = m)
     /\ (isGeneratingSummarySpeech (state m) = false ->
         isSpeakingSummary (state m) = true ->
         handlePlaySummary env summary m
         = {| state := stopAudio (state m); awaiting := awaiting m |})
     /\ (isGeneratingSummarySpeech (state m) = false ->
         isSpeakingSummary (state m) = false -> summary = [] ->
         handlePlaySummary env summary m
         = {| state := setError (Some nothingToReadError) (state m);
              awaiting := awaiting m |})
     /\ (isGeneratingSummarySpeech (state m) = false ->
         isSpeakingSummary (state m) = false -> summary <> [] ->
         handlePlaySummary env summary m
         = {| state :=
                {| isSpeakingSummary := false;
                   isGeneratingSummarySpeech := true;
                   error := None;
                   audioContextRef := audioContextRef (state m);
                   sourceNodeRef := sourceNodeRef (state m) |};
              awaiting := AwaitSpeech (generateStorySpeech env summary) |}))
  /\ (forall dev m,
        awaiting m <> Idle -> awaiting (settle dev m) = Idle ->
        settle dev m
        = {| state :=
               {| isSpeakingSummary := false;
                  isGeneratingSummarySpeech := false;
                  error := Some playbackError; audioContextRef := false;
                  sourceNodeRef := false |};
             awaiting := Idle |}
        \/ exists b,
             awaiting m = AwaitDecode b
             /\ decodeAudioData dev b = Resolved tt
             /\ createSource dev = Resolved tt
             /\ start dev = Resolved tt
             /\ settle dev m
                = {| state :=
                       {| isSpeakingSummary := true;
                          isGeneratingSummarySpeech := false;
                          error := error (state m);
                          audioContextRef := audioContextRef (state m);
                          sourceNodeRef := true |};
                     awaiting := Idle |})
  /\ (forall env summary e m es dev,
        isGeneratingSummarySpeech (state m) = false ->
        isSpeakingSummary (state m) = false -> summary <> [] ->
        generateStorySpeech env summary = Rejected e ->
        forallb (fun e => negb (is_settle e)) es = true ->
        run (Click env summary :: es ++ [Settle dev]) m
        = {| state :=
               {| isSpeakingSummary := false;
                  isGeneratingSummarySpeech := false;
                  error := Some playbackError; audioContextRef := false;
                  sourceNodeRef := false |};
             awaiting := Idle |}
        /\ exists msg, e = Error msg /\ msg <> playbackError)
  /\ (forall es m,
        audio_inv m ->
        forallb (fun e => negb (is_click e)) es = true ->
        4 <= length (filter is_settle es) ->
        awaiting (run es m) = Idle
        /\ isGeneratingSummarySpeech (state (run es m)) = false).
Proof.
  split; [|split; [|split]].
  - intros env summary m; unfold handlePlaySummary.
    split; [intros ->; reflexivity|].
    split; [intros -> ->; reflexivity|].
    split; [intros -> -> ->; reflexivity|].
    intros Hg Hs Hne; rewrite Hg, Hs.
    destruct summary as [|c summary]; [now contradiction Hne|].
    cbn [truthy negb]; unfold setError, setIsGeneratingSummarySpeech.
    cbn [isSpeakingSummary isGeneratingSummarySpeech error audioContextRef
         sourceNodeRef].
    now rewrite Hs.
  - intros dev m Hi Hend.
    destruct (@settle_cases dev m Hi)
      as [(a & H)|[(Hc & _)|(b & Ha & Hd & Hc & Hs & H)]].
    + left; rewrite H; apply caught_state.
    + contradiction.
    + right; exists b; repeat split; assumption.
  - intros env summary e m es dev Hg Hs Hne He Hes.
    split.
    + change (run (Click env summary :: es ++ [Settle dev]) m)
        with (run (es ++ [Settle dev]) (handlePlaySummary env summary m)).
      rewrite run_app; cbn [run fold_left handle].
      fold (run es (handlePlaySummary env summary m)).
      assert (Ha : awaiting (run es (handlePlaySummary env summary m))
                   = AwaitSpeech (Rejected e)).
      { apply waiting_run; [exact Hes| |];
          unfold handlePlaySummary; rewrite Hg, Hs;
          destruct summary as [|c summary]; [now contradiction Hne
                                            | |now contradiction Hne|];
          cbn [truthy negb awaiting state setError
               setIsGeneratingSummarySpeech isGeneratingSummarySpeech];
          [now rewrite He|reflexivity]. }
      unfold settle; rewrite Ha; apply caught_state.
    + apply generateStorySpeech_rejections in He; destruct He as [-> | ->].
      * exists speechError; split; [reflexivity|].
        intros Hd; vm_compute in Hd; discriminate Hd.
      * exists (js "API Key not found"); split; [reflexivity|].
        intros Hd; vm_compute in Hd; discriminate Hd.
  - intros es m Hm Hes Hn.
    pose proof (@remaining_run es m Hes) as Hr.
    assert (Hle : remaining (awaiting m) <= 4)
      by (destruct (awaiting m); cbn; lia).
    assert (Hi : awaiting (run es m) = Idle)
      by (destruct (awaiting (run es m)); cbn [remaining] in Hr;
          [reflexivity|lia ..]).
    split; [exact Hi|].
    destruct (@audio_inv_run es m Hm) as [Hg _].
    now apply Hg.
Qed.

Lemma handlePlaySummary_outcomes_witness :
  error (state (run [Click failing_env (js "pigs"); Stop;
                     WriteError None; Settle working_device] mounted))
  = Some playbackError
  /\ isGeneratingSummarySpeech
       (state (run [Click speaking_env (js "pigs"); Settle deaf_device;
                    Stop; Settle deaf_device; Settle deaf_device;
                    Settle deaf_device] mounted)) = false.
Proof.
  destruct handlePlaySummary_outcomes as (_ & _ & Hshown & Hends).
  split.
  - assert (Hne : js "pigs" <> [])
      by (intros Hd; vm_compute in Hd; discriminate Hd).
    assert (He : generateStorySpeech failing_env (js "pigs")
                 = Rejected (Error speechError))
      by (vm_compute; reflexivity).
    pose proof (proj1 (Hshown failing_env (js "pigs") (Error speechError)
                         mounted [Stop; WriteError None] working_device
                         eq_refl eq_refl Hne He eq_refl)) as H.
    cbn [app] in H; rewrite H; reflexivity.
  - change (run [Click speaking_env (js "pigs"); Settle deaf_device;
                 Stop; Settle deaf_device; Settle deaf_device;
                 Settle deaf_device] mounted)
      with (run [Settle deaf_device; Stop; Settle deaf_device;
                 Settle deaf_device; Settle deaf_device]
              (handle (Click speaking_env (js "pigs")) mounted)).
    apply Hends.
    + apply audio_inv_step.
      split; [split; reflexivity|split; [intros C; now contradiction C|]].
      discriminate.
    + reflexivity.
    + cbn; lia.
Defined.

End Audio.
